(** * UK energy grid: the Elexon fetch-validate-clean pipeline

    A shallow embedding of [src/data/fetch_data.py] (class
    [ElexonDataFetcher]) and the properties its specification states
    about it.  The pandas, requests and datetime calls the module makes
    are modelled by small executable definitions that follow the
    documented behaviour of those libraries. *)

From Stdlib Require Import ZArith List String Ascii Bool Lia.
From Stdlib Require Import Permutation Sorted.
From Equations Require Import Equations.
Import ListNotations.

Open Scope Z_scope.

(** ** Exceptions and the result type *)

(** The exceptions the module can see.  All of them derive from
    Python's [Exception], so the [except Exception] clause of the retry
    loop catches every one of them. *)
Inductive exn : Type :=
| RequestException (what : string)   (* raised by [session.get]: connection error, timeout *)
| JSONDecodeError                    (* raised by [response.json()] *)
| KeyError (key : string)            (* a missing dict key or column label *)
| ValueError (msg : string)          (* raised by pandas *)
| Exception (msg : string).          (* a bare [Exception(msg)] *)

Definition result (A : Type) : Type := (exn + A)%type.

Definition ok {A} (a : A) : result A := inr a.
Definition raise {A} (e : exn) : result A := inl e.

Definition rbind {A B} (m : result A) (k : A -> result B) : result B :=
  match m with
  | inl e => inl e
  | inr a => k a
  end.

Declare Scope result_scope.
Delimit Scope result_scope with result.
Notation "x <- m ;; k" := (rbind m (fun x => k))
  (at level 61, m at next level, right associativity) : result_scope.

(** ** A small model of the pandas frames the module builds *)

Module Pandas.

Inductive cell : Type :=
| CTime (t : Z)        (* a datetime64 value *)
| CStr (s : string)
| CNum (q : Z)         (* an int64 value: a quantity in whole MW *)
| CBool (b : bool)
| CNaN.

Definition cell_eqb (a b : cell) : bool :=
  match a, b with
  | CTime x, CTime y => x =? y
  | CStr x, CStr y => String.eqb x y
  | CNum x, CNum y => x =? y
  | CBool x, CBool y => Bool.eqb x y
  | CNaN, CNaN => true
  | _, _ => false
  end.

(** The order used to sort group keys: values of one kind by their
    own order, kinds by their position in the declaration. *)
Definition cell_rank (c : cell) : Z :=
  match c with
  | CTime _ => 0 | CStr _ => 1 | CNum _ => 2 | CBool _ => 3 | CNaN => 4
  end.

Definition cell_leb (a b : cell) : bool :=
  match a, b with
  | CTime x, CTime y => x <=? y
  | CNum x, CNum y => x <=? y
  | CStr x, CStr y => String.leb x y
  | CBool x, CBool y => implb x y
  | _, _ => cell_rank a <=? cell_rank b
  end.

Definition notna (c : cell) : bool :=
  match c with CNaN => false | _ => true end.

(** A frame in row-major form: the column labels and, per row, one
    cell for each label.  The positional index is implicit, which is
    what [reset_index(drop=True)] and [ignore_index=True] restore. *)
Record DataFrame : Type := mkDF {
  columns : list string;
  rows : list (list cell)
}.

Abbreviation row := (list cell) (only parsing).

Definition cell_at (i : nat) (r : row) : cell := nth i r CNaN.

Definition remove_at {A} (i : nat) (l : list A) : list A :=
  firstn i l ++ skipn (S i) l.

Fixpoint col_pos (c : string) (cols : list string) : option nat :=
  match cols with
  | [] => None
  | h :: t => if String.eqb c h then Some 0%nat else option_map S (col_pos c t)
  end.

Definition has_col (c : string) (cols : list string) : bool :=
  match col_pos c cols with Some _ => true | None => false end.

(** [df.empty]: true when either axis has length zero. *)
Definition empty (df : DataFrame) : bool :=
  match columns df, rows df with
  | [], _ => true
  | _, [] => true
  | _, _ => false
  end.

Local Open Scope result_scope.

(** [df[c]] *)
Definition getitem (df : DataFrame) (c : string) : result (list cell) :=
  match col_pos c (columns df) with
  | Some i => ok (map (cell_at i) (rows df))
  | None => raise (KeyError c)
  end.

(** [df[[c1, ..., cn]]] *)
Fixpoint positions (cs cols : list string) : result (list nat) :=
  match cs with
  | [] => ok []
  | c :: cs' =>
      match col_pos c cols with
      | Some i => ps <- positions cs' cols ;; ok (i :: ps)
      | None => raise (KeyError c)
      end
  end.

Definition getitems (df : DataFrame) (cs : list string) : result DataFrame :=
  ps <- positions cs (columns df) ;;
  ok (mkDF cs (map (fun r => map (fun i => cell_at i r) ps) (rows df))).

(** [df.columns = labels], for a frame with as many columns. *)
Definition set_columns (df : DataFrame) (labels : list string) : DataFrame :=
  mkDF labels (rows df).

Fixpoint set_nth {A} (i : nat) (v : A) (l : list A) : list A :=
  match i, l with
  | _, [] => []
  | O, _ :: t => v :: t
  | S i', h :: t => h :: set_nth i' v t
  end.

(** [df[c] = values]: a new label is appended as the last column, an
    existing one is overwritten in place. *)
Definition setitem (df : DataFrame) (c : string) (values : list cell) : DataFrame :=
  match col_pos c (columns df) with
  | None =>
      mkDF (columns df ++ [c])
           (map (fun p => fst p ++ [snd p]) (combine (rows df) values))
  | Some i =>
      mkDF (columns df)
           (map (fun p => set_nth i (snd p) (fst p)) (combine (rows df) values))
  end.

(** [df[mask]] for a boolean series aligned with the rows. *)
Definition is_true (c : cell) : bool :=
  match c with CBool true => true | _ => false end.

Definition loc (df : DataFrame) (mask : list cell) : DataFrame :=
  mkDF (columns df)
       (map fst (filter (fun p => is_true (snd p)) (combine (rows df) mask))).

(** [df.drop(columns=[c])] *)
Definition drop (df : DataFrame) (c : string) : result DataFrame :=
  match col_pos c (columns df) with
  | Some i => ok (mkDF (remove_at i (columns df)) (map (remove_at i) (rows df)))
  | None => raise (KeyError c)
  end.

(** [series >= bound]: a comparison with NaN is false. *)
Definition ge_scalar (bound : Z) (c : cell) : cell :=
  match c with
  | CNum q => CBool (bound <=? q)
  | _ => CBool false
  end.

(** *** Sorting of group keys *)

Fixpoint insert_key (k : cell) (l : list cell) : list cell :=
  match l with
  | [] => [k]
  | h :: t => if cell_leb k h then k :: l else h :: insert_key k t
  end.

Fixpoint sort_keys (l : list cell) : list cell :=
  match l with
  | [] => []
  | h :: t => insert_key h (sort_keys t)
  end.

Fixpoint dedup (l : list cell) : list cell :=
  match l with
  | [] => []
  | h :: t => h :: filter (fun c => negb (cell_eqb h c)) (dedup t)
  end.

(** The group keys of [groupby]: NaN keys are left out ([dropna=True]),
    each key appears once, keys are sorted ([sort=True]). *)
Definition group_keys (l : list cell) : list cell :=
  sort_keys (dedup (filter notna l)).

Definition num_of (c : cell) : Z :=
  match c with CNum q => q | _ => 0 end.

Definition zsum (l : list Z) : Z := fold_right Z.add 0 l.

(** The arithmetic of an [int64] column: a result that leaves the range
    from [-2^63] to [2^63 - 1] wraps around. *)
Definition wrap_int64 (z : Z) : Z := (z + 2 ^ 63) mod 2 ^ 64 - 2 ^ 63.

(** [sum] over [int64] values: the accumulator is an [int64] too, and
    the values are added to it one after the other. *)
Definition int64_sum (l : list Z) : Z :=
  fold_left (fun acc x => wrap_int64 (acc + x)) l 0.

(** The sum of column [j] over the rows whose column [i] is [k], as
    [groupby(...).sum()] computes it for a column of dtype [int64]; a
    NaN is skipped, as [sum] does. *)
Definition group_sum (i j : nat) (k : cell) (rws : list row) : Z :=
  int64_sum (map (fun r => num_of (cell_at j r))
                 (filter (fun r => cell_eqb (cell_at i r) k) rws)).

(** [df.groupby(key)[val].sum().reset_index()] *)
Definition groupby_sum (df : DataFrame) (key val : string) : result DataFrame :=
  match col_pos key (columns df) with
  | None => raise (KeyError key)
  | Some i =>
      match col_pos val (columns df) with
      | None => raise (KeyError val)   (* "Column not found" *)
      | Some j =>
          ok (mkDF [key; val]
                (map (fun k => [k; CNum (group_sum i j k (rows df))])
                     (group_keys (map (cell_at i) (rows df)))))
      end
  end.

(** *** merge *)

Definition suffixed (sfx : string) (key : string) (others : list string)
    (c : string) : string :=
  if negb (String.eqb c key) && has_col c others then (c ++ sfx)%string else c.

Definition merge_columns (lcols rcols : list string) (key : string)
    (j : nat) : list string :=
  map (suffixed "_x" key rcols) lcols
  ++ map (suffixed "_y" key lcols) (remove_at j rcols).

(** [left.merge(right, on=key)], the default inner join: one output row
    for each pair of a left row and a right row with equal keys, in the
    order of the left rows (and, for one left row, of the right rows);
    a column label present on both sides, other than the key, gets the
    suffix [_x] on the left and [_y] on the right. *)
Definition merge (left right : DataFrame) (key : string) : result DataFrame :=
  match col_pos key (columns left), col_pos key (columns right) with
  | Some i, Some j =>
      ok (mkDF (merge_columns (columns left) (columns right) key j)
            (flat_map
               (fun l =>
                  map (fun r => l ++ remove_at j r)
                      (filter (fun r => cell_eqb (cell_at i l) (cell_at j r))
                              (rows right)))
               (rows left)))
  | _, _ => raise (KeyError key)
  end.

(** The same join with the row order of pandas before 2.2, which
    grouped the output by key, the keys in the order of their first
    appearance on the left.  It is used only to show that, on the
    frames the parser builds, the two orders agree. *)
Definition merge_grouped (left right : DataFrame) (key : string)
    : result DataFrame :=
  match col_pos key (columns left), col_pos key (columns right) with
  | Some i, Some j =>
      ok (mkDF (merge_columns (columns left) (columns right) key j)
            (flat_map
               (fun k =>
                  flat_map
                    (fun l =>
                       map (fun r => l ++ remove_at j r)
                           (filter (fun r => cell_eqb (cell_at i l) (cell_at j r))
                                   (rows right)))
                    (filter (fun l => cell_eqb k (cell_at i l)) (rows left)))
               (dedup (map (cell_at i) (rows left)))))
  | _, _ => raise (KeyError key)
  end.

(** *** sort_values *)

(** The algorithm behind [sort_values]: it orders a list by an integer
    key.  Which one runs is chosen by the [kind] argument; the module
    never passes it, so it gets the default [kind='quicksort'], for
    which pandas promises an ascending result and nothing about the
    order of equal keys (only [mergesort] and [stable] are stable).
    The properties of the parser are stated for any algorithm that
    sorts; [numpy_quicksort] below is the one NumPy runs. *)
Definition sort_algorithm : Type := forall A : Type, (A -> Z) -> list A -> list A.

Definition sort_key (c : cell) : Z :=
  match c with
  | CTime t => t
  | CNum q => q
  | _ => 0
  end.

(** **** NumPy's quicksort

    For [kind='quicksort'] the work is done by NumPy's [argsort]: an
    introsort on an array of positions, with a median-of-three
    partition, an insertion sort for short ranges and a heap sort when
    the partitions go too deep.  The array [tosort] is a list, a
    pointer into it a position; the loops of the C code are recursions
    over a count that bounds their number of steps. *)

Module Numpy.

(** Ranges of at most this many entries are left to the insertion
    sort. *)
Definition SMALL_QUICKSORT : nat := 16.

Section Argsort.

(** The keys; [tosort] holds positions of [v], and it is [tosort] that
    is permuted. *)
Variable v : list Z.

Definition key_at (tosort : list nat) (p : nat) : Z :=
  nth (nth p tosort 0%nat) v 0.

Definition INTP_SWAP (tosort : list nat) (p q : nat) : list nat :=
  set_nth p (nth q tosort 0%nat) (set_nth q (nth p tosort 0%nat) tosort).

(** The insertion sort of the range from [pl] to [pr].  For each [pi]
    from [pl + 1] to [pr], the entry [vi] at [pi] moves down past the
    entries of greater key, and only those:
    [while (pj > pl && v[vi] < v[*pk]) { *pj-- = *pk--; } *pj = vi]. *)
Fixpoint shift_up (steps : nat) (pl : nat) (vi : nat) (pj : nat)
    (tosort : list nat) : list nat :=
  match steps with
  | O => set_nth pj vi tosort
  | S steps' =>
      if (pl <? pj)%nat && (nth vi v 0 <? key_at tosort (pj - 1))
      then shift_up steps' pl vi (pj - 1)
             (set_nth pj (nth (pj - 1) tosort 0%nat) tosort)
      else set_nth pj vi tosort
  end.

Fixpoint insertion_loop (count : nat) (pl pi : nat) (tosort : list nat)
    : list nat :=
  match count with
  | O => tosort
  | S count' =>
      insertion_loop count' pl (S pi)
        (shift_up pi pl (nth pi tosort 0%nat) pi tosort)
  end.

Definition insertion_sort (pl pr : nat) (tosort : list nat) : list nat :=
  insertion_loop (pr - pl) pl (S pl) tosort.

(** The partition of a range.  The first, middle and last entry are
    put in the order of their keys; the middle one, the pivot, is parked
    at [pr - 1]; [pi] runs up and [pj] runs down, exchanging the entries
    they stop at, until they meet; the pivot is then put at [pi].
    [scan_up] is [do ++pi; while (v[*pi] < vp)] and [scan_down] is
    [do --pj; while (vp < v[*pj])], both entered after their first
    step.  Entries of the pivot's key stop both scans, so they are
    exchanged as well. *)
Fixpoint scan_up (fuel : nat) (vp : Z) (tosort : list nat) (pi : nat) : nat :=
  match fuel with
  | O => pi
  | S fuel' =>
      if key_at tosort pi <? vp then scan_up fuel' vp tosort (S pi) else pi
  end.

Fixpoint scan_down (fuel : nat) (vp : Z) (tosort : list nat) (pj : nat) : nat :=
  match fuel with
  | O => pj
  | S fuel' =>
      if vp <? key_at tosort pj then scan_down fuel' vp tosort (pj - 1) else pj
  end.

Fixpoint partition_loop (fuel : nat) (vp : Z) (pi pj : nat)
    (tosort : list nat) : nat * list nat :=
  match fuel with
  | O => (pi, tosort)
  | S fuel' =>
      let pi := scan_up (List.length tosort) vp tosort (S pi) in
      let pj := scan_down (List.length tosort) vp tosort (pj - 1) in
      if (pj <=? pi)%nat then (pi, tosort)
      else partition_loop fuel' vp pi pj (INTP_SWAP tosort pi pj)
  end.

Definition partition (pl pr : nat) (tosort : list nat) : nat * list nat :=
  let pm := (pl + (pr - pl) / 2)%nat in
  let tosort := if key_at tosort pm <? key_at tosort pl
                then INTP_SWAP tosort pm pl else tosort in
  let tosort := if key_at tosort pr <? key_at tosort pm
                then INTP_SWAP tosort pr pm else tosort in
  let tosort := if key_at tosort pm <? key_at tosort pl
                then INTP_SWAP tosort pm pl else tosort in
  let vp := key_at tosort pm in
  let tosort := INTP_SWAP tosort pm (pr - 1) in
  let (pi, tosort) :=
    partition_loop (List.length tosort) vp pl (pr - 1) tosort in
  (pi, INTP_SWAP tosort pi (pr - 1)).

(** The heap sort of the [n] entries from position [base], with the
    heap's indices counted from 1. *)
Definition heap_at (base : nat) (tosort : list nat) (k : nat) : nat :=
  nth (base + k - 1) tosort 0%nat.

Definition heap_set (base : nat) (k : nat) (x : nat) (tosort : list nat)
    : list nat :=
  set_nth (base + k - 1) x tosort.

Fixpoint sift (fuel : nat) (base n : nat) (tmp : nat) (i j : nat)
    (tosort : list nat) : list nat :=
  match fuel with
  | O => heap_set base i tmp tosort
  | S fuel' =>
      if (j <=? n)%nat then
        let j := if (j <? n)%nat
                    && (nth (heap_at base tosort j) v 0
                        <? nth (heap_at base tosort (j + 1)) v 0)
                 then S j else j in
        if nth tmp v 0 <? nth (heap_at base tosort j) v 0
        then sift fuel' base n tmp j (j + j)
               (heap_set base i (heap_at base tosort j) tosort)
        else heap_set base i tmp tosort
      else heap_set base i tmp tosort
  end.

Fixpoint heapify (l : nat) (base n : nat) (tosort : list nat) : list nat :=
  match l with
  | O => tosort
  | S l' =>
      heapify l' base n (sift n base n (heap_at base tosort l) l (l + l) tosort)
  end.

Fixpoint sort_down (n : nat) (base : nat) (tosort : list nat) : list nat :=
  match n with
  | O => tosort
  | S n' =>
      match n' with
      | O => tosort
      | S _ =>
          let tmp := heap_at base tosort n in
          let tosort := heap_set base n (heap_at base tosort 1) tosort in
          sort_down n' base (sift n' base n' tmp 1 2 tosort)
      end
  end.

Definition aheapsort (base n : nat) (tosort : list nat) : list nat :=
  sort_down n base (heapify (n / 2) base n tosort).

(** The sort of the range from [pl] to [pr].  A range taken from the
    stack ([popped]) with its depth used up goes to the heap sort; a
    range of more than [SMALL_QUICKSORT] entries is partitioned, its
    smaller part is gone on with and its larger part is put on the
    stack, both with one depth less; any other range is sorted by
    insertion. *)
Fixpoint sort_range (fuel : nat) (popped : bool) (cdepth : Z) (pl pr : nat)
    (tosort : list nat) : list nat :=
  match fuel with
  | O => tosort
  | S fuel' =>
      if popped && (cdepth <? 0) then aheapsort pl (pr + 1 - pl) tosort
      else if (SMALL_QUICKSORT <? pr + 1 - pl)%nat then
        let (pi, tosort) := partition pl pr tosort in
        if (pi - pl <? pr - pi)%nat then
          let tosort := sort_range fuel' false (cdepth - 1) pl (pi - 1) tosort in
          sort_range fuel' true (cdepth - 1) (pi + 1) pr tosort
        else
          let tosort := sort_range fuel' false (cdepth - 1) (pi + 1) pr tosort in
          sort_range fuel' true (cdepth - 1) pl (pi - 1) tosort
      else insertion_sort pl pr tosort
  end.

(** [argsort(kind='quicksort')] of the keys [v]: the positions of [v]
    in ascending order of their keys.  The depth allowed is twice the
    position of the highest bit of the length. *)
Definition aquicksort : list nat :=
  let num := List.length v in
  sort_range (S num) true (Z.log2 (Z.of_nat num) * 2) 0 (num - 1) (seq 0 num).

End Argsort.

End Numpy.

(** [take]: the elements at the positions an indexer lists. *)
Definition take {A} (l : list A) (indexer : list nat) : list A :=
  flat_map (fun i => match nth_error l i with
                     | Some x => [x]
                     | None => []
                     end) indexer.

(** What [sort_values] does for [kind='quicksort']: the indexer is the
    [argsort] of the key column, the result holds the rows it lists. *)
Definition numpy_quicksort : sort_algorithm :=
  fun A key l => take l (Numpy.aquicksort (map key l)).

(** [df.sort_values(by).reset_index(drop=True)] *)
Definition sort_values (kind : sort_algorithm) (df : DataFrame) (by_ : string)
    : result DataFrame :=
  match col_pos by_ (columns df) with
  | Some i => ok (mkDF (columns df)
                       (kind row (fun r => sort_key (cell_at i r)) (rows df)))
  | None => raise (KeyError by_)
  end.

(** Rows in ascending order of a datetime column [i]. *)
Definition time_sorted (i : nat) (l : list row) : Prop :=
  StronglySorted (fun a b => sort_key (cell_at i a) <= sort_key (cell_at i b)) l
  /\ Forall (fun r => exists t, cell_at i r = CTime t) l.

(** *** concat *)

Fixpoint union_columns (acc : list string) (cols : list string) : list string :=
  match cols with
  | [] => acc
  | c :: t => if has_col c acc then union_columns acc t
              else union_columns (acc ++ [c]) t
  end.

Definition reindex (cols : list string) (df : DataFrame) : list row :=
  map (fun r =>
         map (fun c => match col_pos c (columns df) with
                       | Some i => cell_at i r
                       | None => CNaN
                       end) cols)
      (rows df).

(** [pd.concat(frames, ignore_index=True)]: the rows of the frames one
    after the other over the union of their columns; an empty list of
    frames is an error. *)
Definition concat (frames : list DataFrame) : result DataFrame :=
  match frames with
  | [] => raise (ValueError "No objects to concatenate")
  | _ =>
      let cols := fold_left union_columns (map columns frames) [] in
      ok (mkDF cols (flat_map (reindex cols) frames))
  end.

End Pandas.

Import Pandas.
Local Open Scope result_scope.
Local Open Scope string_scope.
Local Open Scope list_scope.
Local Open Scope Z_scope.

(** ** Records *)

(** One row of the parsed table: the three fields of the dicts built in
    [_parse_response].  The timestamp is an instant (microseconds, as in
    [Datetime] below), the quantity a whole number of MW, which pandas
    keeps in a column of dtype [int64]; fractional quantities, which
    would make the column [float64], are outside this model. *)
Record GenerationRecord : Type := mkRecord {
  timestamp : Z;
  fuel_type : string;
  generation_mw : Z
}.

Definition row_of_record (r : GenerationRecord) : row :=
  [CTime (timestamp r); CStr (fuel_type r); CNum (generation_mw r)].

Definition record_columns : list string :=
  ["timestamp"; "fuel_type"; "generation_mw"].

(** [pd.DataFrame(records)] for a list of dicts with the keys
    [timestamp], [fuel_type], [generation_mw]: the empty list gives a
    frame with no column at all. *)
Definition DataFrame_of_records (records : list GenerationRecord) : DataFrame :=
  match records with
  | [] => mkDF [] []
  | _ => mkDF record_columns (map row_of_record records)
  end.

(** Reading the three record fields back from a frame, by label. *)
Definition record_of_row (cols : list string) (r : row) : option GenerationRecord :=
  match col_pos "timestamp" cols, col_pos "fuel_type" cols,
        col_pos "generation_mw" cols with
  | Some i, Some j, Some k =>
      match cell_at i r, cell_at j r, cell_at k r with
      | CTime t, CStr f, CNum g => Some (mkRecord t f g)
      | _, _, _ => None
      end
  | _, _, _ => None
  end.

Fixpoint all_some {A} (l : list (option A)) : option (list A) :=
  match l with
  | [] => Some []
  | Some a :: t => option_map (cons a) (all_some t)
  | None :: _ => None
  end.

Definition records_of (df : DataFrame) : option (list GenerationRecord) :=
  all_some (map (record_of_row (columns df)) (rows df)).

(** ** The quality filter *)

Definition MIN_TOTAL_GENERATION : Z := 25000.

(** [ElexonDataFetcher._apply_quality_checks].  The two warnings it logs
    (count of bad records, count of dropped periods) read the frame
    without changing it and are left out. *)
Definition _apply_quality_checks (df : DataFrame) : result DataFrame :=
  if empty df then ok df else
  totals <- groupby_sum df "timestamp" "generation_mw" ;;
  let totals := set_columns totals ["timestamp"; "total_generation"] in
  total_generation <- getitem totals "total_generation" ;;
  let totals :=
    setitem totals "quality_flag"
            (map (ge_scalar MIN_TOTAL_GENERATION) total_generation) in
  right <- getitems totals ["timestamp"; "total_generation"; "quality_flag"] ;;
  df <- merge df right "timestamp" ;;
  quality_flag <- getitem df "quality_flag" ;;
  drop (loc df quality_flag) "quality_flag".

(** The total of a timestamp's group as the filter computes it: the
    [int64] sum of the group's quantities, in the order of the rows. *)
Definition group_total (records : list GenerationRecord) (t : Z) : Z :=
  int64_sum (map generation_mw (filter (fun r => timestamp r =? t) records)).

Definition is_valid (records : list GenerationRecord) (r : GenerationRecord) : bool :=
  MIN_TOTAL_GENERATION <=? group_total records (timestamp r).

(** ** Datetimes *)

Module Datetime.

(** A naive datetime, as [datetime.utcnow()] returns it, is a point of
    the proleptic Gregorian time line: the number of microseconds since
    0001-01-01T00:00:00.  Comparison, [min] and the addition of a
    [timedelta] are those of that count, as long as the result is a
    datetime again ([valid_datetime] below); where it is not, Python
    raises [OverflowError], and the properties that involve such
    arithmetic say so in a hypothesis. *)
Definition datetime : Type := Z.
Definition timedelta : Type := Z.

Definition US_PER_SECOND : Z := 1000000.
Definition US_PER_DAY : Z := 86400 * US_PER_SECOND.

(** [timedelta(days=n)] and [timedelta(hours=n)] *)
Definition timedelta_days (n : Z) : timedelta := n * US_PER_DAY.
Definition timedelta_hours (n : Z) : timedelta := n * 3600 * US_PER_SECOND.

(** The first instant past [datetime.max] (the end of year 9999). *)
Definition MAXORDINAL : Z := 3652059.
Definition valid_datetime (t : datetime) : Prop :=
  0 <= t < MAXORDINAL * US_PER_DAY.

(** The calendar helpers of CPython's [datetime] module. *)
Definition _is_leap (year : Z) : bool :=
  (year mod 4 =? 0) && (negb (year mod 100 =? 0) || (year mod 400 =? 0)).

Definition _days_before_year (year : Z) : Z :=
  let y := year - 1 in
  y * 365 + y / 4 - y / 100 + y / 400.

Definition _DAYS_IN_MONTH (month : Z) : Z :=
  nth (Z.to_nat month) [-1; 31; 28; 31; 30; 31; 30; 31; 31; 30; 31; 30; 31] 0.

Definition _DAYS_BEFORE_MONTH (month : Z) : Z :=
  nth (Z.to_nat month) [-1; 0; 31; 59; 90; 120; 151; 181; 212; 243; 273; 304; 334] 0.

Definition _days_in_month (year month : Z) : Z :=
  if (month =? 2) && _is_leap year then 29 else _DAYS_IN_MONTH month.

Definition _days_before_month (year month : Z) : Z :=
  _DAYS_BEFORE_MONTH month + (if (month >? 2) && _is_leap year then 1 else 0).

Definition _ymd2ord (year month day : Z) : Z :=
  _days_before_year year + _days_before_month year month + day.

Definition _DI400Y : Z := 146097.
Definition _DI100Y : Z := 36524.
Definition _DI4Y : Z := 1461.

(** The month and day of the [n]-th day (from 0) of a year. *)
Definition _month_day (leapyear : bool) (n : Z) : Z * Z :=
  let month := Z.shiftr (n + 50) 5 in
  let preceding :=
    _DAYS_BEFORE_MONTH month + (if (month >? 2) && leapyear then 1 else 0) in
  if preceding >? n then
    let month := month - 1 in
    let preceding :=
      preceding - (_DAYS_IN_MONTH month + (if (month =? 2) && leapyear then 1 else 0)) in
    (month, n - preceding + 1)
  else (month, n - preceding + 1).

Definition _ord2ymd (n : Z) : Z * Z * Z :=
  let n := n - 1 in
  let n400 := n / _DI400Y in
  let n := n mod _DI400Y in
  let year := n400 * 400 + 1 in
  let n100 := n / _DI100Y in
  let n := n mod _DI100Y in
  let n4 := n / _DI4Y in
  let n := n mod _DI4Y in
  let n1 := n / 365 in
  let n := n mod 365 in
  let year := year + n100 * 100 + n4 * 4 + n1 in
  if (n1 =? 4) || (n100 =? 4) then (year - 1, 12, 31)
  else
    let leapyear := (n1 =? 3) && (negb (n4 =? 24) || (n100 =? 3)) in
    let md := _month_day leapyear n in
    (year, fst md, snd md).

(** The fields a datetime object shows. *)
Record fields : Type := mkFields {
  year : Z; month : Z; day : Z;
  hour : Z; minute : Z; second : Z; microsecond : Z
}.

Definition fields_of (t : datetime) : fields :=
  let ymd := _ord2ymd (t / US_PER_DAY + 1) in
  let us := t mod US_PER_DAY in
  let s := us / US_PER_SECOND in
  mkFields (fst (fst ymd)) (snd (fst ymd)) (snd ymd)
           (s / 3600) (s mod 3600 / 60) (s mod 60) (us mod US_PER_SECOND).

Definition of_fields (f : fields) : datetime :=
  (_ymd2ord (year f) (month f) (day f) - 1) * US_PER_DAY
  + ((hour f * 60 + minute f) * 60 + second f) * US_PER_SECOND
  + microsecond f.

(** *** strftime *)

Definition digit (k : Z) : ascii := ascii_of_nat (48 + Z.to_nat (k mod 10)).

Definition pad2 (n : Z) : string :=
  String (digit (n / 10)) (String (digit n) EmptyString).

(** Four digits, for [%Y].  From the year 1000 on these are the digits
    every platform prints; for earlier years the C library decides
    whether the year is padded with zeros. *)
Definition pad4 (n : Z) : string :=
  String (digit (n / 1000)) (String (digit (n / 100))
    (String (digit (n / 10)) (String (digit n) EmptyString))).

(** One [%]-directive; the module's format uses [Y m d H M S]. *)
Definition directive (f : fields) (d : ascii) : string :=
  match d with
  | "Y"%char => pad4 (year f)
  | "m"%char => pad2 (month f)
  | "d"%char => pad2 (day f)
  | "H"%char => pad2 (hour f)
  | "M"%char => pad2 (minute f)
  | "S"%char => pad2 (second f)
  | "%"%char => "%"
  | _ => String "%" (String d EmptyString)
  end.

Fixpoint format (f : fields) (fmt : string) : string :=
  match fmt with
  | EmptyString => EmptyString
  | String "%"%char (String d rest) => (directive f d ++ format f rest)%string
  | String c rest => String c (format f rest)
  end.

(** [dt.strftime(fmt)]: the fields of [dt] are printed as they are, no
    offset is applied; the microseconds have no directive in the
    module's format. *)
Definition strftime (dt : datetime) (fmt : string) : string :=
  format (fields_of dt) fmt.

(** *** Aware datetimes *)

(** A datetime object is naive or aware.  Both show the same fields,
    the reading of a wall clock; an aware one also knows the offset of
    that clock from UTC.  [strftime] prints the fields and, with the
    module's format, nothing of the offset: what [fetch_generation_data]
    uses of a bound is its wall clock, the [datetime] above. *)
Record datetime_object : Type := mkDatetime {
  wall_clock : datetime;
  utcoffset : option timedelta      (* [None]: a naive datetime *)
}.

(** The instant a datetime object stands for, a naive one being read as
    UTC. *)
Definition instant (d : datetime_object) : datetime :=
  match utcoffset d with
  | Some offset => wall_clock d - offset
  | None => wall_clock d
  end.

(** *** Reading a timestamp back *)

Definition digit_val (c : ascii) : option Z :=
  let n := Z.of_nat (nat_of_ascii c) in
  if (48 <=? n) && (n <=? 57) then Some (n - 48) else None.

Fixpoint number (acc : Z) (ds : list ascii) : option Z :=
  match ds with
  | [] => Some acc
  | c :: t => match digit_val c with
              | Some v => number (acc * 10 + v) t
              | None => None
              end
  end.

(** The reader of the API's timestamp format, ISO-8601 in UTC with
    second precision and a literal [Z]: [YYYY-MM-DDTHH:MM:SSZ].  It
    accepts exactly that shape, checks the ranges of the fields, and
    gives the instant they name. *)
Definition parse_timestamp (s : string) : option datetime :=
  match list_ascii_of_string s with
  | [y1; y2; y3; y4; "-"; m1; m2; "-"; d1; d2; "T";
     h1; h2; ":"; i1; i2; ":"; s1; s2; "Z"]%char =>
      match number 0 [y1; y2; y3; y4], number 0 [m1; m2], number 0 [d1; d2],
            number 0 [h1; h2], number 0 [i1; i2], number 0 [s1; s2] with
      | Some y, Some m, Some d, Some h, Some mi, Some sec =>
          if (1 <=? y) && (1 <=? m) && (m <=? 12) && (1 <=? d)
             && (d <=? _days_in_month y m)
             && (h <=? 23) && (mi <=? 59) && (sec <=? 59)
          then Some (of_fields (mkFields y m d h mi sec 0))
          else None
      | _, _, _, _, _, _ => None
      end
  | _ => None
  end.

End Datetime.

Import Datetime.

(** ** The API payload *)

(** The JSON body as the parser reads it: dicts with the keys it looks
    up, a missing key being [None].  A value that is present has the
    JSON type the API gives it: a list of dicts for ['data'], a string
    for ['psrType'], a whole number for ['quantity'], and for
    ['startTime'] a timestamp, which is given here by the instant
    [pd.to_datetime] reads from it.  Bodies with values of other types,
    or with a start time that [pd.to_datetime] cannot read, are outside
    this model. *)
Record Entry : Type := mkEntry {
  psrType : option string;
  quantity : option Z
}.

Record Period : Type := mkPeriod {
  startTime : option datetime;          (* the value [pd.to_datetime] reads *)
  period_data : option (list Entry)     (* key ['data'] of a period *)
}.

Record Payload : Type := mkPayload {
  payload_data : option (list Period)   (* key ['data'] of the body *)
}.

(** [d[key]] and [d.get(key, [])] *)
Definition subscript {A} (field : option A) (key : string) : result A :=
  match field with
  | Some v => ok v
  | None => raise (KeyError key)
  end.

Definition get_or_empty {A} (field : option (list A)) : list A :=
  match field with
  | Some v => v
  | None => []
  end.

(** ** The response parser *)

Section Fetcher.

(** What [kind='quicksort'] does inside [sort_values]. *)
Variable quicksort : sort_algorithm.

(** The inner loop of [_parse_response]: one dict appended per entry. *)
Fixpoint parse_entries (ts : datetime) (entries : list Entry)
    (records : list GenerationRecord) : result (list GenerationRecord) :=
  match entries with
  | [] => ok records
  | entry :: rest =>
      fuel <- subscript (psrType entry) "psrType" ;;
      mw <- subscript (quantity entry) "quantity" ;;
      parse_entries ts rest (records ++ [mkRecord ts fuel mw])
  end.

Fixpoint parse_periods (periods : list Period)
    (records : list GenerationRecord) : result (list GenerationRecord) :=
  match periods with
  | [] => ok records
  | period :: rest =>
      ts <- subscript (startTime period) "startTime" ;;
      records <- parse_entries ts (get_or_empty (period_data period)) records ;;
      parse_periods rest records
  end.

(** [ElexonDataFetcher._parse_response].  The start times of the model
    are the instants [pd.to_datetime] reads, so the conversion of the
    timestamp column has nothing left to do here. *)
Definition _parse_response (data : Payload) : result DataFrame :=
  records <- parse_periods (get_or_empty (payload_data data)) [] ;;
  let df := DataFrame_of_records records in
  if negb (empty df) then sort_values quicksort df "timestamp"
  else ok df.

(** ** The upstream API and the effects of a fetch *)

Record Request : Type := mkRequest {
  endpoint : string;
  param_from : string;
  param_to : string
}.

Record Response : Type := mkResponse {
  status_code : Z;
  body : option Payload     (* [None]: the body is not JSON *)
}.

(** [response.json()] *)
Definition response_json (r : Response) : result Payload :=
  match body r with
  | Some data => ok data
  | None => raise JSONDecodeError
  end.

(** What one call of [session.get] does: it raises, or it returns a
    response. *)
Inductive outcome : Type :=
| Raises (e : exn)
| Returns (r : Response).

(** The upstream: its answer to the [n]-th request made (from 0). *)
Definition Upstream : Type := nat -> Request -> outcome.

Inductive event : Type :=
| Get (rq : Request)        (* one HTTP GET issued *)
| Sleep (seconds : Z).      (* [time.sleep(seconds)] *)

(** The effects so far, oldest first. *)
Definition World : Type := list event.

Definition is_get (e : event) : bool :=
  match e with Get _ => true | Sleep _ => false end.

Definition requests_made (w : World) : nat := List.length (filter is_get w).

Definition sleeps (w : World) : list Z :=
  flat_map (fun e => match e with Sleep s => [s] | Get _ => [] end) w.

(** Computations with effects: the world is threaded through and is
    kept when an exception is raised. *)
Definition M (A : Type) : Type := World -> result A * World.

Definition mret {A} (a : A) : M A := fun w => (ok a, w).
Definition mraise {A} (e : exn) : M A := fun w => (raise e, w).
Definition lift {A} (r : result A) : M A := fun w => (r, w).
Definition mbind {A B} (m : M A) (k : A -> M B) : M B :=
  fun w => match m w with
           | (inl e, w') => (inl e, w')
           | (inr a, w') => k a w'
           end.
Definition sleep (seconds : Z) : M unit := fun w => (ok tt, w ++ [Sleep seconds]).

Notation "x <~ m ;; k" := (mbind m (fun x => k))
  (at level 61, m at next level, right associativity).

Variable upstream : Upstream.

(** [ElexonDataFetcher._make_request]; the latency it logs is not part
    of what it returns. *)
Definition _make_request (rq : Request) : M Response :=
  fun w => match upstream (requests_made w) rq with
           | Raises e => (raise e, w ++ [Get rq])
           | Returns r => (ok r, w ++ [Get rq])
           end.

Definition BASE_URL : string := "https://data.elexon.co.uk/bmrs/api/v1".
Definition TIMESTAMP_FORMAT : string := "%Y-%m-%dT%H:%M:%SZ".

(** The request of [fetch_generation_data]: endpoint and [params]. *)
Definition build_request (start_date end_date : datetime) : Request :=
  mkRequest (BASE_URL ++ "/generation/actual/per-type")%string
            (strftime start_date TIMESTAMP_FORMAT)
            (strftime end_date TIMESTAMP_FORMAT).

(** The [try] block of one attempt: [Some df] when it returns [df],
    [None] when it falls through (a status other than 200). *)
Definition attempt_body (rq : Request) : M (option DataFrame) :=
  response <~ _make_request rq ;;
  if status_code response =? 200 then
    data <~ lift (response_json response) ;;
    df <~ lift (_parse_response data) ;;
    df <~ lift (_apply_quality_checks df) ;;
    mret (Some df)
  else mret None.

(** The [for attempt in range(retry_attempts)] loop from [attempt] on,
    with [remaining] iterations to go, and the [raise] after it. *)
Fixpoint retry_loop (retry_attempts : Z) (rq : Request)
    (remaining : nat) (attempt : Z) : M DataFrame :=
  fun w =>
    match remaining with
    | O => (raise (Exception "Failed to fetch data after all retry attempts"), w)
    | S remaining' =>
        match attempt_body rq w with
        | (inr (Some df), w') => (ok df, w')
        | (inr None, w') =>
            retry_loop retry_attempts rq remaining' (attempt + 1) w'
        | (inl e, w') =>
            if attempt <? retry_attempts - 1 then
              retry_loop retry_attempts rq remaining' (attempt + 1)
                         (w' ++ [Sleep (2 ^ attempt)])
            else (raise e, w')
        end
    end.

(** [ElexonDataFetcher.fetch_generation_data] *)
Definition fetch_generation_data (start_date end_date : datetime)
    (retry_attempts : Z) : M DataFrame :=
  retry_loop retry_attempts (build_request start_date end_date)
             (Z.to_nat retry_attempts) 0.

(** [ElexonDataFetcher.fetch_current_generation]; [utcnow] is the value
    [datetime.utcnow()] returns. *)
Definition fetch_current_generation (utcnow : datetime) : M DataFrame :=
  let end_date := utcnow in
  let start_date := end_date - timedelta_hours 24 in
  fetch_generation_data start_date end_date 3.

(** ** The chunked historical fetch *)

Definition chunk_size : Z := 7.   (* days per request *)

(** The number of chunks still to fetch: the measure of the loop. *)
Definition chunks_left (end_date current_start : datetime) : nat :=
  Z.to_nat ((end_date - current_start + timedelta_days chunk_size - 1)
            / timedelta_days chunk_size).

(** The [while current_start < end_date] loop of
    [fetch_historical_data]. *)
Equations? chunk_loop (end_date current_start : datetime)
    (all_data : list DataFrame) (w : World) : result (list DataFrame) * World
    by wf (chunks_left end_date current_start) lt :=
  chunk_loop end_date current_start all_data w
    with Z_lt_dec current_start end_date := {
    | right _ => (ok all_data, w)
    | left _
        with fetch_generation_data current_start
               (Z.min (current_start + timedelta_days chunk_size) end_date) 3 w := {
        | (inl e, w') => (inl e, w')
        | (inr chunk_df, w') =>
            chunk_loop end_date
              (Z.min (current_start + timedelta_days chunk_size) end_date)
              (all_data ++ [chunk_df]) (w' ++ [Sleep 1]) } }.
Proof.
  unfold chunks_left, timedelta_days, chunk_size, US_PER_DAY, US_PER_SECOND.
  apply Z2Nat.inj_lt.
  - apply Z.div_pos; lia.
  - apply Z.div_pos; lia.
  - apply Z.div_lt_upper_bound; [lia |].
    pose proof (Z.mul_div_le
      (end_date - current_start + 7 * (86400 * 1000000) - 1)
      (7 * (86400 * 1000000))).
    pose proof (Z.mod_pos_bound
      (end_date - current_start + 7 * (86400 * 1000000) - 1)
      (7 * (86400 * 1000000))).
    pose proof (Z.div_mod
      (end_date - current_start + 7 * (86400 * 1000000) - 1)
      (7 * (86400 * 1000000))).
    lia.
Qed.

(** [ElexonDataFetcher.fetch_historical_data] *)
Definition fetch_historical_data (utcnow : datetime) (days : Z) : M DataFrame :=
  let end_date := utcnow in
  let start_date := end_date - timedelta_days days in
  all_data <~ chunk_loop end_date start_date [] ;;
  combined_df <~ lift (concat all_data) ;;
  mret combined_df.

End Fetcher.

(** ** Definitions used to state the properties *)

(** The sub-windows the loop of [fetch_historical_data] passes to
    [fetch_generation_data], in the order of the calls. *)
Equations? windows (end_date current_start : datetime)
    : list (datetime * datetime)
    by wf (chunks_left end_date current_start) lt :=
  windows end_date current_start
    with Z_lt_dec current_start end_date := {
    | right _ => []
    | left _ =>
        (current_start, Z.min (current_start + timedelta_days chunk_size) end_date)
        :: windows end_date
             (Z.min (current_start + timedelta_days chunk_size) end_date) }.
Proof.
  unfold chunks_left, timedelta_days, chunk_size, US_PER_DAY, US_PER_SECOND.
  apply Z2Nat.inj_lt.
  - apply Z.div_pos; lia.
  - apply Z.div_pos; lia.
  - apply Z.div_lt_upper_bound; [lia |].
    pose proof (Z.mul_div_le
      (end_date - current_start + 7 * (86400 * 1000000) - 1)
      (7 * (86400 * 1000000))).
    pose proof (Z.mod_pos_bound
      (end_date - current_start + 7 * (86400 * 1000000) - 1)
      (7 * (86400 * 1000000))).
    pose proof (Z.div_mod
      (end_date - current_start + 7 * (86400 * 1000000) - 1)
      (7 * (86400 * 1000000))).
    lia.
Qed.

(** Sub-windows that tile the range from [s] to [e]: each starts where
    the one before ended (the first at [s]), is not empty, is at most
    one chunk long, is a full chunk unless it is the last, and the last
    ends at [e]. *)
Fixpoint tiles (s : datetime) (ws : list (datetime * datetime)) (e : datetime)
    : Prop :=
  match ws with
  | [] => s = e
  | (a, b) :: rest =>
      a = s /\ a < b /\ b - a <= timedelta_days chunk_size
      /\ (rest <> [] -> b - a = timedelta_days chunk_size)
      /\ tiles b rest e
  end.

(** Fetching a list of sub-windows one after the other, each with the
    default three attempts and followed by the one-second pause, and
    collecting the frames in that order. *)
Fixpoint fetch_windows (quicksort : sort_algorithm) (upstream : Upstream)
    (ws : list (datetime * datetime)) (all_data : list DataFrame)
    : M (list DataFrame) :=
  fun w =>
    match ws with
    | [] => (ok all_data, w)
    | (a, b) :: rest =>
        match fetch_generation_data quicksort upstream a b 3 w with
        | (inl e, w') => (inl e, w')
        | (inr chunk_df, w') =>
            fetch_windows quicksort upstream rest (all_data ++ [chunk_df])
                          (w' ++ [Sleep 1])
        end
    end.

(** Insertion sort by key, the algorithm of the stable kinds.  With
    [strict = false] an element goes in front of the elements of equal
    key already placed, which keeps the input order of equal keys; with
    [strict = true] it would go behind them. *)
Fixpoint insert_by {A} (key : A -> Z) (strict : bool) (x : A) (l : list A)
    : list A :=
  match l with
  | [] => [x]
  | y :: t =>
      if (if strict then key x <? key y else key x <=? key y)
      then x :: l
      else y :: insert_by key strict x t
  end.

Definition stable_sort : sort_algorithm :=
  fun A key l => fold_right (insert_by key false) [] l.

(** What pandas promises of [sort_values] for every [kind]: the rows
    are the same rows, in ascending order of the key. *)
Definition sorts (kind : sort_algorithm) : Prop :=
  forall (A : Type) (key : A -> Z) (l : list A),
    Permutation l (kind A key l)
    /\ StronglySorted (fun a b => key a <= key b) (kind A key l).

(** A body of the expected shape: every period has its start time,
    every entry its fuel type and quantity. *)
Definition well_formed_entry (e : Entry) : bool :=
  match psrType e, quantity e with
  | Some _, Some _ => true
  | _, _ => false
  end.

Definition well_formed_period (p : Period) : bool :=
  match startTime p with
  | Some _ => forallb well_formed_entry (get_or_empty (period_data p))
  | None => false
  end.

Definition well_formed (data : Payload) : bool :=
  forallb well_formed_period (get_or_empty (payload_data data)).

(** The entries of a body as records, period after period and, within
    a period, in the order of its entries. *)
Definition entry_records (ts : datetime) (entries : list Entry)
    : list GenerationRecord :=
  flat_map (fun e => match psrType e, quantity e with
                     | Some f, Some q => [mkRecord ts f q]
                     | _, _ => []
                     end) entries.

Definition payload_records (data : Payload) : list GenerationRecord :=
  flat_map (fun p => match startTime p with
                     | Some ts => entry_records ts (get_or_empty (period_data p))
                     | None => []
                     end)
           (get_or_empty (payload_data data)).

(** The records of one timestamp, in the order they have in [l]. *)
Definition at_timestamp (t : Z) (l : list GenerationRecord) : list GenerationRecord :=
  filter (fun r => timestamp r =? t) l.

(** The quantities of one timestamp added up as numbers. *)
Definition exact_total (l : list GenerationRecord) (t : Z) : Z :=
  zsum (map generation_mw (at_timestamp t l)).

(** Quantities that [int64] arithmetic adds up exactly: their absolute
    values together stay below [2^63], so that no sum of some of them,
    in whatever order, leaves the range of the column. *)
Definition int64_safe (l : list GenerationRecord) : Prop :=
  zsum (map (fun r => Z.abs (generation_mw r)) l) < 2 ^ 63.

(** An upstream every call of which fails: [session.get] raises, or the
    status is not 200. *)
Definition always_fails (upstream : Upstream) : Prop :=
  forall n rq, match upstream n rq with
               | Raises _ => True
               | Returns r => status_code r <> 200
               end.

(** The exception raised after the loop. *)
Definition exhausted : exn :=
  Exception "Failed to fetch data after all retry attempts".

(** Decoding and parsing the body of a response, as the [try] block
    does for status 200. *)
Definition decode (quicksort : sort_algorithm) (r : Response) : result DataFrame :=
  data <- response_json r ;;
  _parse_response quicksort data.

(** An upstream where every call that answers 200 with a body the
    parser rejects raises the parser's exception instead. *)
Definition malformed_as_raised (quicksort : sort_algorithm) (upstream : Upstream)
    : Upstream :=
  fun n rq =>
    match upstream n rq with
    | Raises e => Raises e
    | Returns r =>
        if status_code r =? 200 then
          match decode quicksort r with
          | inl e => Raises e
          | inr _ => Returns r
          end
        else Returns r
    end.

(** The request [fetch_generation_data] builds when it is called with
    two datetime objects. *)
Definition request_of (start_date end_date : datetime_object) : Request :=
  build_request (wall_clock start_date) (wall_clock end_date).

(** A datetime object in UTC: naive, or aware with offset zero. *)
Definition in_utc (d : datetime_object) : Prop :=
  utcoffset d = None \/ utcoffset d = Some 0.

(** The datetimes of the years 1000 to 9999, whose year [%Y] prints
    with four digits whatever the platform. *)
Definition four_digit_year (t : datetime) : Prop :=
  of_fields (mkFields 1000 1 1 0 0 0 0) <= t < MAXORDINAL * US_PER_DAY.

(** The instant [t] cut to whole seconds. *)
Definition truncate_to_second (t : datetime) : datetime :=
  t - t mod US_PER_SECOND.

(** The check of [_month_day] on one day of the year: the month and the
    day are in range and count back to the day of the year. *)
Definition month_day_ok (leapyear : bool) (n : Z) : bool :=
  let md := _month_day leapyear n in
  (1 <=? fst md) && (fst md <=? 12) && (1 <=? snd md)
  && (snd md <=? (if (fst md =? 2) && leapyear then 29 else _DAYS_IN_MONTH (fst md)))
  && (0 <=? _DAYS_BEFORE_MONTH (fst md))
  && (_DAYS_BEFORE_MONTH (fst md)
      + (if (fst md >? 2) && leapyear then 1 else 0) + snd md =? n + 1).

(** ** The warnings of the quality filter *)

(** The two warnings [_apply_quality_checks] logs. *)
Inductive warning : Type :=
| FoundBadRecords (bad_records : Z)          (* 'Found n records with quality issues' *)
| FilteringOutPeriods (bad_periods : Z).     (* 'Filtering out n time periods' *)

(** [~series], [series.sum()] of a boolean series, [series.nunique()] *)
Definition invert (mask : list cell) : list cell :=
  map (fun c => match c with CBool b => CBool (negb b) | _ => c end) mask.

Definition count_true (mask : list cell) : Z :=
  Z.of_nat (List.length (filter is_true mask)).

Definition nunique (s : list cell) : Z :=
  Z.of_nat (List.length (dedup (filter notna s))).

(** [ElexonDataFetcher._apply_quality_checks] with what it logs: the
    same steps, and between the merge and the final selection the two
    counts, computed and logged only when some record is bad. *)
Definition _apply_quality_checks_logged (df : DataFrame)
    : result (DataFrame * list warning) :=
  if empty df then ok (df, []) else
  totals <- groupby_sum df "timestamp" "generation_mw" ;;
  let totals := set_columns totals ["timestamp"; "total_generation"] in
  total_generation <- getitem totals "total_generation" ;;
  let totals :=
    setitem totals "quality_flag"
            (map (ge_scalar MIN_TOTAL_GENERATION) total_generation) in
  right <- getitems totals ["timestamp"; "total_generation"; "quality_flag"] ;;
  df <- merge df right "timestamp" ;;
  quality_flag <- getitem df "quality_flag" ;;
  let bad_records := count_true (invert quality_flag) in
  log <- (if bad_records >? 0 then
            all_periods <- getitem df "timestamp" ;;
            quality_flag' <- getitem df "quality_flag" ;;
            good_periods <- getitem (loc df quality_flag') "timestamp" ;;
            ok [FoundBadRecords bad_records;
                FilteringOutPeriods (nunique all_periods - nunique good_periods)]
          else ok []) ;;
  quality_flag <- getitem df "quality_flag" ;;
  df_clean <- drop (loc df quality_flag) "quality_flag" ;;
  ok (df_clean, log).

(** The number of distinct timestamps of a list of records. *)
Definition distinct_timestamps (l : list GenerationRecord) : Z :=
  Z.of_nat (List.length (nodup Z.eq_dec (map timestamp l))).

(** One call that fails: it raises, or its status is not 200. *)
Definition failed (o : outcome) : Prop :=
  match o with
  | Raises _ => True
  | Returns r => status_code r <> 200
  end.

(** The events of one fetch of a window: GETs of one request and
    sleeps. *)
Definition fetch_event (rq : Request) (e : event) : Prop :=
  e = Get rq \/ exists s, e = Sleep s.

(** The columns of a frame that went through the quality filter. *)
Definition output_columns : list string :=
  ["timestamp"; "fuel_type"; "generation_mw"; "total_generation"].

(** The frames a fetch returns: the frame without columns, which a body
    without entries gives, or rows over the four output columns. *)
Definition fetched_frame (df : DataFrame) : Prop :=
  df = mkDF [] []
  \/ (columns df = output_columns
      /\ Forall (fun r => List.length r = 4%nat) (rows df)).

(** The range the datetimes of [fetch_historical_data] must stay in.
    [end_date - timedelta(days=days)] before the loop and, once the loop
    runs, [current_start + timedelta(days=7)] for a start before the end
    are datetimes only when they lie between [datetime.min] and
    [datetime.max]: beyond, Python raises [OverflowError], which the
    datetimes of this model, plain counts of microseconds, do not show.
    The properties of the historical fetch are stated for calls within
    that range. *)
Definition historical_range (utcnow : datetime) (days : Z) : Prop :=
  valid_datetime utcnow
  /\ valid_datetime (utcnow - timedelta_days days)
  /\ (0 < days -> valid_datetime (utcnow + timedelta_days chunk_size)).

(** The keys the parser subscripts. *)
Definition parser_keys : list string := ["startTime"; "psrType"; "quantity"].

(** Sample inputs: midnight of 1 January 2024, and a body with one
    period of one entry above the threshold. *)
Definition new_year_2024 : datetime := of_fields (mkFields 2024 1 1 0 0 0 0).

Definition sample_payload : Payload :=
  mkPayload (Some [mkPeriod (Some new_year_2024)
                     (Some [mkEntry (Some "Nuclear") (Some 30000)])]).

(** A body of one period with eighteen entries. *)
Definition tied_payload : Payload :=
  mkPayload
    (Some [mkPeriod (Some new_year_2024)
             (Some (map (fun p => mkEntry (Some (fst p)) (Some (snd p)))
                        [("Biomass", 2100); ("Fossil Gas", 9800);
                         ("Fossil Hard coal", 600); ("Fossil Oil", 0);
                         ("Hydro Pumped Storage", 300);
                         ("Hydro Run-of-river and poundage", 450);
                         ("Nuclear", 4700); ("Other", 150); ("Solar", 0);
                         ("Wind Offshore", 6900); ("Wind Onshore", 5200);
                         ("Geothermal", 0); ("Marine", 0); ("Waste", 250);
                         ("Fossil Peat", 0); ("Fossil Oil shale", 0);
                         ("Other renewable", 120);
                         ("Hydro Water Reservoir", 80)]))]).

(** A body of two half-hour periods, the later one first: the later one
    adds up to 8000 MW, the earlier one to 30100 MW. *)
Definition half_past_midnight : datetime := new_year_2024 + 1800 * US_PER_SECOND.

Definition two_period_payload : Payload :=
  mkPayload
    (Some [mkPeriod (Some half_past_midnight)
             (Some [mkEntry (Some "Nuclear") (Some 5000);
                    mkEntry (Some "Wind Onshore") (Some 3000)]);
           mkPeriod (Some new_year_2024)
             (Some [mkEntry (Some "Nuclear") (Some 20000);
                    mkEntry (Some "Fossil Gas") (Some 10000);
                    mkEntry (Some "Solar") (Some 100)])]).

(** * Properties *)

(** ** Lists and frames *)

Section ListFacts.

Context {A B C : Type}.

Lemma map_combine_map (F : A -> B -> C) (g : A -> B) (l : list A) :
  map (fun p => F (fst p) (snd p)) (combine l (map g l))
  = map (fun x => F x (g x)) l.
Proof.
  induction l as [| x l IH]; simpl; [reflexivity | now rewrite IH].
Qed.

Lemma filter_combine_map (P : B -> bool) (g : A -> B) (l : list A) :
  map fst (filter (fun p => P (snd p)) (combine l (map g l)))
  = filter (fun x => P (g x)) l.
Proof.
  induction l as [| x l IH]; simpl; [reflexivity |].
  destruct (P (g x)); simpl; now rewrite IH.
Qed.

Lemma flat_map_singleton (f : A -> list B) (g : A -> B) (l : list A) :
  (forall x, In x l -> f x = [g x]) -> flat_map f l = map g l.
Proof.
  induction l as [| x l IH]; simpl; intros H; [reflexivity |].
  rewrite (H x (or_introl eq_refl)), IH; [reflexivity |].
  intros y Hy. apply H. now right.
Qed.

Lemma flat_map_of_map (f : A -> B) (g : B -> list C) (l : list A) :
  flat_map g (map f l) = flat_map (fun x => g (f x)) l.
Proof.
  induction l as [| x l IH]; simpl; [reflexivity | now rewrite IH].
Qed.

Lemma filter_map_comm (f : A -> B) (P : B -> bool) (l : list A) :
  filter P (map f l) = map f (filter (fun x => P (f x)) l).
Proof.
  induction l as [| x l IH]; simpl; [reflexivity |].
  destruct (P (f x)); simpl; now rewrite IH.
Qed.

Lemma filter_none (P : A -> bool) (l : list A) :
  (forall x, In x l -> P x = false) -> filter P l = [].
Proof.
  induction l as [| x l IH]; simpl; intros H; [reflexivity |].
  rewrite (H x (or_introl eq_refl)). apply IH. intros y Hy. apply H. now right.
Qed.

Lemma nth_past_prefix (l : list A) (x y d : A) :
  nth (S (List.length l)) (l ++ [x; y]) d = y.
Proof.
  induction l as [| h l IH]; simpl; [reflexivity | exact IH].
Qed.

Lemma remove_at_past_prefix (l : list A) (x y : A) :
  remove_at (S (List.length l)) (l ++ [x; y]) = l ++ [x].
Proof.
  unfold remove_at.
  induction l as [| h l IH]; simpl; [reflexivity |].
  simpl in IH. now rewrite IH.
Qed.

End ListFacts.

Lemma cell_eqb_eq (a b : cell) : cell_eqb a b = true <-> a = b.
Proof.
  destruct a, b; simpl; split; intros H; try discriminate; try reflexivity.
  - apply Z.eqb_eq in H. now subst.
  - injection H as ->. apply Z.eqb_refl.
  - apply String.eqb_eq in H. now subst.
  - injection H as ->. apply String.eqb_refl.
  - apply Z.eqb_eq in H. now subst.
  - injection H as ->. apply Z.eqb_refl.
  - apply Bool.eqb_prop in H. now subst.
  - injection H as ->. apply Bool.eqb_reflx.
Qed.

Lemma cell_eqb_refl (a : cell) : cell_eqb a a = true.
Proof. now apply cell_eqb_eq. Qed.

Lemma insert_key_perm (k : cell) (l : list cell) :
  Permutation (k :: l) (insert_key k l).
Proof.
  induction l as [| h l IH]; simpl; [apply Permutation_refl |].
  destruct (cell_leb k h); [apply Permutation_refl |].
  eapply Permutation_trans; [apply perm_swap |].
  now apply perm_skip.
Qed.

Lemma sort_keys_perm (l : list cell) : Permutation l (sort_keys l).
Proof.
  induction l as [| h l IH]; simpl; [apply perm_nil |].
  eapply Permutation_trans; [apply perm_skip, IH | apply insert_key_perm].
Qed.

Lemma dedup_In (k : cell) (l : list cell) : In k (dedup l) <-> In k l.
Proof.
  induction l as [| h l IH]; simpl; [tauto |].
  rewrite filter_In, IH. split.
  - intros [H | [H _]]; auto.
  - intros [H | H]; auto.
    destruct (cell_eqb h k) eqn:E.
    + left. now apply cell_eqb_eq.
    + right. now split.
Qed.

Lemma dedup_NoDup (l : list cell) : NoDup (dedup l).
Proof.
  induction l as [| h l IH]; simpl; constructor.
  - rewrite filter_In. intros [_ H]. now rewrite cell_eqb_refl in H.
  - now apply NoDup_filter.
Qed.

Lemma group_keys_NoDup (l : list cell) : NoDup (group_keys l).
Proof.
  unfold group_keys.
  eapply Permutation_NoDup; [apply sort_keys_perm | apply dedup_NoDup].
Qed.

Lemma group_keys_In (k : cell) (l : list cell) :
  In k (group_keys l) <-> In k l /\ notna k = true.
Proof.
  unfold group_keys. rewrite <- filter_In, <- (dedup_In k (filter notna l)).
  split.
  - apply Permutation_in. apply Permutation_sym, sort_keys_perm.
  - apply Permutation_in, sort_keys_perm.
Qed.

Lemma filter_key_unique (k : cell) (l : list cell) :
  NoDup l -> In k l -> filter (fun x => cell_eqb k x) l = [k].
Proof.
  induction 1 as [| h l Hnot Hnd IH]; simpl; [tauto |].
  intros [-> | Hin].
  - rewrite cell_eqb_refl. f_equal.
    apply filter_none. intros x Hx.
    destruct (cell_eqb k x) eqn:E; [| reflexivity].
    apply cell_eqb_eq in E. now subst.
  - destruct (cell_eqb k h) eqn:E.
    + apply cell_eqb_eq in E. now subst.
    + now apply IH.
Qed.

(** ** Sums of an int64 column *)

Lemma wrap_int64_small (z : Z) : - 2 ^ 63 <= z < 2 ^ 63 -> wrap_int64 z = z.
Proof.
  unfold wrap_int64.
  change (2 ^ 63) with 9223372036854775808.
  change (2 ^ 64) with 18446744073709551616.
  intros Hz. Z.to_euclidean_division_equations. lia.
Qed.

Lemma wrap_int64_add_l (a b : Z) :
  wrap_int64 (wrap_int64 a + b) = wrap_int64 (a + b).
Proof.
  unfold wrap_int64.
  change (2 ^ 63) with 9223372036854775808.
  change (2 ^ 64) with 18446744073709551616.
  Z.to_euclidean_division_equations. lia.
Qed.

Lemma int64_sum_from (l : list Z) (acc : Z) :
  fold_left (fun acc x => wrap_int64 (acc + x)) l (wrap_int64 acc)
  = wrap_int64 (acc + zsum l).
Proof.
  revert acc. induction l as [| x l IH]; intros acc; simpl.
  - now rewrite Z.add_0_r.
  - rewrite wrap_int64_add_l, IH. now rewrite Z.add_assoc.
Qed.

Lemma int64_sum_wrap (l : list Z) : int64_sum l = wrap_int64 (zsum l).
Proof.
  unfold int64_sum. change 0 with (wrap_int64 0) at 1.
  now rewrite int64_sum_from.
Qed.

Lemma zsum_abs_le (l : list Z) : Z.abs (zsum l) <= zsum (map Z.abs l).
Proof.
  induction l as [| x l IH]; simpl; [reflexivity |].
  pose proof (Z.abs_triangle x (zsum l)). lia.
Qed.

Lemma zsum_abs_filter (P : GenerationRecord -> bool)
    (l : list GenerationRecord) :
  0 <= zsum (map (fun r => Z.abs (generation_mw r)) (filter P l))
       <= zsum (map (fun r => Z.abs (generation_mw r)) l).
Proof.
  induction l as [| r l IH]; simpl; [lia |].
  pose proof (Z.abs_nonneg (generation_mw r)).
  destruct (P r); simpl; lia.
Qed.

(** ** The quality filter *)

Arguments cell_at _ _ /.

(** The filter on a frame whose rows come from records: [rw] gives the
    row of a record, with the timestamp in column 0 and the quantity in
    column 2, as the parser lays them out. *)
Section QualityShape.

Variable cols : list string.
Variable rw : GenerationRecord -> row.
Hypothesis cols_ts : col_pos "timestamp" cols = Some 0%nat.
Hypothesis cols_mw : col_pos "generation_mw" cols = Some 2%nat.
Hypothesis rw_ts : forall r, nth 0 (rw r) CNaN = CTime (timestamp r).
Hypothesis rw_mw : forall r, nth 2 (rw r) CNaN = CNum (generation_mw r).
Hypothesis rw_len : forall r, List.length (rw r) = List.length cols.

Let merged : list string :=
  merge_columns cols ["timestamp"; "total_generation"; "quality_flag"] "timestamp" 0.

Hypothesis flag_pos : col_pos "quality_flag" merged = Some (S (List.length cols)).

Lemma group_sum_records (recs : list GenerationRecord) (t : Z) :
  group_sum 0 2 (CTime t) (map rw recs) = group_total recs t.
Proof.
  unfold group_sum, group_total. f_equal.
  induction recs as [| r recs IH]; simpl in *; [reflexivity |].
  rewrite rw_ts. simpl.
  destruct (timestamp r =? t); simpl; [rewrite rw_mw; simpl |]; now rewrite IH.
Qed.

Lemma quality_checks_shape (recs : list GenerationRecord) :
  recs <> [] ->
  _apply_quality_checks (mkDF cols (map rw recs))
  = ok (mkDF (remove_at (S (List.length cols)) merged)
             (map (fun r => rw r ++ [CNum (group_total recs (timestamp r))])
                  (filter (is_valid recs) recs))).
Proof.
  intros Hne.
  unfold _apply_quality_checks.
  assert (Hemp : empty (mkDF cols (map rw recs)) = false).
  { unfold empty; simpl. destruct cols; [discriminate |].
    destruct recs; [contradiction | reflexivity]. }
  rewrite Hemp.
  unfold groupby_sum; simpl columns; rewrite cols_ts, cols_mw.
  simpl.
  set (keys := group_keys (map (cell_at 0) (map rw recs))).
  rewrite (map_map (cell_at 1)).
  rewrite (map_combine_map (fun a b => a ++ [b])).
  rewrite !map_map. simpl.
  unfold merge; simpl columns; rewrite cols_ts; simpl.
  fold merged.
  rewrite flat_map_of_map.
  rewrite (flat_map_singleton _
    (fun r => rw r ++ [CNum (group_total recs (timestamp r));
                       CBool (is_valid recs r)])).
  2:{ intros r Hr.
      rewrite filter_map_comm. simpl. rewrite (rw_ts r).
      rewrite filter_key_unique.
      - simpl. unfold remove_at. simpl. rewrite group_sum_records. reflexivity.
      - apply group_keys_NoDup.
      - apply group_keys_In. split; [| reflexivity].
        rewrite map_map. apply in_map_iff. exists r.
        split; [apply rw_ts | exact Hr]. }
  unfold getitem; simpl columns; rewrite flag_pos. simpl.
  unfold loc; simpl columns; simpl rows.
  rewrite (filter_combine_map is_true), filter_map_comm.
  unfold drop; simpl columns; rewrite flag_pos; simpl rows.
  rewrite map_map. f_equal. f_equal.
  rewrite (filter_ext _ (is_valid recs)).
  2:{ intros r. rewrite <- (rw_len r), nth_past_prefix.
      simpl. now destruct (is_valid recs r). }
  apply map_ext. intros r.
  rewrite <- (rw_len r). apply remove_at_past_prefix.
Qed.
End QualityShape.

Lemma quality_checks_records (recs : list GenerationRecord) :
  recs <> [] ->
  _apply_quality_checks (DataFrame_of_records recs)
  = ok (mkDF (record_columns ++ ["total_generation"])
             (map (fun r => row_of_record r
                            ++ [CNum (group_total recs (timestamp r))])
                  (filter (is_valid recs) recs))).
Proof.
  intros Hne.
  destruct recs as [| r0 recs0]; [contradiction |].
  change (DataFrame_of_records (r0 :: recs0))
    with (mkDF record_columns (map row_of_record (r0 :: recs0))).
  apply (quality_checks_shape record_columns row_of_record); auto.
Qed.

Lemma quality_checks_again (x : GenerationRecord -> Z)
    (recs : list GenerationRecord) :
  recs <> [] ->
  _apply_quality_checks
    (mkDF (record_columns ++ ["total_generation"])
          (map (fun r => row_of_record r ++ [CNum (x r)]) recs))
  = ok (mkDF (record_columns ++ ["total_generation_x"; "total_generation_y"])
             (map (fun r => (row_of_record r ++ [CNum (x r)])
                            ++ [CNum (group_total recs (timestamp r))])
                  (filter (is_valid recs) recs))).
Proof.
  intros Hne.
  apply (quality_checks_shape (record_columns ++ ["total_generation"])
           (fun r => row_of_record r ++ [CNum (x r)])); auto.
Qed.

Lemma records_of_rows (cols : list string) (rw : GenerationRecord -> row)
    (recs : list GenerationRecord) :
  (forall r, record_of_row cols (rw r) = Some r) ->
  records_of (mkDF cols (map rw recs)) = Some recs.
Proof.
  intros H. unfold records_of. simpl columns. simpl rows.
  induction recs as [| r recs IH]; simpl; [reflexivity |].
  rewrite H. simpl in IH. rewrite IH. reflexivity.
Qed.

Lemma exact_total_filter (P : Z -> bool) (recs : list GenerationRecord) (t : Z) :
  exact_total (filter (fun r => P (timestamp r)) recs) t
  = if P t then exact_total recs t else 0.
Proof.
  unfold exact_total, at_timestamp.
  induction recs as [| r recs IH]; simpl; [now destruct (P t) |].
  destruct (P (timestamp r)) eqn:EP, (timestamp r =? t) eqn:Et; simpl;
    rewrite ?Et; simpl; rewrite IH;
    try (apply Z.eqb_eq in Et; subst t; rewrite EP); reflexivity.
Qed.

(** An [int64] sum is the sum of the numbers, wrapped once. *)
Lemma group_total_exact (recs : list GenerationRecord) (t : Z) :
  group_total recs t = wrap_int64 (exact_total recs t).
Proof. apply int64_sum_wrap. Qed.

Lemma group_total_filter (P : Z -> bool) (recs : list GenerationRecord) (t : Z) :
  group_total (filter (fun r => P (timestamp r)) recs) t
  = if P t then group_total recs t else 0.
Proof.
  rewrite !group_total_exact, exact_total_filter. now destruct (P t).
Qed.

(** Within the bound the filter's totals are the sums of the numbers. *)
Lemma group_total_safe (recs : list GenerationRecord) (t : Z) :
  int64_safe recs -> group_total recs t = exact_total recs t.
Proof.
  intros Hsafe. rewrite group_total_exact. apply wrap_int64_small.
  unfold int64_safe in Hsafe. unfold exact_total, at_timestamp.
  pose proof (zsum_abs_le (map generation_mw
                             (filter (fun r => timestamp r =? t) recs))) as H1.
  rewrite map_map in H1.
  pose proof (zsum_abs_filter (fun r => timestamp r =? t) recs) as H2.
  lia.
Qed.

Lemma is_valid_safe (recs : list GenerationRecord) (r : GenerationRecord) :
  int64_safe recs -> is_valid recs r = (25000 <=? exact_total recs (timestamp r)).
Proof.
  intros Hsafe. unfold is_valid, MIN_TOTAL_GENERATION.
  now rewrite group_total_safe.
Qed.

Lemma kept_groups_valid (recs : list GenerationRecord) (r : GenerationRecord) :
  In r (filter (is_valid recs) recs) ->
  group_total (filter (is_valid recs) recs) (timestamp r)
  = group_total recs (timestamp r)
  /\ MIN_TOTAL_GENERATION <= group_total recs (timestamp r).
Proof.
  intros Hin. apply filter_In in Hin as [_ Hv].
  unfold is_valid in *.
  rewrite (group_total_filter
             (fun t => MIN_TOTAL_GENERATION <=? group_total recs t)).
  rewrite Hv. split; [reflexivity | now apply Z.leb_le].
Qed.

Lemma kept_groups_exact (recs : list GenerationRecord) (r : GenerationRecord) :
  int64_safe recs ->
  In r (filter (is_valid recs) recs) ->
  exact_total (filter (is_valid recs) recs) (timestamp r)
  = exact_total recs (timestamp r)
  /\ 25000 <= exact_total recs (timestamp r).
Proof.
  intros Hsafe Hin. apply filter_In in Hin as [_ Hv].
  unfold is_valid in *.
  rewrite (exact_total_filter
             (fun t => MIN_TOTAL_GENERATION <=? group_total recs t)).
  rewrite Hv. split; [reflexivity |].
  rewrite group_total_safe in Hv by exact Hsafe. now apply Z.leb_le.
Qed.

Lemma quality_filter_records (recs : list GenerationRecord) :
  exists out : DataFrame,
    _apply_quality_checks (DataFrame_of_records recs) = ok out
    /\ records_of out = Some (filter (is_valid recs) recs).
Proof.
  destruct recs as [| r0 recs0] eqn:E.
  - exists (mkDF [] []). split; reflexivity.
  - rewrite <- E. eexists. split.
    + apply quality_checks_records. now rewrite E.
    + apply records_of_rows. now intros [t f g].
Qed.

(** Outside the bound of [int64_safe] the arithmetic of the column
    decides.  Two quantities of [2^62] MW at one timestamp add up to
    [2^63], which an [int64] holds as [-2^63]: the filter drops both
    records. *)
Lemma int64_total_wraps :
  let recs := [mkRecord 0 "Nuclear" (2 ^ 62);
               mkRecord 0 "Wind Onshore" (2 ^ 62)] in
  exact_total recs 0 = 2 ^ 63
  /\ group_total recs 0 = - 2 ^ 63
  /\ _apply_quality_checks (DataFrame_of_records recs)
     = ok (mkDF ["timestamp"; "fuel_type"; "generation_mw"; "total_generation"]
                []).
Proof. vm_compute. repeat split. Qed.

(** C1. For every sequence of records whose quantities [int64]
    arithmetic adds up exactly, the quality filter succeeds and its
    output holds exactly the input records whose timestamp group sums
    to at least [MIN_TOTAL_GENERATION], in the order of the input; so
    every timestamp group of the output sums to at least that
    threshold. *)
Theorem quality_filter_keeps_valid_groups (recs : list GenerationRecord) :
  int64_safe recs ->
  exists (out : DataFrame) (kept : list GenerationRecord),
    _apply_quality_checks (DataFrame_of_records recs) = ok out
    /\ records_of out = Some kept
    /\ kept = filter (fun r => 25000 <=? exact_total recs (timestamp r)) recs
    /\ (forall r, In r kept -> 25000 <= exact_total kept (timestamp r)).
Proof.
  intros Hsafe.
  destruct (quality_filter_records recs) as [out [Hout Hrec]].
  assert (Hkept : filter (is_valid recs) recs
                  = filter (fun r => 25000 <=? exact_total recs (timestamp r))
                           recs)
    by (apply filter_ext; intros r; now apply is_valid_safe).
  exists out, (filter (is_valid recs) recs).
  split; [exact Hout |]. split; [exact Hrec |]. split; [exact Hkept |].
  intros r Hin.
  destruct (kept_groups_exact recs r Hsafe Hin) as [-> H]. exact H.
Qed.

Lemma quality_filter_keeps_valid_groups_witness :
  exists out : DataFrame,
    _apply_quality_checks
      (DataFrame_of_records
         [mkRecord 10 "Nuclear" 20000; mkRecord 20 "Solar" 4000;
          mkRecord 10 "Wind Onshore" 10000; mkRecord 20 "Fossil Gas" 6000])
    = ok out
    /\ records_of out
       = Some [mkRecord 10 "Nuclear" 20000; mkRecord 10 "Wind Onshore" 10000].
Proof.
  destruct (quality_filter_keeps_valid_groups
              [mkRecord 10 "Nuclear" 20000; mkRecord 20 "Solar" 4000;
               mkRecord 10 "Wind Onshore" 10000; mkRecord 20 "Fossil Gas" 6000])
    as [out [kept [Hout [Hrec [Hkept _]]]]].
  - vm_compute. reflexivity.
  - exists out. split; [exact Hout |]. rewrite Hrec, Hkept. reflexivity.
Defined.

(** C9. On an input whose quantities [int64] arithmetic adds up exactly
    and with at least one timestamp group that passes the threshold,
    each row of the output has the three record fields and a fourth
    one, [total_generation], holding the sum of its timestamp group;
    the output frame has not the columns of the input frame. *)
Theorem quality_filter_adds_total_generation (recs : list GenerationRecord) :
  int64_safe recs ->
  (exists r, In r recs /\ 25000 <= exact_total recs (timestamp r)) ->
  exists out : DataFrame,
    _apply_quality_checks (DataFrame_of_records recs) = ok out
    /\ columns out
       = ["timestamp"; "fuel_type"; "generation_mw"; "total_generation"]
    /\ rows out
       = map (fun r => [CTime (timestamp r); CStr (fuel_type r);
                        CNum (generation_mw r);
                        CNum (exact_total recs (timestamp r))])
             (filter (fun r => 25000 <=? exact_total recs (timestamp r)) recs)
    /\ rows out <> []
    /\ columns out <> columns (DataFrame_of_records recs).
Proof.
  intros Hsafe [r [Hin Hv]].
  assert (Hne : recs <> []) by (intros ->; contradiction).
  assert (Hkept : filter (is_valid recs) recs
                  = filter (fun r => 25000 <=? exact_total recs (timestamp r))
                           recs)
    by (apply filter_ext; intros x; now apply is_valid_safe).
  eexists. split; [apply quality_checks_records, Hne |].
  split; [reflexivity |]. split; [| split].
  - simpl rows. rewrite Hkept. apply map_ext. intros x.
    now rewrite group_total_safe.
  - simpl rows. intros Hnil. apply map_eq_nil in Hnil.
    assert (Hk : In r (filter (is_valid recs) recs)).
    { rewrite Hkept. apply filter_In. split; [exact Hin |]. now apply Z.leb_le. }
    rewrite Hnil in Hk. contradiction.
  - destruct recs; [contradiction | discriminate].
Qed.

Lemma quality_filter_adds_total_generation_witness :
  exists out : DataFrame,
    _apply_quality_checks
      (DataFrame_of_records
         [mkRecord 10 "Nuclear" 20000; mkRecord 20 "Solar" 4000;
          mkRecord 10 "Wind Onshore" 10000; mkRecord 20 "Fossil Gas" 6000])
    = ok out
    /\ rows out
       = [[CTime 10; CStr "Nuclear"; CNum 20000; CNum 30000];
          [CTime 10; CStr "Wind Onshore"; CNum 10000; CNum 30000]].
Proof.
  destruct (quality_filter_adds_total_generation
              [mkRecord 10 "Nuclear" 20000; mkRecord 20 "Solar" 4000;
               mkRecord 10 "Wind Onshore" 10000; mkRecord 20 "Fossil Gas" 6000])
    as [out [Hout [_ [Hrows _]]]].
  - vm_compute. reflexivity.
  - exists (mkRecord 10 "Nuclear" 20000). split; [now left | vm_compute; discriminate].
  - exists out. split; [exact Hout | exact Hrows].
Defined.

(** C2, as stated, fails: on one record of 30000 MW the second run of
    the filter returns a frame with five columns, where the first run
    returned one with four. *)
Lemma quality_filter_rerun_differs :
  let X := DataFrame_of_records [mkRecord 0 "Nuclear" 30000] in
  (out <- _apply_quality_checks X ;; _apply_quality_checks out)
  <> _apply_quality_checks X.
Proof. vm_compute. discriminate. Qed.

(** C2, amended. Running the filter on its own output succeeds and
    keeps the same records (timestamp, fuel type, quantity) in the same
    order; an output without rows is returned as it is, and otherwise
    the second run carries the group total twice, under the labels
    [total_generation_x] and [total_generation_y]. *)
Theorem quality_filter_rerun_keeps_records (recs : list GenerationRecord) :
  exists out out2 : DataFrame,
    _apply_quality_checks (DataFrame_of_records recs) = ok out
    /\ _apply_quality_checks out = ok out2
    /\ records_of out2 = records_of out
    /\ records_of out = Some (filter (is_valid recs) recs)
    /\ (rows out = [] -> out2 = out)
    /\ (rows out <> [] ->
        columns out2 = ["timestamp"; "fuel_type"; "generation_mw";
                        "total_generation_x"; "total_generation_y"]).
Proof.
  destruct recs as [| r0 recs0] eqn:E.
  { exists (mkDF [] []), (mkDF [] []). repeat split; try reflexivity.
    intros H; now elim H. }
  rewrite <- E. assert (Hne : recs <> []) by now rewrite E.
  clear E r0 recs0.
  set (kept := filter (is_valid recs) recs).
  set (out := mkDF (record_columns ++ ["total_generation"])
                (map (fun r => row_of_record r
                               ++ [CNum (group_total recs (timestamp r))])
                     kept)).
  assert (Hout : records_of out = Some kept)
    by (apply records_of_rows; now intros [t f g]).
  assert (Hq : _apply_quality_checks (DataFrame_of_records recs) = ok out)
    by now apply quality_checks_records.
  assert (Hcase : kept = [] \/ kept <> [])
    by (destruct kept; [left | right]; congruence).
  destruct Hcase as [Hnil | Hk].
  - exists out, out. repeat split; auto.
    + unfold out. rewrite Hnil. reflexivity.
    + intros H. elim H. unfold out. now rewrite Hnil.
  - 
    assert (Hall : filter (is_valid kept) kept = kept).
    { apply forallb_filter_id. apply forallb_forall. intros r Hr.
      destruct (kept_groups_valid recs r Hr) as [Heq Hle].
      unfold is_valid. fold kept in Heq. rewrite Heq. now apply Z.leb_le. }
    exists out,
      (mkDF (record_columns ++ ["total_generation_x"; "total_generation_y"])
            (map (fun r => (row_of_record r
                            ++ [CNum (group_total recs (timestamp r))])
                           ++ [CNum (group_total kept (timestamp r))])
                 kept)).
    split; [exact Hq |].
    split; [| split; [| split; [| split]]].
    + unfold out. rewrite quality_checks_again by exact Hk.
      now rewrite Hall.
    + rewrite Hout. apply records_of_rows. now intros [t f g].
    + exact Hout.
    + unfold out; simpl rows. intros H. apply map_eq_nil in H. contradiction.
    + reflexivity.
Qed.

(** ** The order of the join *)

Section JoinOrder.

Context {B : Type}.
Variable i : nat.
Variable g : row -> list B.

Let key (r : row) : cell := cell_at i r.

Lemma dedup_head_filter (k : cell) (l : list cell) :
  filter (fun c => negb (cell_eqb k c)) (dedup (k :: l))
  = filter (fun c => negb (cell_eqb k c)) (dedup l).
Proof.
  cbn [dedup filter]. rewrite cell_eqb_refl. cbn [negb].
  induction (dedup l) as [| c d IH]; cbn [filter]; [reflexivity |].
  destruct (cell_eqb k c) eqn:E; cbn [negb filter]; rewrite ?E; cbn [negb];
    now rewrite IH.
Qed.

Lemma filter_other_key (k : cell) (h : row) (t : list row) :
  cell_eqb (key h) k = false ->
  filter (fun l => cell_eqb k (key l)) (h :: t)
  = filter (fun l => cell_eqb k (key l)) t.
Proof.
  intros H. cbn [filter].
  destruct (cell_eqb k (key h)) eqn:E; [| reflexivity].
  apply cell_eqb_eq in E. subst k. now rewrite cell_eqb_refl in H.
Qed.

Lemma grouped_flat_map_ext (h : row) (t : list row) (ks : list cell) :
  flat_map (fun k => flat_map g (filter (fun l => cell_eqb k (key l)) (h :: t)))
           (filter (fun c => negb (cell_eqb (key h) c)) ks)
  = flat_map (fun k => flat_map g (filter (fun l => cell_eqb k (key l)) t))
             (filter (fun c => negb (cell_eqb (key h) c)) ks).
Proof.
  set (F1 := fun k => flat_map g (filter (fun l => cell_eqb k (key l)) (h :: t))).
  set (F2 := fun k => flat_map g (filter (fun l => cell_eqb k (key l)) t)).
  induction ks as [| k ks IH]; cbn [filter flat_map]; [reflexivity |].
  destruct (cell_eqb (key h) k) eqn:E; cbn [negb flat_map]; [exact IH |].
  rewrite IH. f_equal. unfold F1, F2. f_equal. now apply filter_other_key.
Qed.

Lemma grouped_order_of_sorted (l : list row) :
  time_sorted i l ->
  flat_map (fun k => flat_map g (filter (fun r => cell_eqb k (key r)) l))
           (dedup (map key l))
  = flat_map g l.
Proof.
  intros [Hs Ht].
  change (StronglySorted (fun a b => sort_key (key a) <= sort_key (key b)) l)
    in Hs.
  change (Forall (fun r => exists t, key r = CTime t) l) in Ht.
  induction l as [| h t IH]; [reflexivity |].
  inversion Hs as [| ? ? Hs' Hall]; subst.
  inversion Ht as [| ? ? [th Hh] Ht']; subst.
  specialize (IH Hs' Ht').
  set (F := fun k => flat_map g (filter (fun r => cell_eqb k (key r)) (h :: t))).
  change (dedup (map key (h :: t)))
    with (key h :: filter (fun c => negb (cell_eqb (key h) c))
                          (dedup (map key t))).
  change (flat_map F (key h :: filter (fun c => negb (cell_eqb (key h) c))
                                     (dedup (map key t))))
    with (F (key h) ++ flat_map F (filter (fun c => negb (cell_eqb (key h) c))
                                         (dedup (map key t)))).
  change (F (key h))
    with (flat_map g (if cell_eqb (key h) (key h)
                      then h :: filter (fun r => cell_eqb (key h) (key r)) t
                      else filter (fun r => cell_eqb (key h) (key r)) t)).
  rewrite cell_eqb_refl.
  change (flat_map g (h :: t)) with (g h ++ flat_map g t).
  change (flat_map g (h :: filter (fun r => cell_eqb (key h) (key r)) t))
    with (g h ++ flat_map g (filter (fun r => cell_eqb (key h) (key r)) t)).
  rewrite <- app_assoc. f_equal.
  unfold F. rewrite grouped_flat_map_ext. clear F.
  destruct t as [| h' t']; [reflexivity |].
  destruct (cell_eqb (key h) (key h')) eqn:E.
  - (* the next row has the same key: it leads the keys of the rest *)
    apply cell_eqb_eq in E.
    rewrite <- IH. cbn [map]. rewrite <- E, dedup_head_filter.
    reflexivity.
  - (* the key of [h] does not come back *)
    assert (Hnone : filter (fun r => cell_eqb (key h) (key r)) (h' :: t') = []).
    { apply filter_none. intros r Hr.
      destruct (cell_eqb (key h) (key r)) eqn:Er; [| reflexivity].
      exfalso. apply cell_eqb_eq in Er.
      inversion Hs' as [| ? ? _ Hall']; subst.
      rewrite Forall_forall in Hall, Hall'.
      pose proof (Hall h' (or_introl eq_refl)) as H1.
      inversion Ht' as [| ? ? [th' Hh'] _]; subst.
      destruct Hr as [-> | Hr].
      - now rewrite Er, cell_eqb_refl in E.
      - pose proof (Hall' r Hr) as H2. rewrite <- Er in H2.
        rewrite Hh, Hh' in *. simpl in *.
        assert (th = th') by lia. subst. now rewrite Z.eqb_refl in E. }
    rewrite Hnone. change (flat_map g []) with (@nil B). rewrite app_nil_l.
    rewrite <- IH. f_equal.
    apply forallb_filter_id, forallb_forall. intros c Hc. apply negb_true_iff.
    destruct (cell_eqb (key h) c) eqn:Ec; [| reflexivity].
    apply cell_eqb_eq in Ec. subst c.
    apply dedup_In, in_map_iff in Hc as [r [Hkr Hr]].
    assert (Hin : In r (filter (fun r => cell_eqb (key h) (key r)) (h' :: t'))).
    { apply filter_In. split; [exact Hr |]. rewrite Hkr. apply cell_eqb_refl. }
    rewrite Hnone in Hin. contradiction.
Qed.

End JoinOrder.

Lemma merge_order_agrees (left right : DataFrame) (key : string) (i : nat) :
  col_pos key (columns left) = Some i ->
  time_sorted i (rows left) ->
  merge_grouped left right key = merge left right key.
Proof.
  intros Hi Hs. unfold merge_grouped, merge. rewrite Hi.
  destruct (col_pos key (columns right)) as [j |]; [| reflexivity].
  f_equal. f_equal. now apply grouped_order_of_sorted.
Qed.

(** The frame the parser hands to the filter is in ascending order of
    its timestamps, so the filter's join keeps the order of its rows
    under either order of the join. *)
Lemma parsed_rows_time_sorted (quicksort : sort_algorithm)
    (recs : list GenerationRecord) :
  sorts quicksort ->
  time_sorted 0
    (quicksort row (fun r => sort_key (cell_at 0 r)) (map row_of_record recs)).
Proof.
  intros Hsorts.
  destruct (Hsorts row (fun r => sort_key (cell_at 0 r)) (map row_of_record recs))
    as [Hp Hs].
  split; [exact Hs |].
  eapply Permutation_Forall; [exact Hp |].
  apply Forall_forall. intros r Hr. apply in_map_iff in Hr as [x [<- _]].
  now exists (timestamp x).
Qed.

(** ** The retry loop *)

Section Retry.

Variable quicksort : sort_algorithm.
Variable upstream : Upstream.

Lemma requests_made_get (w : World) (rq : Request) :
  requests_made (w ++ [Get rq]) = S (requests_made w).
Proof.
  unfold requests_made. rewrite filter_app, length_app. simpl. lia.
Qed.

Lemma requests_made_sleep (w : World) (s : Z) :
  requests_made (w ++ [Sleep s]) = requests_made w.
Proof.
  unfold requests_made. rewrite filter_app, length_app. simpl. lia.
Qed.

Ltac count_requests :=
  repeat (rewrite requests_made_sleep || rewrite requests_made_get).

(** One attempt against a failing call: an exception when the call
    raised, a fall-through when it answered with another status. *)
Lemma attempt_body_raises (rq : Request) (w : World) (e : exn) :
  upstream (requests_made w) rq = Raises e ->
  attempt_body quicksort upstream rq w = (inl e, w ++ [Get rq]).
Proof.
  intros H. unfold attempt_body, mbind, _make_request. now rewrite H.
Qed.

Lemma attempt_body_status (rq : Request) (w : World) (r : Response) :
  upstream (requests_made w) rq = Returns r ->
  status_code r <> 200 ->
  attempt_body quicksort upstream rq w = (inr None, w ++ [Get rq]).
Proof.
  intros H Hs. unfold attempt_body, mbind, _make_request. rewrite H.
  unfold ok. cbn beta iota. apply Z.eqb_neq in Hs. now rewrite Hs.
Qed.

Lemma attempt_body_ok (rq : Request) (w : World) (r : Response) :
  upstream (requests_made w) rq = Returns r ->
  status_code r = 200 ->
  attempt_body quicksort upstream rq w
  = (match decode quicksort r with
     | inl e => inl e
     | inr df => match _apply_quality_checks df with
                 | inl e => inl e
                 | inr df' => inr (Some df')
                 end
     end, w ++ [Get rq]).
Proof.
  intros H Hs. unfold attempt_body, mbind, _make_request, decode, lift, mret.
  rewrite H. unfold ok. cbn beta iota. rewrite Hs. simpl.
  destruct (response_json r) as [e | data]; simpl; [reflexivity |].
  destruct (_parse_response quicksort data) as [e | df]; simpl; [reflexivity |].
  destruct (_apply_quality_checks df); reflexivity.
Qed.

Lemma failing_attempt (rq : Request) (w : World) :
  always_fails upstream ->
  attempt_body quicksort upstream rq w
  = (match upstream (requests_made w) rq with
     | Raises e => inl e
     | Returns _ => inr None
     end, w ++ [Get rq]).
Proof.
  intros Hf. specialize (Hf (requests_made w) rq).
  destruct (upstream (requests_made w) rq) as [e | r] eqn:E.
  - now apply attempt_body_raises.
  - now apply attempt_body_status with r.
Qed.

Lemma retry_loop_failing_step (n : Z) (rq : Request) (k : nat) (a : Z)
    (w : World) :
  always_fails upstream ->
  retry_loop quicksort upstream n rq (S k) a w
  = match upstream (requests_made w) rq with
    | Raises e =>
        if a <? n - 1
        then retry_loop quicksort upstream n rq k (a + 1)
               ((w ++ [Get rq]) ++ [Sleep (2 ^ a)])
        else (inl e, w ++ [Get rq])
    | Returns _ =>
        retry_loop quicksort upstream n rq k (a + 1) (w ++ [Get rq])
    end.
Proof.
  intros Hf. cbn [retry_loop]. rewrite (failing_attempt rq w Hf).
  destruct (upstream (requests_made w) rq); reflexivity.
Qed.

(** C3, amended. With three attempts and an upstream whose every call
    fails, exactly three requests are made and the fetch raises: the
    exception of the third call when that call raised, the exception
    of the end of the loop when it answered with a status other than
    200.  When the calls raise, the pauses between the attempts are of
    1 and 2 seconds. *)
Theorem three_failed_attempts (start_date end_date : datetime) (w : World) :
  always_fails upstream ->
  let rq := build_request start_date end_date in
  exists (e : exn) (w' : World),
    fetch_generation_data quicksort upstream start_date end_date 3 w
    = (inl e, w')
    /\ requests_made w' = (3 + requests_made w)%nat
    /\ e = match upstream (2 + requests_made w)%nat rq with
           | Raises e' => e'
           | Returns _ => exhausted
           end
    /\ ((forall n, exists e', upstream n rq = Raises e') ->
        w' = w ++ [Get rq; Sleep 1; Get rq; Sleep 2; Get rq]).
Proof.
  intros Hf rq.
  unfold fetch_generation_data. fold rq.
  change (Z.to_nat 3) with 3%nat.
  rewrite (retry_loop_failing_step 3 rq _ 0 w Hf).
  destruct (upstream (requests_made w) rq) as [e0 | r0] eqn:E0;
    change (0 <? 3 - 1) with true; cbn beta iota;
    rewrite (retry_loop_failing_step 3 rq _ _ _ Hf); count_requests;
    destruct (upstream (S (requests_made w)) rq) as [e1 | r1] eqn:E1;
    change (0 + 1 <? 3 - 1) with true; cbn beta iota;
    rewrite (retry_loop_failing_step 3 rq _ _ _ Hf); count_requests;
    destruct (upstream (S (S (requests_made w))) rq) as [e2 | r2] eqn:E2;
    change (0 + 1 + 1 <? 3 - 1) with false; cbn beta iota; cbn [retry_loop].
  all: eexists; eexists; split; [reflexivity |].
  all: split; [count_requests; reflexivity |].
  all: split; [cbn [Nat.add]; rewrite E2; reflexivity |].
  all: intros Hall.
  all: try (destruct (Hall (requests_made w)) as [x Hx]; congruence).
  all: try (destruct (Hall (S (requests_made w))) as [x Hx]; congruence).
  all: try (destruct (Hall (S (S (requests_made w)))) as [x Hx]; congruence).
  repeat rewrite <- app_assoc. reflexivity.
Qed.

Lemma attempt_body_world (rq : Request) (w : World) :
  snd (attempt_body quicksort upstream rq w) = w ++ [Get rq].
Proof.
  unfold attempt_body, mbind, _make_request.
  destruct (upstream (requests_made w) rq) as [e | r]; [reflexivity |].
  unfold ok. cbn beta iota.
  destruct (status_code r =? 200); [| reflexivity].
  unfold lift, mret.
  destruct (response_json r) as [e | data]; [reflexivity |].
  destruct (_parse_response quicksort data) as [e | df]; [reflexivity |].
  destruct (_apply_quality_checks df); reflexivity.
Qed.

Lemma retry_loop_extends (n : Z) (rq : Request) (k : nat) :
  forall (a : Z) (w : World),
    exists tail, snd (retry_loop quicksort upstream n rq k a w) = w ++ tail.
Proof.
  induction k as [| k IH]; intros a w; cbn [retry_loop].
  - exists []. simpl. now rewrite app_nil_r.
  - pose proof (attempt_body_world rq w) as Hw.
    destruct (attempt_body quicksort upstream rq w) as [[e | [df |]] w1];
      simpl in Hw; subst w1.
    + destruct (a <? n - 1).
      * destruct (IH (a + 1) ((w ++ [Get rq]) ++ [Sleep (2 ^ a)])) as [t Ht].
        rewrite Ht. exists (Get rq :: Sleep (2 ^ a) :: t).
        now rewrite <- !app_assoc.
      * now exists [Get rq].
    + now exists [Get rq].
    + destruct (IH (a + 1) (w ++ [Get rq])) as [t Ht].
      rewrite Ht. exists (Get rq :: t). now rewrite <- app_assoc.
Qed.

(** C4, amended. A response with status 200 whose body cannot be
    decoded or parsed raises inside the [try] block and is handled as
    any exception of the attempt: the request is spent, and the loop
    sleeps [2 ^ attempt] seconds and goes on with the next attempt,
    unless this was the last attempt, in which case the parser's own
    exception is raised. *)
Theorem malformed_body_consumes_attempt (n : Z) (rq : Request) (k : nat)
    (a : Z) (w : World) (r : Response) (e : exn) :
  upstream (requests_made w) rq = Returns r ->
  status_code r = 200 ->
  decode quicksort r = inl e ->
  retry_loop quicksort upstream n rq (S k) a w
  = if a <? n - 1
    then retry_loop quicksort upstream n rq k (a + 1)
           (w ++ [Get rq; Sleep (2 ^ a)])
    else (inl e, w ++ [Get rq]).
Proof.
  intros Hr Hs Hd. cbn [retry_loop].
  rewrite (attempt_body_ok rq w r Hr Hs), Hd.
  now rewrite <- app_assoc.
Qed.

(** C8, amended. [fetch_generation_data] compares its two bounds
    nowhere: also for a start at or after the end, with at least one
    attempt allowed, the first thing it does is to issue the GET request
    carrying the two formatted bounds. *)
Theorem empty_range_is_requested (start_date end_date : datetime)
    (retry_attempts : Z) (w : World) :
  end_date <= start_date ->
  1 <= retry_attempts ->
  exists tail,
    snd (fetch_generation_data quicksort upstream start_date end_date
           retry_attempts w)
    = w ++ Get (build_request start_date end_date) :: tail.
Proof.
  intros _ Hn. unfold fetch_generation_data.
  destruct (Z.to_nat retry_attempts) as [| k] eqn:Ek; [lia |].
  cbn [retry_loop].
  pose proof (attempt_body_world (build_request start_date end_date) w) as Hw.
  destruct (attempt_body quicksort upstream
              (build_request start_date end_date) w) as [[e | [df |]] w1];
    simpl in Hw; subst w1.
  - destruct (0 <? retry_attempts - 1).
    + destruct (retry_loop_extends retry_attempts
                  (build_request start_date end_date) k (0 + 1)
                  ((w ++ [Get (build_request start_date end_date)])
                   ++ [Sleep (2 ^ 0)])) as [t Ht].
      rewrite Ht. exists (Sleep (2 ^ 0) :: t). now rewrite <- !app_assoc.
    + now exists [].
  - now exists [].
  - destruct (retry_loop_extends retry_attempts
                (build_request start_date end_date) k (0 + 1)
                (w ++ [Get (build_request start_date end_date)])) as [t Ht].
    rewrite Ht. exists t. now rewrite <- app_assoc.
Qed.

End Retry.

(** A malformed body and a raised exception are one kind of failure to
    the loop: the fetch runs the same against an upstream where the
    malformed answers are replaced by calls that raise. *)
Lemma malformed_like_raised (quicksort : sort_algorithm) (upstream : Upstream)
    (start_date end_date : datetime) (retry_attempts : Z) (w : World) :
  fetch_generation_data quicksort upstream start_date end_date retry_attempts w
  = fetch_generation_data quicksort (malformed_as_raised quicksort upstream)
      start_date end_date retry_attempts w.
Proof.
  unfold fetch_generation_data.
  generalize (build_request start_date end_date) as rq.
  generalize 0 as a. generalize (Z.to_nat retry_attempts) as k.
  intros k. revert w. induction k as [| k IH]; intros w a rq; [reflexivity |].
  cbn [retry_loop].
  assert (Hb : attempt_body quicksort upstream rq w
               = attempt_body quicksort (malformed_as_raised quicksort upstream)
                   rq w).
  { unfold attempt_body, mbind, _make_request, malformed_as_raised.
    destruct (upstream (requests_made w) rq) as [e | r]; [reflexivity |].
    unfold ok. cbn beta iota.
    destruct (status_code r =? 200) eqn:Es; cbn beta iota.
    - unfold decode, lift, mret, rbind.
      destruct (response_json r) as [e | data] eqn:Ej; cbn beta iota;
        [reflexivity |].
      destruct (_parse_response quicksort data) as [e | df] eqn:Ep;
        cbn beta iota; [reflexivity |].
      unfold ok. rewrite Es, Ej. cbn beta iota. rewrite Ep. reflexivity.
    - now rewrite Es. }
  rewrite <- Hb.
  destruct (attempt_body quicksort upstream rq w) as [[e | [df |]] w1];
    [destruct (a <? retry_attempts - 1) | |]; auto.
Qed.

Lemma three_failed_attempts_witness :
  exists (e : exn) (w' : World),
    fetch_generation_data stable_sort
      (fun _ _ => Raises (RequestException "timed out"))
      new_year_2024 (new_year_2024 + timedelta_days 1) 3 []
    = (inl e, w')
    /\ requests_made w' = 3%nat.
Proof.
  destruct (three_failed_attempts stable_sort
              (fun _ _ => Raises (RequestException "timed out"))
              new_year_2024 (new_year_2024 + timedelta_days 1) [])
    as [e [w' [H1 [H2 _]]]].
  - intros n rq. exact I.
  - exists e, w'. split; [exact H1 | exact H2].
Defined.

(** C3, as stated, fails.  Against an upstream that always answers 503
    the three attempts follow each other without any pause; against one
    whose calls always raise, the fetch ends with the exception of the
    third call, not with the one of the end of the loop. *)
Lemma three_attempts_claim_fails :
  let down : Upstream := fun _ _ => Returns (mkResponse 503 None) in
  let dead : Upstream := fun _ _ => Raises (RequestException "timed out") in
  let rq := build_request new_year_2024 (new_year_2024 + timedelta_days 1) in
  always_fails down /\ always_fails dead
  /\ fetch_generation_data stable_sort down new_year_2024 (new_year_2024 + timedelta_days 1) 3 []
     = (inl exhausted, [Get rq; Get rq; Get rq])
  /\ sleeps [Get rq; Get rq; Get rq] <> [1; 2]
  /\ fetch_generation_data stable_sort dead new_year_2024 (new_year_2024 + timedelta_days 1) 3 []
     = (inl (RequestException "timed out"),
        [Get rq; Sleep 1; Get rq; Sleep 2; Get rq])
  /\ RequestException "timed out" <> exhausted.
Proof.
  repeat split; try discriminate; try (intros n rq; simpl; discriminate).
Qed.

Lemma malformed_body_consumes_attempt_witness :
  let upstream : Upstream := fun _ _ => Returns (mkResponse 200 None) in
  let rq := build_request new_year_2024 (new_year_2024 + timedelta_days 1) in
  retry_loop stable_sort upstream 3 rq 3 0 []
  = retry_loop stable_sort upstream 3 rq 2 1 [Get rq; Sleep 1].
Proof.
  intros upstream rq.
  exact (malformed_body_consumes_attempt stable_sort upstream 3 rq 2 0 []
           (mkResponse 200 None) JSONDecodeError eq_refl eq_refl eq_refl).
Defined.

(** C4, as stated, fails.  A first answer of status 200 with a body
    that is not JSON does not end the fetch: it costs one attempt and a
    pause of one second, and the second attempt returns the data. *)
Lemma malformed_body_is_retried :
  let upstream : Upstream :=
    fun n _ => match n with
               | O => Returns (mkResponse 200 None)
               | S _ => Returns (mkResponse 200 (Some sample_payload))
               end in
  let rq := build_request new_year_2024 (new_year_2024 + timedelta_days 1) in
  fetch_generation_data stable_sort upstream new_year_2024 (new_year_2024 + timedelta_days 1) 3 []
  = (ok (mkDF ["timestamp"; "fuel_type"; "generation_mw"; "total_generation"]
              [[CTime new_year_2024; CStr "Nuclear"; CNum 30000; CNum 30000]]),
     [Get rq; Sleep 1; Get rq]).
Proof. vm_compute. reflexivity. Qed.

Lemma empty_range_is_requested_witness :
  exists tail,
    snd (fetch_generation_data stable_sort
           (fun _ _ => Returns (mkResponse 200 (Some sample_payload)))
           new_year_2024 new_year_2024 3 [])
    = [] ++ Get (build_request new_year_2024 new_year_2024) :: tail.
Proof.
  apply (empty_range_is_requested stable_sort
           (fun _ _ => Returns (mkResponse 200 (Some sample_payload)))
           new_year_2024 new_year_2024 3 []);
    lia.
Defined.

(** C8, as stated, fails.  For a start equal to the end no error is
    raised: the request is sent and the frame parsed from the answer is
    returned. *)
Lemma empty_range_is_not_rejected :
  let upstream : Upstream :=
    fun _ _ => Returns (mkResponse 200 (Some sample_payload)) in
  fetch_generation_data stable_sort upstream new_year_2024 new_year_2024 3 []
  = (ok (mkDF ["timestamp"; "fuel_type"; "generation_mw"; "total_generation"]
              [[CTime new_year_2024; CStr "Nuclear"; CNum 30000; CNum 30000]]),
     [Get (mkRequest
             "https://data.elexon.co.uk/bmrs/api/v1/generation/actual/per-type"
             "2024-01-01T00:00:00Z" "2024-01-01T00:00:00Z")]).
Proof. vm_compute. reflexivity. Qed.

(** ** Concatenation of frames with the same columns *)

Lemma col_pos_In (c : string) (cols : list string) :
  has_col c cols = true <-> In c cols.
Proof.
  unfold has_col.
  induction cols as [| h t IH]; simpl; [split; [discriminate | tauto] |].
  destruct (String.eqb c h) eqn:E.
  - apply String.eqb_eq in E. subst. split; auto.
  - apply String.eqb_neq in E.
    destruct (col_pos c t); simpl in *.
    + split; [intros _; right; now apply IH | reflexivity].
    + split; [discriminate |].
      intros [H | H]; [congruence | now apply IH in H].
Qed.

Lemma union_columns_known (acc cs : list string) :
  (forall c, In c cs -> In c acc) -> union_columns acc cs = acc.
Proof.
  induction cs as [| c cs IH]; simpl; intros H; [reflexivity |].
  rewrite (proj2 (col_pos_In c acc)) by (apply H; now left).
  apply IH. intros x Hx. apply H. now right.
Qed.

Lemma union_columns_new (acc cs : list string) :
  NoDup (acc ++ cs) -> union_columns acc cs = acc ++ cs.
Proof.
  revert acc. induction cs as [| c cs IH]; simpl; intros acc Hnd.
  - now rewrite app_nil_r.
  - assert (Hc : has_col c acc = false).
    { destruct (has_col c acc) eqn:E; [| reflexivity].
      apply col_pos_In in E. apply NoDup_remove_2 in Hnd.
      exfalso. apply Hnd. apply in_or_app. now left. }
    rewrite Hc, IH; rewrite <- app_assoc; [reflexivity | exact Hnd].
Qed.

Lemma col_pos_nth (cols : list string) (i : nat) :
  NoDup cols -> (i < List.length cols)%nat ->
  col_pos (nth i cols "") cols = Some i.
Proof.
  intros Hnd. revert i. induction Hnd as [| h t Hnot Hnd IH]; intros i Hi;
    simpl in *; [lia |].
  destruct i as [| i].
  - now rewrite String.eqb_refl.
  - destruct (String.eqb (nth i t "") h) eqn:E.
    + apply String.eqb_eq in E. exfalso. apply Hnot. rewrite <- E.
      apply nth_In. lia.
    + rewrite IH by lia. reflexivity.
Qed.

Lemma reindex_same (cols : list string) (df : DataFrame) :
  NoDup cols -> columns df = cols ->
  (forall r, In r (rows df) -> List.length r = List.length cols) ->
  reindex cols df = rows df.
Proof.
  intros Hnd Hc Hlen. unfold reindex. rewrite Hc.
  rewrite <- (map_id (rows df)) at 2. apply map_ext_in. intros r Hr.
  apply (nth_ext _ _ CNaN CNaN).
  - rewrite length_map. symmetry. now apply Hlen.
  - intros i Hi. rewrite length_map in Hi.
    rewrite (nth_indep _ CNaN
               (match col_pos "" cols with
                | Some j => cell_at j r
                | None => CNaN
                end)) by now rewrite length_map.
    rewrite (map_nth (fun c => match col_pos c cols with
                               | Some j => cell_at j r
                               | None => CNaN
                               end) cols "" i).
    now rewrite col_pos_nth.
Qed.

Lemma concat_same_columns (cols : list string) (frames : list DataFrame) :
  NoDup cols -> frames <> [] ->
  (forall df, In df frames ->
     columns df = cols
     /\ forall r, In r (rows df) -> List.length r = List.length cols) ->
  concat frames = ok (mkDF cols (flat_map rows frames)).
Proof.
  intros Hnd Hne Hall.
  destruct frames as [| df0 rest]; [contradiction |].
  unfold concat.
  assert (Hcols : fold_left union_columns (map columns (df0 :: rest)) [] = cols).
  { simpl. rewrite (proj1 (Hall df0 (or_introl eq_refl))).
    rewrite union_columns_new by exact Hnd. simpl.
    assert (Hrest : forall df, In df rest -> columns df = cols)
      by (intros df Hdf; apply Hall; now right).
    clear Hall Hne. induction rest as [| df rest IH]; simpl; [reflexivity |].
    rewrite (Hrest df (or_introl eq_refl)).
    rewrite union_columns_known by auto.
    apply IH. intros x Hx. apply Hrest. now right. }
  rewrite Hcols. f_equal. f_equal.
  generalize dependent (df0 :: rest). intros l _ Hall _.
  induction l as [| df l IH]; simpl; [reflexivity |].
  rewrite reindex_same; [| exact Hnd | apply Hall; now left | apply Hall; now left].
  rewrite IH; [reflexivity |]. intros x Hx. apply Hall. now right.
Qed.

Lemma concat_empty_frames (frames : list DataFrame) :
  frames <> [] ->
  Forall (fun df => df = mkDF [] []) frames ->
  concat frames = ok (mkDF [] []).
Proof.
  intros Hne Hall. destruct frames as [| df0 rest]; [contradiction |].
  unfold concat.
  assert (Hc : forall l acc, Forall (fun df => df = mkDF [] []) l ->
                fold_left union_columns (map columns l) acc = acc).
  { induction l as [| df l IH]; intros acc Hl; [reflexivity |].
    inversion Hl as [| ? ? -> Hl']; subst. simpl. now apply IH. }
  rewrite Hc by exact Hall.
  assert (Hr : forall l, Forall (fun df => df = mkDF [] []) l ->
                flat_map (reindex []) l = []).
  { induction l as [| df l IH]; intros Hl; [reflexivity |].
    inversion Hl as [| ? ? -> Hl']; subst. simpl. now apply IH. }
  now rewrite Hr.
Qed.

(** ** The calendar *)

Lemma is_leap_iff (y : Z) :
  _is_leap y = true <-> y mod 4 = 0 /\ (y mod 100 <> 0 \/ y mod 400 = 0).
Proof.
  unfold _is_leap.
  rewrite andb_true_iff, orb_true_iff, negb_true_iff, !Z.eqb_eq, Z.eqb_neq.
  tauto.
Qed.

Lemma month_day_table (leapyear : bool) :
  forallb (fun k => month_day_ok leapyear (Z.of_nat k))
          (seq 0 (if leapyear then 366 else 365)) = true.
Proof. destruct leapyear; vm_compute; reflexivity. Qed.

Lemma month_day_spec (leapyear : bool) (n : Z) :
  0 <= n < (if leapyear then 366 else 365) ->
  month_day_ok leapyear n = true.
Proof.
  intros Hn. pose proof (month_day_table leapyear) as H.
  rewrite forallb_forall in H.
  replace n with (Z.of_nat (Z.to_nat n)) by lia.
  apply H. apply in_seq. destruct leapyear; lia.
Qed.

Lemma year_of_cycles (q a b c : Z) :
  0 <= q -> 0 <= a <= 3 -> 0 <= b <= 24 -> 0 <= c <= 3 ->
  let y := q * 400 + 1 + a * 100 + b * 4 + c in
  _days_before_year y = 146097 * q + 36524 * a + 1461 * b + 365 * c
  /\ _is_leap y = (c =? 3) && (negb (b =? 24) || (a =? 3)).
Proof.
  intros Hq Ha Hb Hc y. subst y. split.
  - unfold _days_before_year. Z.to_euclidean_division_equations. lia.
  - unfold _is_leap. apply eq_true_iff_eq.
    rewrite !andb_true_iff, !orb_true_iff, !negb_true_iff, !Z.eqb_eq, !Z.eqb_neq.
    Z.to_euclidean_division_equations. lia.
Qed.

Lemma ord2ymd_spec (n : Z) :
  1 <= n ->
  let ymd := _ord2ymd n in
  let y := fst (fst ymd) in let m := snd (fst ymd) in let d := snd ymd in
  1 <= y /\ 1 <= m <= 12 /\ 1 <= d <= _days_in_month y m
  /\ _ymd2ord y m d = n /\ _days_before_year y < n.
Proof.
  intros Hn. unfold _ord2ymd.
  set (n0 := n - 1).
  set (n400 := n0 / _DI400Y). set (r400 := n0 mod _DI400Y).
  set (n100 := r400 / _DI100Y). set (r100 := r400 mod _DI100Y).
  set (n4 := r100 / _DI4Y). set (r4 := r100 mod _DI4Y).
  set (n1 := r4 / 365). set (r1 := r4 mod 365).
  assert (E400 : n0 = 146097 * n400 + r400 /\ 0 <= r400 < 146097)
    by (split; [apply Z.div_mod | apply Z.mod_pos_bound]; reflexivity || lia).
  assert (E100 : r400 = 36524 * n100 + r100 /\ 0 <= r100 < 36524)
    by (split; [apply Z.div_mod | apply Z.mod_pos_bound]; reflexivity || lia).
  assert (E4 : r100 = 1461 * n4 + r4 /\ 0 <= r4 < 1461)
    by (split; [apply Z.div_mod | apply Z.mod_pos_bound]; reflexivity || lia).
  assert (E1 : r4 = 365 * n1 + r1 /\ 0 <= r1 < 365)
    by (split; [apply Z.div_mod | apply Z.mod_pos_bound]; reflexivity || lia).
  assert (B400 : 0 <= n400) by (apply Z.div_pos; unfold n0, _DI400Y; lia).
  assert (B100 : 0 <= n100 <= 4) by lia.
  assert (B4 : 0 <= n4 <= 24) by lia.
  assert (B1 : 0 <= n1 <= 4) by lia.
  clearbody n400 r400 n100 r100 n4 r4 n1 r1.
  destruct ((n1 =? 4) || (n100 =? 4)) eqn:Elast.
  - (* the last day of a leap year *)
    apply orb_true_iff in Elast. rewrite !Z.eqb_eq in Elast. cbn [fst snd].
    assert (Hy : exists a b,
               0 <= a <= 3 /\ 0 <= b <= 24
               /\ n400 * 400 + 1 + n100 * 100 + n4 * 4 + n1 - 1
                  = n400 * 400 + 1 + a * 100 + b * 4 + 3
               /\ (b <> 24 \/ a = 3)
               /\ n0 = 146097 * n400 + 36524 * a + 1461 * b + 365 * 3 + 365).
    { destruct Elast as [-> | ->].
      - exists n100, n4. lia.
      - exists 3, 24. lia. }
    destruct Hy as [a [b [Ha [Hb [-> [Hleap Hn0]]]]]].
    destruct (year_of_cycles n400 a b 3 B400 Ha Hb ltac:(lia)) as [Hd Hl].
    assert (Hl' : _is_leap (n400 * 400 + 1 + a * 100 + b * 4 + 3) = true).
    { rewrite Hl. apply andb_true_iff. split; [reflexivity |].
      apply orb_true_iff. rewrite negb_true_iff, Z.eqb_neq, Z.eqb_eq. exact Hleap. }
    unfold _ymd2ord, _days_in_month, _days_before_month.
    rewrite Hd, Hl'.
    change (12 =? 2) with false. change (12 >? 2) with true.
    change (_DAYS_IN_MONTH 12) with 31. change (_DAYS_BEFORE_MONTH 12) with 334.
    cbn [andb]. unfold n0 in Hn0. lia.
  - (* any other day *)
    apply orb_false_iff in Elast. rewrite !Z.eqb_neq in Elast. cbn [fst snd].
    destruct (year_of_cycles n400 n100 n4 n1 B400 ltac:(lia) B4 ltac:(lia))
      as [Hd Hl].
    set (leapyear := (n1 =? 3) && (negb (n4 =? 24) || (n100 =? 3))) in *.
    assert (Hmd : month_day_ok leapyear r1 = true)
      by (apply month_day_spec; destruct leapyear; lia).
    unfold month_day_ok in Hmd.
    rewrite !andb_true_iff, !Z.leb_le, Z.eqb_eq in Hmd.
    destruct Hmd as [[[[[Hm1 Hm12] Hd1] Hdim] Hpos] Hsum].
    unfold _ymd2ord, _days_in_month, _days_before_month.
    rewrite Hd, Hl. unfold n0 in E400.
    destruct ((fst (_month_day leapyear r1) >? 2) && leapyear); lia.
Qed.

Lemma year_below_max (y n : Z) :
  _days_before_year y < n -> n <= MAXORDINAL -> y <= 9999.
Proof.
  unfold _days_before_year, MAXORDINAL. intros H1 H2.
  Z.to_euclidean_division_equations. lia.
Qed.

(** ** Timestamps as text *)

Lemma digit_val_digit (k : Z) : digit_val (digit k) = Some (k mod 10).
Proof.
  unfold digit_val, digit.
  pose proof (Z.mod_pos_bound k 10 ltac:(lia)) as Hk.
  rewrite nat_ascii_embedding by lia.
  replace (Z.of_nat (48 + Z.to_nat (k mod 10))) with (48 + k mod 10) by lia.
  destruct (48 <=? 48 + k mod 10) eqn:E1; [| lia].
  destruct (48 + k mod 10 <=? 57) eqn:E2; [| lia].
  cbn [andb]. f_equal. lia.
Qed.

Lemma number_pad2 (n : Z) :
  0 <= n < 100 -> number 0 [digit (n / 10); digit n] = Some n.
Proof.
  intros Hn. cbn [number]. rewrite !digit_val_digit. f_equal.
  Z.to_euclidean_division_equations. lia.
Qed.

Lemma number_pad4 (n : Z) :
  0 <= n < 10000 ->
  number 0 [digit (n / 1000); digit (n / 100); digit (n / 10); digit n] = Some n.
Proof.
  intros Hn. cbn [number]. rewrite !digit_val_digit. f_equal.
  Z.to_euclidean_division_equations. lia.
Qed.

Lemma strftime_shape (t : datetime) :
  let f := fields_of t in
  list_ascii_of_string (strftime t TIMESTAMP_FORMAT)
  = [digit (year f / 1000); digit (year f / 100); digit (year f / 10);
     digit (year f); "-"%char;
     digit (month f / 10); digit (month f); "-"%char;
     digit (day f / 10); digit (day f); "T"%char;
     digit (hour f / 10); digit (hour f); ":"%char;
     digit (minute f / 10); digit (minute f); ":"%char;
     digit (second f / 10); digit (second f); "Z"%char].
Proof. reflexivity. Qed.

Lemma fields_of_spec (t : datetime) :
  valid_datetime t ->
  let f := fields_of t in
  1 <= year f <= 9999 /\ 1 <= month f <= 12
  /\ 1 <= day f <= _days_in_month (year f) (month f)
  /\ 0 <= hour f <= 23 /\ 0 <= minute f <= 59 /\ 0 <= second f <= 59
  /\ of_fields (mkFields (year f) (month f) (day f)
                         (hour f) (minute f) (second f) 0)
     = truncate_to_second t.
Proof.
  intros Ht f. unfold valid_datetime in Ht.
  assert (Hord : 1 <= t / US_PER_DAY + 1 <= MAXORDINAL).
  { unfold US_PER_DAY, US_PER_SECOND, MAXORDINAL in *.
    Z.to_euclidean_division_equations. lia. }
  destruct (ord2ymd_spec (t / US_PER_DAY + 1) (proj1 Hord))
    as [Hy [Hm [Hd [Hymd Hdby]]]].
  pose proof (year_below_max _ _ Hdby (proj2 Hord)) as Hy'.
  unfold f, fields_of. cbn [year month day hour minute second].
  split; [lia |]. split; [exact Hm |]. split; [exact Hd |].
  unfold of_fields, truncate_to_second.
  cbn [year month day hour minute second microsecond].
  rewrite Hymd.
  unfold US_PER_DAY, US_PER_SECOND in *.
  Z.to_euclidean_division_equations. lia.
Qed.

Lemma days_in_month_le (y m : Z) : 1 <= m <= 12 -> _days_in_month y m <= 31.
Proof.
  intros Hm. unfold _days_in_month.
  destruct ((m =? 2) && _is_leap y); [lia |].
  assert (Hc : m = 1 \/ m = 2 \/ m = 3 \/ m = 4 \/ m = 5 \/ m = 6 \/ m = 7
               \/ m = 8 \/ m = 9 \/ m = 10 \/ m = 11 \/ m = 12) by lia.
  repeat (destruct Hc as [-> | Hc]; [vm_compute; discriminate |]).
  subst m. vm_compute. discriminate.
Qed.

Lemma timestamp_round_trip (t : datetime) :
  valid_datetime t ->
  parse_timestamp (strftime t TIMESTAMP_FORMAT) = Some (truncate_to_second t).
Proof.
  intros Ht.
  destruct (fields_of_spec t Ht) as [Hy [Hm [Hd [Hh [Hmi [Hs Hof]]]]]].
  pose proof (days_in_month_le (year (fields_of t)) (month (fields_of t)) Hm)
    as Hdim.
  unfold parse_timestamp. rewrite strftime_shape. cbv zeta. cbv iota beta.
  rewrite number_pad4 by lia. rewrite !number_pad2 by lia.
  replace ((1 <=? year (fields_of t)) && (1 <=? month (fields_of t))
           && (month (fields_of t) <=? 12) && (1 <=? day (fields_of t))
           && (day (fields_of t)
               <=? _days_in_month (year (fields_of t)) (month (fields_of t)))
           && (hour (fields_of t) <=? 23) && (minute (fields_of t) <=? 59)
           && (second (fields_of t) <=? 59)) with true.
  - now rewrite Hof.
  - symmetry. rewrite !andb_true_iff, !Z.leb_le. lia.
Qed.

Lemma four_digit_year_valid (t : datetime) :
  four_digit_year t -> valid_datetime t.
Proof.
  unfold four_digit_year, valid_datetime. intros [H1 H2].
  assert (H0 : 0 <= of_fields (mkFields 1000 1 1 0 0 0 0))
    by (vm_compute; discriminate).
  lia.
Qed.

Lemma days_before_month_end (y m : Z) :
  1 <= m <= 12 ->
  _days_before_month y m + _days_in_month y m
  <= 365 + (if _is_leap y then 1 else 0).
Proof.
  intros Hm. unfold _days_before_month, _days_in_month.
  assert (Hc : m = 1 \/ m = 2 \/ m = 3 \/ m = 4 \/ m = 5 \/ m = 6 \/ m = 7
               \/ m = 8 \/ m = 9 \/ m = 10 \/ m = 11 \/ m = 12) by lia.
  repeat (destruct Hc as [-> | Hc];
          [destruct (_is_leap y); vm_compute; discriminate |]).
  subst m. destruct (_is_leap y); vm_compute; discriminate.
Qed.

Lemma days_before_next_year (y : Z) :
  _days_before_year (y + 1)
  = _days_before_year y + 365 + (if _is_leap y then 1 else 0).
Proof.
  unfold _days_before_year, _is_leap.
  replace (y + 1 - 1) with y by lia.
  destruct ((y mod 4 =? 0) && (negb (y mod 100 =? 0) || (y mod 400 =? 0))) eqn:E.
  - apply andb_true_iff in E as [E4 E].
    apply orb_true_iff in E. rewrite negb_true_iff, Z.eqb_neq, !Z.eqb_eq in *.
    Z.to_euclidean_division_equations. lia.
  - apply andb_false_iff in E.
    rewrite orb_false_iff, negb_false_iff, !Z.eqb_neq, Z.eqb_eq in E.
    Z.to_euclidean_division_equations. lia.
Qed.

Lemma year_from_1000 (t : datetime) :
  four_digit_year t -> 1000 <= year (fields_of t) <= 9999.
Proof.
  intros Hy. pose proof (four_digit_year_valid t Hy) as Hv.
  destruct (fields_of_spec t Hv) as [Hyear _].
  split; [| lia].
  unfold four_digit_year in Hy.
  assert (H1000 : of_fields (mkFields 1000 1 1 0 0 0 0)
                  = 364877 * US_PER_DAY) by reflexivity.
  assert (Hord : 364878 <= t / US_PER_DAY + 1).
  { unfold US_PER_DAY, US_PER_SECOND in *.
    Z.to_euclidean_division_equations. lia. }
  destruct (ord2ymd_spec (t / US_PER_DAY + 1) ltac:(lia))
    as [Hy1 [Hm [Hd [Hymd _]]]].
  unfold fields_of. cbn [year].
  set (y := fst (fst (_ord2ymd (t / US_PER_DAY + 1)))) in *.
  set (m := snd (fst (_ord2ymd (t / US_PER_DAY + 1)))) in *.
  set (d := snd (_ord2ymd (t / US_PER_DAY + 1))) in *.
  pose proof (days_before_month_end y m Hm) as Hend.
  pose proof (days_before_next_year y) as Hnext.
  unfold _ymd2ord in Hymd.
  destruct (Z_lt_dec y 1000) as [Hlt |]; [exfalso | lia].
  assert (Hmono : _days_before_year (y + 1) <= 364877).
  { unfold _days_before_year. Z.to_euclidean_division_equations. lia. }
  lia.
Qed.

(** C7, as stated, fails, in two ways.  A start half a second past
    midnight is sent as midnight: the string parses back to another
    instant.  And a start of midnight on a clock one hour ahead of UTC
    is sent as midnight with the [Z] of UTC, which is one hour after
    the instant the start stands for. *)
Lemma request_bounds_do_not_round_trip :
  let late := mkDatetime (new_year_2024 + 500000) None in
  let tomorrow := mkDatetime (new_year_2024 + timedelta_days 1) None in
  let ahead := mkDatetime new_year_2024 (Some (timedelta_hours 1)) in
  let tomorrow_ahead :=
    mkDatetime (new_year_2024 + timedelta_days 1) (Some (timedelta_hours 1)) in
  (instant late < instant tomorrow
   /\ param_from (request_of late tomorrow) = "2024-01-01T00:00:00Z"
   /\ parse_timestamp (param_from (request_of late tomorrow))
      = Some new_year_2024
   /\ new_year_2024 <> instant late)
  /\ (instant ahead < instant tomorrow_ahead
      /\ param_from (request_of ahead tomorrow_ahead) = "2024-01-01T00:00:00Z"
      /\ parse_timestamp (param_from (request_of ahead tomorrow_ahead))
         = Some new_year_2024
      /\ strftime (instant ahead) TIMESTAMP_FORMAT = "2023-12-31T23:00:00Z"
      /\ new_year_2024 <> instant ahead).
Proof.
  vm_compute. repeat split; congruence.
Qed.

(** C7, amended. For a start before an end, naive or aware datetimes of
    the years 1000 to 9999, the two strings of the request parse back
    to the wall clock readings of the start and of the end, cut to
    whole seconds; so to exactly the start and the end when these are
    in UTC (naive, or aware with offset zero) and carry no
    microseconds. *)
Theorem request_bounds_round_trip (start_date end_date : datetime_object) :
  four_digit_year (wall_clock start_date) ->
  four_digit_year (wall_clock end_date) ->
  instant start_date < instant end_date ->
  let rq := request_of start_date end_date in
  parse_timestamp (param_from rq)
  = Some (truncate_to_second (wall_clock start_date))
  /\ parse_timestamp (param_to rq)
     = Some (truncate_to_second (wall_clock end_date))
  /\ 1000 <= year (fields_of (wall_clock start_date)) <= 9999
  /\ 1000 <= year (fields_of (wall_clock end_date)) <= 9999
  /\ (in_utc start_date -> wall_clock start_date mod US_PER_SECOND = 0 ->
      parse_timestamp (param_from rq) = Some (instant start_date))
  /\ (in_utc end_date -> wall_clock end_date mod US_PER_SECOND = 0 ->
      parse_timestamp (param_to rq) = Some (instant end_date)).
Proof.
  intros Hs He _ rq. unfold rq, request_of, build_request.
  cbn [param_from param_to].
  rewrite !timestamp_round_trip by now apply four_digit_year_valid.
  split; [reflexivity |]. split; [reflexivity |].
  split; [now apply year_from_1000 |]. split; [now apply year_from_1000 |].
  unfold truncate_to_second, instant.
  split; intros [Hu | Hu] H; rewrite Hu, H; f_equal; lia.
Qed.

Lemma request_bounds_round_trip_witness :
  let start_date := mkDatetime new_year_2024 (Some 0) in
  let end_date := mkDatetime (new_year_2024 + timedelta_hours 24) (Some 0) in
  let rq := request_of start_date end_date in
  parse_timestamp (param_from rq) = Some (instant start_date)
  /\ parse_timestamp (param_to rq) = Some (instant end_date).
Proof.
  intros start_date end_date.
  destruct (request_bounds_round_trip start_date end_date)
    as [_ [_ [_ [_ [H1 H2]]]]].
  - vm_compute. split; [discriminate | reflexivity].
  - vm_compute. split; [discriminate | reflexivity].
  - vm_compute. reflexivity.
  - split; [apply H1 | apply H2]; (right; reflexivity) || reflexivity.
Defined.

(** ** The response parser *)

Section SortFacts.

Context {A : Type} (key : A -> Z).

Lemma insert_by_perm (strict : bool) (x : A) (l : list A) :
  Permutation (x :: l) (insert_by key strict x l).
Proof.
  induction l as [| y l IH]; simpl; [apply Permutation_refl |].
  destruct (if strict then key x <? key y else key x <=? key y);
    [apply Permutation_refl |].
  eapply Permutation_trans; [apply perm_swap | now apply perm_skip].
Qed.

Lemma insert_by_sorted (strict : bool) (x : A) (l : list A) :
  StronglySorted (fun a b => key a <= key b) l ->
  StronglySorted (fun a b => key a <= key b) (insert_by key strict x l).
Proof.
  induction 1 as [| y l Hs IH Hall]; simpl.
  - constructor; constructor.
  - destruct (if strict then key x <? key y else key x <=? key y) eqn:E.
    + assert (Hxy : key x <= key y) by (destruct strict; lia).
      constructor; [now constructor |].
      constructor; [exact Hxy |].
      eapply Forall_impl; [| exact Hall]. simpl. intros; lia.
    + assert (Hyx : key y <= key x) by (destruct strict; lia).
      constructor; [exact IH |].
      eapply Permutation_Forall; [apply insert_by_perm |].
      now constructor.
Qed.

Lemma insertion_sorts (strict : bool) (l : list A) :
  Permutation l (fold_right (insert_by key strict) [] l)
  /\ StronglySorted (fun a b => key a <= key b)
       (fold_right (insert_by key strict) [] l).
Proof.
  induction l as [| x l [IHp IHs]]; simpl.
  - split; constructor.
  - split; [| now apply insert_by_sorted].
    eapply Permutation_trans; [apply perm_skip, IHp | apply insert_by_perm].
Qed.

End SortFacts.

Lemma stable_sort_sorts : sorts stable_sort.
Proof. intros A key l. apply insertion_sorts. Qed.

Lemma StronglySorted_map {A B : Type} (f : A -> B) (R : B -> B -> Prop)
    (l : list A) :
  StronglySorted R (map f l) -> StronglySorted (fun a b => R (f a) (f b)) l.
Proof.
  induction l as [| x l IH]; simpl; intros H; [constructor |].
  inversion H as [| ? ? Hs Hall]; subst. constructor; [now apply IH |].
  now rewrite Forall_map in Hall.
Qed.

(** ** NumPy's quicksort *)

Section SetNth.

Context {A : Type}.

Lemma set_nth_length (i : nat) (x : A) (l : list A) :
  List.length (set_nth i x l) = List.length l.
Proof.
  revert i. induction l as [| h t IH]; intros [| i]; simpl; auto.
Qed.

Lemma nth_set_nth_eq (i : nat) (x : A) (l : list A) (d : A) :
  (i < List.length l)%nat -> nth i (set_nth i x l) d = x.
Proof.
  revert i. induction l as [| h t IH]; intros [| i] H; simpl in *;
    try lia; [reflexivity |].
  apply IH. lia.
Qed.

Lemma nth_set_nth_neq (i j : nat) (x : A) (l : list A) (d : A) :
  i <> j -> nth j (set_nth i x l) d = nth j l d.
Proof.
  revert i j. induction l as [| h t IH]; intros [| i] [| j] H; simpl;
    try reflexivity; try congruence.
  apply IH. congruence.
Qed.

Lemma set_nth_same (i : nat) (l : list A) (d : A) :
  set_nth i (nth i l d) l = l.
Proof.
  revert i. induction l as [| h t IH]; intros [| i]; simpl;
    try reflexivity.
  now rewrite IH.
Qed.

End SetNth.

Section ArgsortFacts.

Variable v : list Z.

Abbreviation K := (Numpy.key_at v).
Abbreviation swap := Numpy.INTP_SWAP.

Lemma swap_length (a : list nat) (p q : nat) :
  List.length (swap a p q) = List.length a.
Proof. unfold Numpy.INTP_SWAP. now rewrite !set_nth_length. Qed.

Lemma swap_nth_l (a : list nat) (p q : nat) :
  (p < List.length a)%nat -> nth p (swap a p q) 0%nat = nth q a 0%nat.
Proof.
  intros Hp. unfold Numpy.INTP_SWAP.
  apply nth_set_nth_eq. now rewrite set_nth_length.
Qed.

Lemma swap_nth_r (a : list nat) (p q : nat) :
  (q < List.length a)%nat -> nth q (swap a p q) 0%nat = nth p a 0%nat.
Proof.
  intros Hq. unfold Numpy.INTP_SWAP.
  destruct (Nat.eq_dec p q) as [-> | Hne].
  - rewrite nth_set_nth_eq by now rewrite set_nth_length. reflexivity.
  - rewrite nth_set_nth_neq by exact Hne. now apply nth_set_nth_eq.
Qed.

Lemma swap_nth_other (a : list nat) (p q r : nat) :
  r <> p -> r <> q -> nth r (swap a p q) 0%nat = nth r a 0%nat.
Proof.
  intros Hp Hq. unfold Numpy.INTP_SWAP.
  now rewrite !nth_set_nth_neq by congruence.
Qed.

Lemma swap_perm (a : list nat) (p q : nat) :
  (p < List.length a)%nat -> (q < List.length a)%nat ->
  Permutation (swap a p q) a.
Proof.
  intros Hp Hq. apply Permutation_sym.
  apply Permutation_nth_error.
  split; [symmetry; apply swap_length |].
  exists (fun x => if Nat.eqb x p then q else if Nat.eqb x q then p else x).
  split.
  - intros x y.
    destruct (Nat.eqb_spec x p), (Nat.eqb_spec x q),
             (Nat.eqb_spec y p), (Nat.eqb_spec y q); lia.
  - intros x.
    destruct (Nat.lt_ge_cases x (List.length a)) as [Hx | Hx].
    + rewrite (nth_error_nth' (swap a p q) 0%nat) by now rewrite swap_length.
      destruct (Nat.eqb_spec x p) as [-> | Hxp].
      { rewrite (nth_error_nth' a 0%nat) by exact Hq. f_equal.
        now apply swap_nth_l. }
      destruct (Nat.eqb_spec x q) as [-> | Hxq].
      { rewrite (nth_error_nth' a 0%nat) by exact Hp. f_equal.
        now apply swap_nth_r. }
      rewrite (nth_error_nth' a 0%nat) by exact Hx. f_equal.
      now apply swap_nth_other.
    + destruct (Nat.eqb_spec x p); [lia |]. destruct (Nat.eqb_spec x q); [lia |].
      rewrite (proj2 (nth_error_None _ _)) by now rewrite swap_length.
      symmetry. now apply nth_error_None.
Qed.

(** [a'] is [a] with the entries of the positions from [lo] to [hi]
    rearranged. *)
Definition within (lo hi : nat) (a a' : list nat) : Prop :=
  List.length a' = List.length a
  /\ (forall p, (p < lo \/ hi < p)%nat -> nth p a' 0%nat = nth p a 0%nat)
  /\ (forall p, (lo <= p <= hi)%nat ->
        exists q, (lo <= q <= hi)%nat /\ nth p a' 0%nat = nth q a 0%nat)
  /\ Permutation a' a.

Lemma within_refl (lo hi : nat) (a : list nat) : within lo hi a a.
Proof.
  repeat split; auto. intros p Hp. now exists p.
Qed.

Lemma within_trans (lo hi : nat) (a b c : list nat) :
  within lo hi a b -> within lo hi b c -> within lo hi a c.
Proof.
  intros [L1 [O1 [I1 P1]]] [L2 [O2 [I2 P2]]].
  split; [congruence |]. split; [| split].
  - intros p Hp. now rewrite O2, O1.
  - intros p Hp. destruct (I2 p Hp) as [q [Hq ->]].
    destruct (I1 q Hq) as [r [Hr ->]]. now exists r.
  - eapply Permutation_trans; eassumption.
Qed.

Lemma within_weaken (lo hi lo' hi' : nat) (a b : list nat) :
  (lo' <= lo)%nat -> (hi <= hi')%nat ->
  within lo hi a b -> within lo' hi' a b.
Proof.
  intros Hlo Hhi [L [O [I P]]].
  split; [exact L |]. split; [| split; [| exact P]].
  - intros p Hp. apply O. lia.
  - intros p Hp.
    destruct (Nat.lt_ge_cases p lo) as [H1 | H1];
      [exists p; split; [lia | apply O; lia] |].
    destruct (Nat.lt_ge_cases hi p) as [H2 | H2];
      [exists p; split; [lia | apply O; lia] |].
    destruct (I p ltac:(lia)) as [q [Hq ->]]. exists q. split; [lia | reflexivity].
Qed.

Lemma within_swap (lo hi : nat) (a : list nat) (p q : nat) :
  (lo <= p <= hi)%nat -> (lo <= q <= hi)%nat -> (hi < List.length a)%nat ->
  within lo hi a (swap a p q).
Proof.
  intros Hp Hq Hhi.
  split; [apply swap_length |]. split; [| split].
  - intros r Hr. apply swap_nth_other; lia.
  - intros r Hr.
    destruct (Nat.eq_dec r p) as [-> | Hrp];
      [exists q; split; [lia | apply swap_nth_l; lia] |].
    destruct (Nat.eq_dec r q) as [-> | Hrq];
      [exists p; split; [lia | apply swap_nth_r; lia] |].
    exists r. split; [lia | now apply swap_nth_other].
  - apply swap_perm; lia.
Qed.

(** Keys of a range. *)
Definition sorted_range (a : list nat) (lo hi : nat) : Prop :=
  forall p q, (lo <= p)%nat -> (p <= q)%nat -> (q <= hi)%nat -> K a p <= K a q.

Definition le_range (a : list nat) (lo hi : nat) (bound : Z) : Prop :=
  forall p, (lo <= p <= hi)%nat -> K a p <= bound.

Definition ge_range (a : list nat) (lo hi : nat) (bound : Z) : Prop :=
  forall p, (lo <= p <= hi)%nat -> bound <= K a p.

Lemma within_le_range (lo hi : nat) (a b : list nat) (bound : Z) :
  within lo hi a b -> le_range a lo hi bound -> le_range b lo hi bound.
Proof.
  intros [_ [_ [I _]]] H p Hp. destruct (I p Hp) as [q [Hq E]].
  unfold Numpy.key_at. rewrite E. now apply H.
Qed.

Lemma within_ge_range (lo hi : nat) (a b : list nat) (bound : Z) :
  within lo hi a b -> ge_range a lo hi bound -> ge_range b lo hi bound.
Proof.
  intros [_ [_ [I _]]] H p Hp. destruct (I p Hp) as [q [Hq E]].
  unfold Numpy.key_at. rewrite E. now apply H.
Qed.

Lemma within_key_outside (lo hi : nat) (a b : list nat) (p : nat) :
  within lo hi a b -> (p < lo \/ hi < p)%nat -> K b p = K a p.
Proof.
  intros [_ [O _]] Hp. unfold Numpy.key_at. now rewrite O.
Qed.


Lemma key_set_nth_eq (a : list nat) (p x : nat) :
  (p < List.length a)%nat -> K (set_nth p x a) p = nth x v 0.
Proof.
  intros Hp. unfold Numpy.key_at. now rewrite nth_set_nth_eq.
Qed.

Lemma key_set_nth_neq (a : list nat) (p q x : nat) :
  p <> q -> K (set_nth p x a) q = K a q.
Proof.
  intros Hp. unfold Numpy.key_at. now rewrite nth_set_nth_neq.
Qed.

(** *** The insertion sort *)

Lemma shift_hole (a : list nat) (pj vi : nat) :
  (0 < pj)%nat -> (pj < List.length a)%nat ->
  set_nth (pj - 1) vi (set_nth pj (nth (pj - 1) a 0%nat) a)
  = swap (set_nth pj vi a) (pj - 1) pj.
Proof.
  intros H0 Hpj.
  apply (nth_ext _ _ 0%nat 0%nat).
  - now rewrite swap_length, !set_nth_length.
  - intros i Hi. rewrite !set_nth_length in Hi.
    destruct (Nat.eq_dec i (pj - 1)) as [-> | H1].
    + rewrite nth_set_nth_eq by (rewrite set_nth_length; lia).
      rewrite swap_nth_l by (rewrite set_nth_length; lia).
      now rewrite nth_set_nth_eq.
    + rewrite nth_set_nth_neq by congruence.
      destruct (Nat.eq_dec i pj) as [-> | H2].
      * rewrite nth_set_nth_eq by exact Hpj.
        rewrite swap_nth_r by (rewrite set_nth_length; lia).
        rewrite nth_set_nth_neq by lia. reflexivity.
      * rewrite nth_set_nth_neq by congruence.
        rewrite swap_nth_other by congruence.
        now rewrite nth_set_nth_neq by congruence.
Qed.

Lemma shift_up_spec (pl pi : nat) (a0 : list nat) (vi : nat) :
  forall (steps pj : nat) (a : list nat),
    (pl <= pj <= pi)%nat -> (pi < List.length a)%nat ->
    (pj - pl <= steps)%nat ->
    within pl pi a0 (set_nth pj vi a) ->
    (forall p q, (pl <= p)%nat -> (p <= q)%nat -> (q < pj)%nat ->
                 K a p <= K a q) ->
    sorted_range a (S pj) pi ->
    (forall p q, (pl <= p < pj)%nat -> (pj < q <= pi)%nat -> K a p <= K a q) ->
    (forall q, (pj < q <= pi)%nat -> nth vi v 0 < K a q) ->
    within pl pi a0 (Numpy.shift_up v steps pl vi pj a)
    /\ sorted_range (Numpy.shift_up v steps pl vi pj a) pl pi.
Proof.
  assert (Hstop : forall pj a,
            (pl <= pj <= pi)%nat -> (pi < List.length a)%nat ->
            (forall p q, (pl <= p)%nat -> (p <= q)%nat -> (q < pj)%nat ->
                         K a p <= K a q) ->
            sorted_range a (S pj) pi ->
            (forall p q, (pl <= p < pj)%nat -> (pj < q <= pi)%nat ->
                         K a p <= K a q) ->
            (forall q, (pj < q <= pi)%nat -> nth vi v 0 < K a q) ->
            ((pl < pj)%nat -> K a (pj - 1) <= nth vi v 0) ->
            sorted_range (set_nth pj vi a) pl pi).
  { intros pj a Hpj Hpi Hpre Hsuf Hcross Hgt Hle p q Hp Hpq Hq.
    destruct (Nat.eq_dec p q) as [-> | Hne]; [lia |].
    destruct (Nat.eq_dec q pj) as [-> | Hq1].
    - rewrite key_set_nth_eq by lia. rewrite key_set_nth_neq by lia.
      specialize (Hle ltac:(lia)).
      specialize (Hpre p (pj - 1)%nat ltac:(lia) ltac:(lia) ltac:(lia)). lia.
    - rewrite (key_set_nth_neq a pj q) by congruence.
      destruct (Nat.eq_dec p pj) as [-> | Hp1].
      + rewrite key_set_nth_eq by lia.
        specialize (Hgt q ltac:(lia)). lia.
      + rewrite key_set_nth_neq by congruence.
        destruct (Nat.lt_ge_cases q pj) as [H1 | H1]; [apply Hpre; lia |].
        destruct (Nat.lt_ge_cases p pj) as [H2 | H2]; [apply Hcross; lia |].
        apply Hsuf; lia. }
  induction steps as [| steps IH]; intros pj a Hpj Hpi Hsteps Hw Hpre Hsuf
    Hcross Hgt; cbn [Numpy.shift_up].
  - split; [exact Hw |]. apply Hstop; auto. lia.
  - destruct ((pl <? pj)%nat && (nth vi v 0 <? K a (pj - 1))) eqn:Ec.
    + apply andb_true_iff in Ec as [E1 E2].
      apply Nat.ltb_lt in E1. apply Z.ltb_lt in E2.
      apply IH.
      * lia.
      * now rewrite set_nth_length.
      * lia.
      * rewrite shift_hole by lia.
        eapply within_trans; [exact Hw |].
        apply within_swap; [lia | lia |].
        rewrite set_nth_length. lia.
      * intros p q Hp Hpq Hq. rewrite !key_set_nth_neq by lia.
        apply Hpre; lia.
      * replace (S (pj - 1)) with pj by lia.
        intros p q Hp Hpq Hq.
        destruct (Nat.eq_dec p q) as [-> | Hne]; [lia |].
        destruct (Nat.eq_dec p pj) as [-> | Hp1].
        -- rewrite key_set_nth_eq by lia. rewrite key_set_nth_neq by lia.
           change (nth (nth (pj - 1) a 0%nat) v 0) with (K a (pj - 1)).
           apply Hcross; lia.
        -- rewrite !key_set_nth_neq by lia. apply Hsuf; lia.
      * intros p q Hp Hq. rewrite (key_set_nth_neq a pj p) by lia.
        destruct (Nat.eq_dec q pj) as [-> | Hq1].
        -- rewrite key_set_nth_eq by lia.
           change (nth (nth (pj - 1) a 0%nat) v 0) with (K a (pj - 1)).
           apply Hpre; lia.
        -- rewrite key_set_nth_neq by lia. apply Hcross; lia.
      * intros q Hq.
        destruct (Nat.eq_dec q pj) as [-> | Hq1].
        -- rewrite key_set_nth_eq by lia. exact E2.
        -- rewrite key_set_nth_neq by lia. apply Hgt; lia.
    + split; [exact Hw |]. apply Hstop; auto.
      intros Hlt. apply andb_false_iff in Ec as [E | E].
      * apply Nat.ltb_ge in E. lia.
      * apply Z.ltb_ge in E. exact E.
Qed.

Lemma insertion_loop_spec (pl pr : nat) (a0 : list nat) :
  forall (count pi : nat) (a : list nat),
    (pi + count = S pr)%nat -> (pl < pi)%nat -> (pr < List.length a)%nat ->
    within pl pr a0 a ->
    (forall p q, (pl <= p)%nat -> (p <= q)%nat -> (q < pi)%nat ->
                 K a p <= K a q) ->
    within pl pr a0 (Numpy.insertion_loop v count pl pi a)
    /\ sorted_range (Numpy.insertion_loop v count pl pi a) pl pr.
Proof.
  induction count as [| count IH]; intros pi a Hcount Hpi Hpr Hw Hpre;
    cbn [Numpy.insertion_loop].
  - split; [exact Hw |]. intros p q Hp Hpq Hq. apply Hpre; lia.
  - destruct (shift_up_spec pl pi a (nth pi a 0%nat) pi pi a) as [Hw1 Hs1].
    + lia.
    + lia.
    + lia.
    + rewrite set_nth_same. apply within_refl.
    + exact Hpre.
    + intros p q Hp Hpq Hq. lia.
    + intros p q Hp Hq. lia.
    + intros q Hq. lia.
    + assert (Hlen : List.length
                       (Numpy.shift_up v pi pl (nth pi a 0%nat) pi a)
                     = List.length a) by apply Hw1.
      apply IH.
      * lia.
      * lia.
      * now rewrite Hlen.
      * eapply within_trans; [exact Hw |].
        apply (within_weaken pl pi); [lia | lia | exact Hw1].
      * intros p q Hp Hpq Hq. apply Hs1; lia.
Qed.

Lemma insertion_sort_spec (pl pr : nat) (a : list nat) :
  (pl <= pr)%nat -> (pr < List.length a)%nat ->
  within pl pr a (Numpy.insertion_sort v pl pr a)
  /\ sorted_range (Numpy.insertion_sort v pl pr a) pl pr.
Proof.
  intros Hle Hpr. unfold Numpy.insertion_sort.
  apply insertion_loop_spec.
  - lia.
  - lia.
  - exact Hpr.
  - apply within_refl.
  - intros p q Hp Hpq Hq. assert (p = q) by lia. subst. lia.
Qed.

(** *** The partition *)

Lemma key_swap_l (a : list nat) (p q : nat) :
  (p < List.length a)%nat -> K (swap a p q) p = K a q.
Proof. intros H. unfold Numpy.key_at. now rewrite swap_nth_l. Qed.

Lemma key_swap_r (a : list nat) (p q : nat) :
  (q < List.length a)%nat -> K (swap a p q) q = K a p.
Proof. intros H. unfold Numpy.key_at. now rewrite swap_nth_r. Qed.

Lemma key_swap_other (a : list nat) (p q r : nat) :
  r <> p -> r <> q -> K (swap a p q) r = K a r.
Proof. intros H1 H2. unfold Numpy.key_at. now rewrite swap_nth_other. Qed.

Lemma scan_up_spec (vp : Z) (a : list nat) (s : nat) :
  vp <= K a s ->
  forall (fuel p : nat),
    (p <= s)%nat -> (s - p < fuel)%nat ->
    (p <= Numpy.scan_up v fuel vp a p <= s)%nat
    /\ vp <= K a (Numpy.scan_up v fuel vp a p)
    /\ (forall t, (p <= t < Numpy.scan_up v fuel vp a p)%nat -> K a t < vp).
Proof.
  intros Hs. induction fuel as [| fuel IH]; intros p Hp Hfuel; [lia |].
  cbn [Numpy.scan_up].
  destruct (K a p <? vp) eqn:E.
  - apply Z.ltb_lt in E.
    assert (p <> s) by (intros ->; lia).
    destruct (IH (S p) ltac:(lia) ltac:(lia)) as [H1 [H2 H3]].
    split; [lia |]. split; [exact H2 |].
    intros t Ht. destruct (Nat.eq_dec t p) as [-> | Hne]; [exact E |].
    apply H3. lia.
  - apply Z.ltb_ge in E. split; [lia |]. split; [exact E |].
    intros t Ht. lia.
Qed.

Lemma scan_down_spec (vp : Z) (a : list nat) (s : nat) :
  K a s <= vp ->
  forall (fuel p : nat),
    (s <= p)%nat -> (p - s < fuel)%nat ->
    (s <= Numpy.scan_down v fuel vp a p <= p)%nat
    /\ K a (Numpy.scan_down v fuel vp a p) <= vp
    /\ (forall t, (Numpy.scan_down v fuel vp a p < t <= p)%nat -> vp < K a t).
Proof.
  intros Hs. induction fuel as [| fuel IH]; intros p Hp Hfuel; [lia |].
  cbn [Numpy.scan_down].
  destruct (vp <? K a p) eqn:E.
  - apply Z.ltb_lt in E.
    assert (p <> s) by (intros ->; lia).
    destruct (IH (p - 1)%nat ltac:(lia) ltac:(lia)) as [H1 [H2 H3]].
    split; [lia |]. split; [exact H2 |].
    intros t Ht. destruct (Nat.eq_dec t p) as [-> | Hne]; [exact E |].
    apply H3. lia.
  - apply Z.ltb_ge in E. split; [lia |]. split; [exact E |].
    intros t Ht. lia.
Qed.

Lemma partition_loop_spec (vp : Z) (pl pr : nat) (a0 : list nat) :
  forall (fuel pi pj : nat) (a : list nat),
    (pl <= pi)%nat -> (pi < pj)%nat -> (pj < pr)%nat ->
    (pr < List.length a)%nat -> (pj - pi <= fuel)%nat ->
    within pl pr a0 a ->
    le_range a pl pi vp -> ge_range a pj pr vp -> K a (pr - 1) = vp ->
    let res := Numpy.partition_loop v fuel vp pi pj a in
    (pl < fst res < pr)%nat
    /\ within pl pr a0 (snd res)
    /\ le_range (snd res) pl (fst res - 1) vp
    /\ ge_range (snd res) (fst res) pr vp
    /\ K (snd res) (pr - 1) = vp.
Proof.
  induction fuel as [| fuel IH]; intros pi pj a Hpl Hlt Hpj Hpr Hfuel Hw
    Hle Hge Hpiv; [lia |].
  cbn [Numpy.partition_loop].
  destruct (scan_up_spec vp a pj (Hge pj ltac:(lia)) (List.length a) (S pi)
              ltac:(lia) ltac:(lia)) as [U1 [U2 U3]].
  destruct (scan_down_spec vp a pi (Hle pi ltac:(lia)) (List.length a)
              (pj - 1)%nat ltac:(lia) ltac:(lia)) as [D1 [D2 D3]].
  set (pi' := Numpy.scan_up v (List.length a) vp a (S pi)) in *.
  set (pj' := Numpy.scan_down v (List.length a) vp a (pj - 1)) in *.
  destruct (pj' <=? pi')%nat eqn:E.
  - apply Nat.leb_le in E. cbn [fst snd].
    split; [lia |]. split; [exact Hw |]. split; [| split; [| exact Hpiv]].
    + intros t Ht.
      destruct (Nat.lt_ge_cases pi t) as [H1 | H1].
      * specialize (U3 t ltac:(lia)). lia.
      * apply Hle. lia.
    + intros t Ht.
      destruct (Nat.eq_dec t pi') as [-> | Hne]; [exact U2 |].
      destruct (Nat.lt_ge_cases t pj) as [H1 | H1].
      * specialize (D3 t ltac:(lia)). lia.
      * apply Hge. lia.
  - apply Nat.leb_gt in E.
    apply IH.
    + lia.
    + exact E.
    + lia.
    + now rewrite swap_length.
    + lia.
    + eapply within_trans; [exact Hw |]. apply within_swap; lia.
    + intros t Ht.
      destruct (Nat.eq_dec t pi') as [-> | Hne].
      * rewrite key_swap_l by lia. exact D2.
      * rewrite key_swap_other by lia.
        destruct (Nat.lt_ge_cases pi t) as [H1 | H1].
        -- specialize (U3 t ltac:(lia)). lia.
        -- apply Hle. lia.
    + intros t Ht.
      destruct (Nat.eq_dec t pj') as [-> | Hne].
      * rewrite key_swap_r by lia. exact U2.
      * rewrite key_swap_other by lia.
        destruct (Nat.lt_ge_cases t pj) as [H1 | H1].
        -- specialize (D3 t ltac:(lia)). lia.
        -- apply Hge. lia.
    + rewrite key_swap_other by lia. exact Hpiv.
Qed.

Lemma median_of_three (pl pm pr : nat) (a : list nat) :
  (pl < pm)%nat -> (pm < pr)%nat -> (pr < List.length a)%nat ->
  let a1 := if K a pm <? K a pl then swap a pm pl else a in
  let a2 := if K a1 pr <? K a1 pm then swap a1 pr pm else a1 in
  let a3 := if K a2 pm <? K a2 pl then swap a2 pm pl else a2 in
  within pl pr a a3 /\ K a3 pl <= K a3 pm /\ K a3 pm <= K a3 pr.
Proof.
  intros H1 H2 H3 a1 a2 a3.
  assert (W1 : within pl pr a a1).
  { unfold a1. destruct (K a pm <? K a pl);
      [apply within_swap; lia | apply within_refl]. }
  assert (L1 : List.length a1 = List.length a) by apply W1.
  assert (K1 : K a1 pl <= K a1 pm /\ K a1 pr = K a pr).
  { unfold a1. destruct (K a pm <? K a pl) eqn:E.
    - apply Z.ltb_lt in E.
      rewrite key_swap_l, key_swap_r, key_swap_other by lia. lia.
    - apply Z.ltb_ge in E. lia. }
  assert (W2 : within pl pr a a2).
  { unfold a2. destruct (K a1 pr <? K a1 pm);
      [| exact W1].
    eapply within_trans; [exact W1 |]. apply within_swap; lia. }
  assert (L2 : List.length a2 = List.length a) by apply W2.
  assert (K2 : K a2 pm <= K a2 pr /\ K a2 pl <= K a2 pr).
  { unfold a2. destruct (K a1 pr <? K a1 pm) eqn:E.
    - apply Z.ltb_lt in E.
      rewrite key_swap_l, key_swap_r, key_swap_other by lia. lia.
    - apply Z.ltb_ge in E. lia. }
  assert (W3 : within pl pr a a3).
  { unfold a3. destruct (K a2 pm <? K a2 pl);
      [| exact W2].
    eapply within_trans; [exact W2 |]. apply within_swap; lia. }
  split; [exact W3 |].
  unfold a3. destruct (K a2 pm <? K a2 pl) eqn:E.
  - apply Z.ltb_lt in E.
    rewrite key_swap_l, key_swap_r, key_swap_other by lia. lia.
  - apply Z.ltb_ge in E. lia.
Qed.

Lemma partition_spec (pl pr : nat) (a : list nat) :
  (pl + 2 <= pr)%nat -> (pr < List.length a)%nat ->
  let res := Numpy.partition v pl pr a in
  (pl < fst res < pr)%nat
  /\ within pl pr a (snd res)
  /\ le_range (snd res) pl (fst res - 1) (K (snd res) (fst res))
  /\ ge_range (snd res) (S (fst res)) pr (K (snd res) (fst res)).
Proof.
  intros Hsize Hpr. unfold Numpy.partition.
  set (pm := (pl + (pr - pl) / 2)%nat).
  assert (Hpm : (pl < pm < pr)%nat).
  { unfold pm.
    pose proof (Nat.div_mod_eq (pr - pl) 2) as Hd.
    pose proof (Nat.mod_upper_bound (pr - pl) 2 ltac:(lia)) as Hm. lia. }
  destruct (median_of_three pl pm pr a ltac:(lia) ltac:(lia) Hpr)
    as [W3 [M1 M2]].
  set (a3 := if K _ pm <? K _ pl then _ else _) in *.
  assert (L3 : List.length a3 = List.length a) by apply W3.
  set (vp := K a3 pm) in *.
  set (a4 := swap a3 pm (pr - 1)).
  assert (W4 : within pl pr a a4).
  { eapply within_trans; [exact W3 |]. apply within_swap; lia. }
  assert (L4 : List.length a4 = List.length a) by apply W4.
  assert (Kpiv : K a4 (pr - 1) = vp)
    by (unfold a4; rewrite key_swap_r by lia; reflexivity).
  assert (Kpl : K a4 pl <= vp)
    by (unfold a4; rewrite key_swap_other by lia; exact M1).
  assert (Kpr : vp <= K a4 pr)
    by (unfold a4; rewrite key_swap_other by lia; exact M2).
  destruct (partition_loop_spec vp pl pr a (List.length a4) pl (pr - 1)%nat a4)
    as [R1 [R2 [R3 [R4 R5]]]].
  - lia.
  - lia.
  - lia.
  - lia.
  - lia.
  - exact W4.
  - intros t Ht. assert (t = pl) by lia. subst. exact Kpl.
  - intros t Ht. assert (Hc : t = (pr - 1)%nat \/ t = pr) by lia.
    destruct Hc as [-> | ->]; [lia | exact Kpr].
  - exact Kpiv.
  - destruct (Numpy.partition_loop v (List.length a4) vp pl (pr - 1) a4)
      as [pi a5].
    cbn [fst snd] in *.
    assert (L5 : List.length a5 = List.length a) by apply R2.
    assert (Kpi : K (swap a5 pi (pr - 1)) pi = vp).
    { destruct (Nat.eq_dec pi (pr - 1)) as [-> | Hne].
      - rewrite key_swap_l by lia. exact R5.
      - rewrite key_swap_l by lia. exact R5. }
    split; [lia |]. split; [| split].
    + eapply within_trans; [exact R2 |]. apply within_swap; lia.
    + rewrite Kpi. intros t Ht. rewrite key_swap_other by lia. apply R3. lia.
    + rewrite Kpi. intros t Ht.
      destruct (Nat.eq_dec t (pr - 1)) as [-> | Hne].
      * rewrite key_swap_r by lia. apply R4. lia.
      * rewrite key_swap_other by lia. apply R4. lia.
Qed.

(** *** The heap sort *)

(** Node [k] of the heap, counted from 1, sits at position
    [base + k - 1]; from node [l0] on, no child has a greater key than
    its parent. *)
Definition heap_from (base n l0 : nat) (a : list nat) : Prop :=
  forall k c, (l0 <= k)%nat -> (c <= n)%nat ->
              (c = 2 * k \/ c = 2 * k + 1)%nat ->
              K a (base + c - 1) <= K a (base + k - 1).

Lemma move_hole (a : list nat) (p q x : nat) :
  p <> q -> (p < List.length a)%nat -> (q < List.length a)%nat ->
  set_nth q x (set_nth p (nth q a 0%nat) a) = swap (set_nth p x a) p q.
Proof.
  intros Hne Hp Hq.
  apply (nth_ext _ _ 0%nat 0%nat).
  - now rewrite swap_length, !set_nth_length.
  - intros i Hi. rewrite !set_nth_length in Hi.
    destruct (Nat.eq_dec i q) as [-> | H1].
    + rewrite nth_set_nth_eq by (rewrite set_nth_length; lia).
      rewrite swap_nth_r by (rewrite set_nth_length; lia).
      now rewrite nth_set_nth_eq.
    + rewrite nth_set_nth_neq by congruence.
      destruct (Nat.eq_dec i p) as [-> | H2].
      * rewrite nth_set_nth_eq by exact Hp.
        rewrite swap_nth_l by (rewrite set_nth_length; lia).
        rewrite nth_set_nth_neq by lia. reflexivity.
      * rewrite nth_set_nth_neq by congruence.
        rewrite swap_nth_other by congruence.
        now rewrite nth_set_nth_neq by congruence.
Qed.

Section Sift.

Variables base n l0 lo hi tmp : nat.
Variable a0 : list nat.
Hypothesis l0_pos : (1 <= l0)%nat.
Hypothesis lo_base : (lo <= base)%nat.
Hypothesis hi_base : (base + n - 1 <= hi)%nat.

Lemma filled_heap (i : nat) (a : list nat) :
  (l0 <= i <= n)%nat -> (hi < List.length a)%nat ->
  (forall k c, (l0 <= k)%nat -> k <> i -> c <> i -> (c <= n)%nat ->
               (c = 2 * k \/ c = 2 * k + 1)%nat ->
               K a (base + c - 1) <= K a (base + k - 1)) ->
  (forall p, (l0 <= p)%nat -> (i = 2 * p \/ i = 2 * p + 1)%nat ->
             nth tmp v 0 <= K a (base + p - 1)) ->
  (forall c, (c <= n)%nat -> (c = 2 * i \/ c = 2 * i + 1)%nat ->
             K a (base + c - 1) <= nth tmp v 0) ->
  heap_from base n l0 (set_nth (base + i - 1) tmp a).
Proof.
  intros Hi Hlen I1 I2 I3 k c Hk Hc Hchild.
  destruct (Nat.eq_dec k i) as [-> | Hki].
  - rewrite key_set_nth_eq by lia. rewrite key_set_nth_neq by lia.
    now apply I3.
  - rewrite (key_set_nth_neq a (base + i - 1) (base + k - 1)) by lia.
    destruct (Nat.eq_dec c i) as [-> | Hci].
    + rewrite key_set_nth_eq by lia. now apply I2.
    + rewrite key_set_nth_neq by lia. now apply I1.
Qed.

Lemma sift_spec :
  forall (fuel i : nat) (a : list nat),
    (l0 <= i <= n)%nat -> (n + 1 - i <= fuel)%nat ->
    (hi < List.length a)%nat ->
    within lo hi a0 (set_nth (base + i - 1) tmp a) ->
    (forall k c, (l0 <= k)%nat -> k <> i -> c <> i -> (c <= n)%nat ->
                 (c = 2 * k \/ c = 2 * k + 1)%nat ->
                 K a (base + c - 1) <= K a (base + k - 1)) ->
    (forall p, (l0 <= p)%nat -> (i = 2 * p \/ i = 2 * p + 1)%nat ->
               nth tmp v 0 <= K a (base + p - 1)
               /\ forall c, (c <= n)%nat -> (c = 2 * i \/ c = 2 * i + 1)%nat ->
                            K a (base + c - 1) <= K a (base + p - 1)) ->
    within lo hi a0 (Numpy.sift v fuel base n tmp i (i + i) a)
    /\ heap_from base n l0 (Numpy.sift v fuel base n tmp i (i + i) a).
Proof.
  induction fuel as [| fuel IH]; intros i a Hi Hfuel Hlen Hw I1 I2; [lia |].
  cbn [Numpy.sift]. unfold Numpy.heap_at, Numpy.heap_set.
  destruct (i + i <=? n)%nat eqn:Ej.
  - apply Nat.leb_le in Ej.
    set (j := if ((i + i <? n)%nat
                  && (nth (nth (base + (i + i) - 1) a 0%nat) v 0
                      <? nth (nth (base + (i + i + 1) - 1) a 0%nat) v 0))
              then S (i + i) else (i + i)%nat).
    assert (Hj : (j = 2 * i \/ j = 2 * i + 1)%nat /\ (j <= n)%nat
                 /\ forall c, (c <= n)%nat -> (c = 2 * i \/ c = 2 * i + 1)%nat ->
                              K a (base + c - 1) <= K a (base + j - 1)).
    { unfold j.
      destruct ((i + i <? n)%nat
                && (nth (nth (base + (i + i) - 1) a 0%nat) v 0
                    <? nth (nth (base + (i + i + 1) - 1) a 0%nat) v 0)) eqn:E.
      - apply andb_true_iff in E as [E1 E2].
        apply Nat.ltb_lt in E1. apply Z.ltb_lt in E2.
        split; [lia |]. split; [lia |].
        intros c Hc [-> | ->].
        + replace (base + S (i + i) - 1)%nat with (base + (i + i + 1) - 1)%nat
            by lia.
          replace (2 * i)%nat with (i + i)%nat by lia.
          unfold Numpy.key_at. lia.
        + replace (base + S (i + i) - 1)%nat with (base + (2 * i + 1) - 1)%nat
            by lia. lia.
      - split; [lia |]. split; [lia |].
        intros c Hc [-> | ->].
        + replace (2 * i)%nat with (i + i)%nat by lia. lia.
        + apply andb_false_iff in E as [E | E].
          * apply Nat.ltb_ge in E. lia.
          * apply Z.ltb_ge in E.
            replace (2 * i + 1)%nat with (i + i + 1)%nat by lia.
            unfold Numpy.key_at. lia. }
    clearbody j. destruct Hj as [Hj1 [Hj2 Hj3]].
    change (nth (nth (base + j - 1) a 0%nat) v 0) with (K a (base + j - 1)).
    destruct (nth tmp v 0 <? K a (base + j - 1)) eqn:Et.
    + apply Z.ltb_lt in Et.
      apply IH.
      * lia.
      * lia.
      * now rewrite set_nth_length.
      * rewrite move_hole by lia.
        eapply within_trans; [exact Hw |].
        apply within_swap; [lia | lia |].
        rewrite set_nth_length. lia.
      * intros k c Hk Hkj Hcj Hc Hchild.
        destruct (Nat.eq_dec k i) as [-> | Hki].
        -- rewrite key_set_nth_eq by lia. rewrite key_set_nth_neq by lia.
           change (nth (nth (base + j - 1) a 0%nat) v 0)
             with (K a (base + j - 1)).
           now apply Hj3.
        -- rewrite (key_set_nth_neq a (base + i - 1) (base + k - 1)) by lia.
           destruct (Nat.eq_dec c i) as [-> | Hci].
           ++ rewrite key_set_nth_eq by lia.
              change (nth (nth (base + j - 1) a 0%nat) v 0)
                with (K a (base + j - 1)).
              destruct (I2 k Hk Hchild) as [_ H2]. now apply H2.
           ++ rewrite key_set_nth_neq by lia. now apply I1.
      * intros p Hp Hchild. assert (p = i) by lia. subst p.
        rewrite key_set_nth_eq by lia.
        change (nth (nth (base + j - 1) a 0%nat) v 0) with (K a (base + j - 1)).
        split; [lia |].
        intros c Hc Hcc. rewrite key_set_nth_neq by lia.
        apply I1; lia.
    + apply Z.ltb_ge in Et. split; [exact Hw |].
      apply filled_heap; auto.
      * intros p Hp Hc. now apply (I2 p).
      * intros c Hc Hcc. specialize (Hj3 c Hc Hcc). lia.
  - apply Nat.leb_gt in Ej. split; [exact Hw |].
    apply filled_heap; auto.
    + intros p Hp Hc. now apply (I2 p).
    + intros c Hc Hcc. lia.
Qed.

End Sift.

Lemma heapify_spec (base n lo hi : nat) (a0 : list nat) :
  (lo <= base)%nat -> (base + n - 1 <= hi)%nat ->
  forall (l : nat) (a : list nat),
    (l <= n)%nat -> (hi < List.length a)%nat ->
    within lo hi a0 a -> heap_from base n (S l) a ->
    within lo hi a0 (Numpy.heapify v l base n a)
    /\ heap_from base n 1 (Numpy.heapify v l base n a).
Proof.
  intros Hlo Hhi. induction l as [| l IH]; intros a Hl Hlen Hw Hheap;
    cbn [Numpy.heapify]; [now split |].
  unfold Numpy.heap_at.
  destruct (sift_spec base n (S l) lo hi (nth (base + S l - 1) a 0%nat) a0
              ltac:(lia) Hlo Hhi n (S l) a) as [Hw1 Hh1].
  - lia.
  - lia.
  - exact Hlen.
  - now rewrite set_nth_same.
  - intros k c Hk Hki Hci Hc Hchild. apply Hheap; [lia | exact Hc | exact Hchild].
  - intros p Hp Hchild. lia.
  - apply IH.
    + lia.
    + destruct Hw1 as [L1 _]. destruct Hw as [L _]. lia.
    + exact Hw1.
    + exact Hh1.
Qed.

Lemma heap_root_max (base n : nat) (a : list nat) :
  heap_from base n 1 a ->
  forall k, (1 <= k <= n)%nat -> K a (base + k - 1) <= K a (base + 1 - 1).
Proof.
  intros Hheap k. induction k as [k IH] using lt_wf_ind. intros Hk.
  destruct (Nat.eq_dec k 1) as [-> | Hne]; [lia |].
  pose proof (Nat.div_mod_eq k 2) as Hd.
  pose proof (Nat.mod_upper_bound k 2 ltac:(lia)) as Hm.
  assert (Hp : (1 <= k / 2)%nat) by lia.
  specialize (IH (k / 2)%nat ltac:(lia) ltac:(lia)).
  specialize (Hheap (k / 2)%nat k Hp ltac:(lia) ltac:(lia)).
  lia.
Qed.

Lemma sort_down_spec (base N lo hi : nat) (a0 : list nat) :
  (lo <= base)%nat -> (base + N - 1 <= hi)%nat ->
  forall (n : nat) (a : list nat),
    (n <= N)%nat -> (hi < List.length a)%nat ->
    within lo hi a0 a ->
    heap_from base n 1 a ->
    (forall c1 c2, (n < c1)%nat -> (c1 <= c2)%nat -> (c2 <= N)%nat ->
                   K a (base + c1 - 1) <= K a (base + c2 - 1)) ->
    (forall k c, (1 <= k <= n)%nat -> (n < c <= N)%nat ->
                 K a (base + k - 1) <= K a (base + c - 1)) ->
    within lo hi a0 (Numpy.sort_down v n base a)
    /\ (forall k1 k2, (1 <= k1)%nat -> (k1 <= k2)%nat -> (k2 <= N)%nat ->
          K (Numpy.sort_down v n base a) (base + k1 - 1)
          <= K (Numpy.sort_down v n base a) (base + k2 - 1)).
Proof.
  intros Hlo Hhi. induction n as [| n IH]; intros a Hn Hlen Hw Hheap Hsuf Hcross.
  { cbn [Numpy.sort_down]. split; [exact Hw |].
    intros k1 k2 H1 H12 H2. apply Hsuf; lia. }
  cbn [Numpy.sort_down]. destruct n as [| m].
  { split; [exact Hw |]. intros k1 k2 H1 H12 H2.
    destruct (Nat.eq_dec k1 k2) as [-> | Hne]; [lia |].
    destruct (Nat.eq_dec k1 1) as [-> | H1'].
    - apply Hcross; lia.
    - apply Hsuf; lia. }
  unfold Numpy.heap_at, Numpy.heap_set.
  set (n := S (S m)) in *.
  set (tmp := nth (base + n - 1) a 0%nat).
  set (a1 := set_nth (base + n - 1) (nth (base + 1 - 1) a 0%nat) a).
  set (f1 := set_nth (base + 1 - 1) tmp a1).
  assert (Hf1 : f1 = swap a (base + 1 - 1) (base + n - 1)) by reflexivity.
  assert (Hwf : within lo hi a f1).
  { rewrite Hf1. apply within_swap; lia. }
  assert (La1 : List.length a1 = List.length a)
    by (unfold a1; apply set_nth_length).
  change 2%nat with (1 + 1)%nat.
  destruct (sift_spec base (S m) 1 base (base + S m - 1) tmp f1
              ltac:(lia) ltac:(lia) ltac:(lia) (S m) 1%nat a1)
    as [Hw2 Hh2].
  - lia.
  - lia.
  - lia.
  - apply within_refl.
  - intros k c Hk Hk1 Hc1 Hc Hchild. unfold a1.
    rewrite !key_set_nth_neq by lia.
    apply Hheap; [lia | lia | exact Hchild].
  - intros p Hp Hchild. lia.
  - set (a2 := Numpy.sift v (S m) base (S m) tmp 1 (1 + 1) a1) in *.
    assert (La2 : List.length a2 = List.length a).
    { destruct Hw2 as [L _]. destruct Hwf as [L' _]. lia. }
    assert (Kf1_root : K f1 (base + 1 - 1) = K a (base + n - 1))
      by (rewrite Hf1; apply key_swap_l; lia).
    assert (Kf1_last : K f1 (base + n - 1) = K a (base + 1 - 1))
      by (rewrite Hf1; apply key_swap_r; lia).
    assert (Kf1_other : forall q, q <> (base + 1 - 1)%nat ->
                                  q <> (base + n - 1)%nat -> K f1 q = K a q)
      by (intros q H1 H2; rewrite Hf1; now apply key_swap_other).
    assert (Hout : forall q, (base + S m - 1 < q)%nat -> K a2 q = K f1 q)
      by (intros q Hq; apply (within_key_outside base (base + S m - 1));
          [exact Hw2 | lia]).
    assert (Hval : forall k, (1 <= k <= S m)%nat ->
                     exists k', (1 <= k' <= n)%nat
                                /\ K a2 (base + k - 1) = K a (base + k' - 1)).
    { intros k Hk. destruct Hw2 as [_ [_ [I _]]].
      destruct (I (base + k - 1)%nat ltac:(lia)) as [q [Hq E]].
      assert (E' : K a2 (base + k - 1) = K f1 q)
        by (unfold Numpy.key_at; now rewrite E).
      destruct (Nat.eq_dec q (base + 1 - 1)) as [-> | Hne].
      - exists n. split; [lia |]. now rewrite E', Kf1_root.
      - exists (q - base + 1)%nat. split; [lia |].
        rewrite E', Kf1_other by lia. f_equal. lia. }
    apply IH.
    + lia.
    + lia.
    + eapply within_trans; [exact Hw |].
      eapply within_trans; [exact Hwf |].
      apply (within_weaken base (base + S m - 1)); [lia | lia | exact Hw2].
    + exact Hh2.
    + intros c1 c2 H1 H12 H2.
      rewrite !Hout by lia.
      destruct (Nat.eq_dec c1 c2) as [-> | Hne]; [lia |].
      destruct (Nat.eq_dec c1 n) as [-> | Hc1].
      * rewrite Kf1_last, Kf1_other by lia. apply Hcross; lia.
      * rewrite !Kf1_other by lia. apply Hsuf; lia.
    + intros k c Hk Hc.
      destruct (Hval k Hk) as [k' [Hk' ->]].
      rewrite Hout by lia.
      destruct (Nat.eq_dec c n) as [-> | Hcn].
      * rewrite Kf1_last. now apply heap_root_max with n.
      * rewrite Kf1_other by lia. apply Hcross; lia.
Qed.

Lemma aheapsort_spec (base n : nat) (a : list nat) :
  (1 <= n)%nat -> (base + n <= List.length a)%nat ->
  within base (base + n - 1) a (Numpy.aheapsort v base n a)
  /\ sorted_range (Numpy.aheapsort v base n a) base (base + n - 1).
Proof.
  intros Hn Hlen. unfold Numpy.aheapsort.
  pose proof (Nat.div_mod_eq n 2) as Hd.
  pose proof (Nat.mod_upper_bound n 2 ltac:(lia)) as Hm.
  destruct (heapify_spec base n base (base + n - 1) a ltac:(lia) ltac:(lia)
              (n / 2)%nat a) as [Hw1 Hh1].
  - lia.
  - lia.
  - apply within_refl.
  - intros k c Hk Hc Hchild. lia.
  - destruct (sort_down_spec base n base (base + n - 1) a ltac:(lia) ltac:(lia)
                n (Numpy.heapify v (n / 2) base n a)) as [Hw2 Hs2].
    + lia.
    + destruct Hw1 as [L _]. lia.
    + exact Hw1.
    + exact Hh1.
    + intros c1 c2 H1 H12 H2. lia.
    + intros k c Hk Hc. lia.
    + split; [exact Hw2 |].
      intros p q Hp Hpq Hq.
      specialize (Hs2 (p - base + 1)%nat (q - base + 1)%nat
                      ltac:(lia) ltac:(lia) ltac:(lia)).
      replace (base + (p - base + 1) - 1)%nat with p in Hs2 by lia.
      replace (base + (q - base + 1) - 1)%nat with q in Hs2 by lia.
      exact Hs2.
Qed.

(** *** The introsort *)

Lemma sorted_join (a : list nat) (pl pi pr : nat) :
  (pl < pi < pr)%nat ->
  sorted_range a pl (pi - 1) -> sorted_range a (pi + 1) pr ->
  le_range a pl (pi - 1) (K a pi) -> ge_range a (pi + 1) pr (K a pi) ->
  sorted_range a pl pr.
Proof.
  intros Hpi Hl Hr Hle Hge p q Hp Hpq Hq.
  destruct (Nat.lt_ge_cases q pi) as [H1 | H1]; [apply Hl; lia |].
  destruct (Nat.lt_ge_cases pi p) as [H2 | H2]; [apply Hr; lia |].
  destruct (Nat.eq_dec p pi) as [-> | Hp1];
    destruct (Nat.eq_dec q pi) as [-> | Hq1]; try lia.
  - apply Hge; lia.
  - apply Hle; lia.
  - specialize (Hle p ltac:(lia)). specialize (Hge q ltac:(lia)). lia.
Qed.

Lemma within_sorted_outside (lo hi lo' hi' : nat) (a b : list nat) :
  within lo hi a b -> (hi' < lo \/ hi < lo')%nat ->
  sorted_range a lo' hi' -> sorted_range b lo' hi'.
Proof.
  intros Hw Hdis Hs p q Hp Hpq Hq.
  rewrite !(within_key_outside lo hi a b) by (exact Hw || lia).
  now apply Hs.
Qed.

Lemma within_le_outside (lo hi lo' hi' : nat) (a b : list nat) (bound : Z) :
  within lo hi a b -> (hi' < lo \/ hi < lo')%nat ->
  le_range a lo' hi' bound -> le_range b lo' hi' bound.
Proof.
  intros Hw Hdis Hs p Hp.
  rewrite (within_key_outside lo hi a b) by (exact Hw || lia).
  now apply Hs.
Qed.

Lemma within_ge_outside (lo hi lo' hi' : nat) (a b : list nat) (bound : Z) :
  within lo hi a b -> (hi' < lo \/ hi < lo')%nat ->
  ge_range a lo' hi' bound -> ge_range b lo' hi' bound.
Proof.
  intros Hw Hdis Hs p Hp.
  rewrite (within_key_outside lo hi a b) by (exact Hw || lia).
  now apply Hs.
Qed.

Lemma sort_range_spec :
  forall (fuel : nat) (popped : bool) (cdepth : Z) (pl pr : nat)
         (a : list nat),
    (pl <= pr)%nat -> (pr < List.length a)%nat -> (pr + 1 - pl < fuel)%nat ->
    within pl pr a (Numpy.sort_range v fuel popped cdepth pl pr a)
    /\ sorted_range (Numpy.sort_range v fuel popped cdepth pl pr a) pl pr.
Proof.
  induction fuel as [| fuel IH]; intros popped cdepth pl pr a Hle Hpr Hfuel;
    [lia |].
  cbn [Numpy.sort_range].
  destruct (popped && (cdepth <? 0)).
  { destruct (aheapsort_spec pl (pr + 1 - pl) a ltac:(lia) ltac:(lia))
      as [Hw Hs].
    replace (pl + (pr + 1 - pl) - 1)%nat with pr in * by lia.
    now split. }
  destruct (Numpy.SMALL_QUICKSORT <? pr + 1 - pl)%nat eqn:Esize;
    [| now apply insertion_sort_spec].
  apply Nat.ltb_lt in Esize. unfold Numpy.SMALL_QUICKSORT in Esize.
  destruct (partition_spec pl pr a ltac:(lia) Hpr) as [Hpi [Hw1 [Hle1 Hge1]]].
  destruct (Numpy.partition v pl pr a) as [pi a1]. cbn [fst snd] in *.
  replace (S pi) with (pi + 1)%nat in Hge1 by lia.
  assert (L1 : List.length a1 = List.length a) by apply Hw1.
  destruct (pi - pl <? pr - pi)%nat.
  - destruct (IH false (cdepth - 1) pl (pi - 1)%nat a1
                ltac:(lia) ltac:(lia) ltac:(lia)) as [Hw2 Hs2].
    set (a2 := Numpy.sort_range v fuel false (cdepth - 1) pl (pi - 1) a1) in *.
    assert (L2 : List.length a2 = List.length a1) by apply Hw2.
    destruct (IH true (cdepth - 1) (pi + 1)%nat pr a2
                ltac:(lia) ltac:(lia) ltac:(lia)) as [Hw3 Hs3].
    set (a3 := Numpy.sort_range v fuel true (cdepth - 1) (pi + 1) pr a2) in *.
    assert (Kpi : K a3 pi = K a1 pi).
    { rewrite (within_key_outside (pi + 1) pr a2 a3) by (exact Hw3 || lia).
      apply (within_key_outside pl (pi - 1)); [exact Hw2 | lia]. }
    split.
    + eapply within_trans; [exact Hw1 |].
      eapply within_trans;
        [apply (within_weaken pl (pi - 1)); [| | exact Hw2]; lia |].
      apply (within_weaken (pi + 1) pr); [lia | lia | exact Hw3].
    + apply (sorted_join a3 pl pi pr Hpi).
      * apply (within_sorted_outside (pi + 1) pr _ _ a2); [exact Hw3 | lia |].
        exact Hs2.
      * exact Hs3.
      * rewrite Kpi.
        apply (within_le_outside (pi + 1) pr _ _ a2); [exact Hw3 | lia |].
        apply (within_le_range pl (pi - 1) a1); [exact Hw2 | exact Hle1].
      * rewrite Kpi.
        apply (within_ge_range (pi + 1) pr a2); [exact Hw3 |].
        apply (within_ge_outside pl (pi - 1) _ _ a1); [exact Hw2 | lia |].
        exact Hge1.
  - destruct (IH false (cdepth - 1) (pi + 1)%nat pr a1
                ltac:(lia) ltac:(lia) ltac:(lia)) as [Hw2 Hs2].
    set (a2 := Numpy.sort_range v fuel false (cdepth - 1) (pi + 1) pr a1) in *.
    assert (L2 : List.length a2 = List.length a1) by apply Hw2.
    destruct (IH true (cdepth - 1) pl (pi - 1)%nat a2
                ltac:(lia) ltac:(lia) ltac:(lia)) as [Hw3 Hs3].
    set (a3 := Numpy.sort_range v fuel true (cdepth - 1) pl (pi - 1) a2) in *.
    assert (Kpi : K a3 pi = K a1 pi).
    { rewrite (within_key_outside pl (pi - 1) a2 a3) by (exact Hw3 || lia).
      apply (within_key_outside (pi + 1) pr); [exact Hw2 | lia]. }
    split.
    + eapply within_trans; [exact Hw1 |].
      eapply within_trans;
        [apply (within_weaken (pi + 1) pr); [| | exact Hw2]; lia |].
      apply (within_weaken pl (pi - 1)); [lia | lia | exact Hw3].
    + apply (sorted_join a3 pl pi pr Hpi).
      * exact Hs3.
      * apply (within_sorted_outside pl (pi - 1) _ _ a2); [exact Hw3 | lia |].
        exact Hs2.
      * rewrite Kpi.
        apply (within_le_range pl (pi - 1) a2); [exact Hw3 |].
        apply (within_le_outside (pi + 1) pr _ _ a1); [exact Hw2 | lia |].
        exact Hle1.
      * rewrite Kpi.
        apply (within_ge_outside pl (pi - 1) _ _ a2); [exact Hw3 | lia |].
        apply (within_ge_range (pi + 1) pr a1); [exact Hw2 | exact Hge1].
Qed.

Lemma aquicksort_spec :
  Permutation (Numpy.aquicksort v) (seq 0 (List.length v))
  /\ sorted_range (Numpy.aquicksort v) 0 (List.length v - 1).
Proof.
  unfold Numpy.aquicksort.
  destruct (List.length v) as [| m] eqn:E.
  - split; [apply Permutation_refl |].
    intros p q Hp Hpq Hq. assert (p = q) by lia. subst. lia.
  - rewrite <- E.
    destruct (sort_range_spec (S (List.length v)) true
                (Z.log2 (Z.of_nat (List.length v)) * 2) 0
                (List.length v - 1) (seq 0 (List.length v)))
      as [[_ [_ [_ Hp]]] Hs].
    + lia.
    + rewrite length_seq. lia.
    + lia.
    + split; [exact Hp | exact Hs].
Qed.

End ArgsortFacts.

Lemma take_seq {A : Type} (l pre : list A) :
  take (pre ++ l) (seq (List.length pre) (List.length l)) = l.
Proof.
  revert pre. induction l as [| x l IH]; intros pre; [reflexivity |].
  cbn [List.length seq]. unfold take in *. cbn [flat_map].
  rewrite nth_error_app2, Nat.sub_diag by lia. cbn [nth_error app]. f_equal.
  specialize (IH (pre ++ [x])).
  rewrite <- app_assoc, length_app in IH. cbn [List.length app] in IH.
  replace (List.length pre + 1)%nat with (S (List.length pre)) in IH by lia.
  exact IH.
Qed.

Lemma take_map {A : Type} (l : list A) (d : A) (indexer : list nat) :
  (forall i, In i indexer -> (i < List.length l)%nat) ->
  take l indexer = map (fun i => nth i l d) indexer.
Proof.
  unfold take. induction indexer as [| i t IH]; intros H; [reflexivity |].
  cbn [flat_map map].
  rewrite (nth_error_nth' l d) by (apply H; now left).
  cbn [app]. f_equal. apply IH. intros j Hj. apply H. now right.
Qed.

Lemma sorted_positions {B : Type} (R : B -> B -> Prop) (d : B) (l : list B) :
  (forall p q, (p < q)%nat -> (q < List.length l)%nat ->
               R (nth p l d) (nth q l d)) ->
  StronglySorted R l.
Proof.
  induction l as [| x l IH]; intros H; constructor.
  - apply IH. intros p q Hpq Hq.
    apply (H (S p) (S q)); simpl; lia.
  - apply Forall_forall. intros y Hy.
    destruct (In_nth l y d Hy) as [q [Hq <-]].
    apply (H 0%nat (S q)); simpl; lia.
Qed.

(** NumPy's quicksort sorts: its result holds the elements of its
    argument, in ascending order of their keys. *)
Lemma numpy_quicksort_sorts : sorts numpy_quicksort.
Proof.
  intros A key l. unfold numpy_quicksort.
  destruct (aquicksort_spec (map key l)) as [Hperm Hsorted].
  rewrite length_map in Hperm, Hsorted.
  set (indexer := Numpy.aquicksort (map key l)) in *.
  split.
  - apply Permutation_trans with (take l (seq 0 (List.length l))).
    + pose proof (take_seq l []) as Hl. cbn [app List.length] in Hl.
      rewrite Hl. apply Permutation_refl.
    + unfold take. apply Permutation_flat_map, Permutation_sym, Hperm.
  - destruct l as [| d l'] eqn:El.
    { cbn [List.length seq] in Hperm.
      apply Permutation_sym, Permutation_nil in Hperm.
      rewrite Hperm. constructor. }
    rewrite <- El in *.
    assert (Hin : forall i, In i indexer -> (i < List.length l)%nat).
    { intros i Hi. apply (Permutation_in _ Hperm) in Hi.
      apply in_seq in Hi. lia. }
    assert (Hlen : List.length indexer = List.length l)
      by (rewrite (Permutation_length Hperm); apply length_seq).
    rewrite (take_map l d) by exact Hin.
    apply (sorted_positions _ (nth 0 l d)).
    intros p q Hpq Hq. rewrite length_map in Hq.
    rewrite !(map_nth (fun i => nth i l d) indexer 0%nat).
    specialize (Hsorted p q ltac:(lia) ltac:(lia) ltac:(lia)).
    unfold Numpy.key_at in Hsorted.
    assert (Hkey : forall r, (r < List.length indexer)%nat ->
              nth (nth r indexer 0%nat) (map key l) 0
              = key (nth (nth r indexer 0%nat) l d)).
    { intros r Hr.
      rewrite (nth_indep _ 0 (key d))
        by (rewrite length_map; apply Hin, nth_In; exact Hr).
      apply map_nth. }
    rewrite !Hkey in Hsorted by lia. exact Hsorted.
Qed.

Lemma parse_entries_well_formed (ts : datetime) (entries : list Entry)
    (records : list GenerationRecord) :
  forallb well_formed_entry entries = true ->
  parse_entries ts entries records = ok (records ++ entry_records ts entries).
Proof.
  revert records. induction entries as [| e es IH]; intros records Hwf.
  - simpl. now rewrite app_nil_r.
  - simpl in Hwf. apply andb_true_iff in Hwf as [He Hes].
    unfold well_formed_entry in He. simpl.
    destruct (psrType e) as [f |]; [| discriminate].
    destruct (quantity e) as [q |]; [| discriminate].
    simpl. rewrite IH by exact Hes. now rewrite <- app_assoc.
Qed.

Lemma parse_periods_well_formed (periods : list Period)
    (records : list GenerationRecord) :
  forallb well_formed_period periods = true ->
  parse_periods periods records
  = ok (records ++ payload_records (mkPayload (Some periods))).
Proof.
  unfold payload_records. simpl.
  revert records. induction periods as [| p ps IH]; intros records Hwf.
  - simpl. now rewrite app_nil_r.
  - simpl in Hwf. apply andb_true_iff in Hwf as [Hp Hps].
    unfold well_formed_period in Hp. simpl.
    destruct (startTime p) as [ts |]; [| discriminate].
    simpl. rewrite parse_entries_well_formed by exact Hp.
    simpl. rewrite IH by exact Hps. now rewrite <- app_assoc.
Qed.

Lemma parse_entries_malformed (ts : datetime) (entries : list Entry)
    (records : list GenerationRecord) :
  forallb well_formed_entry entries = false ->
  exists k, In k parser_keys /\ parse_entries ts entries records = raise (KeyError k).
Proof.
  revert records. induction entries as [| e es IH]; intros records Hwf;
    [discriminate |].
  simpl in Hwf. unfold well_formed_entry in Hwf at 1. simpl.
  destruct (psrType e) as [f |].
  - destruct (quantity e) as [q |].
    + simpl in *. now apply IH.
    + exists "quantity". split; [simpl; auto | reflexivity].
  - exists "psrType". split; [simpl; auto | reflexivity].
Qed.

Lemma parse_periods_malformed (periods : list Period)
    (records : list GenerationRecord) :
  forallb well_formed_period periods = false ->
  exists k, In k parser_keys /\ parse_periods periods records = raise (KeyError k).
Proof.
  revert records. induction periods as [| p ps IH]; intros records Hwf;
    [discriminate |].
  simpl in Hwf. unfold well_formed_period in Hwf at 1. simpl.
  destruct (startTime p) as [ts |].
  - simpl.
    destruct (forallb well_formed_entry (get_or_empty (period_data p))) eqn:Ep.
    + rewrite parse_entries_well_formed by exact Ep. simpl in *. now apply IH.
    + destruct (parse_entries_malformed ts _ records Ep) as [k [Hk ->]].
      now exists k.
  - exists "startTime". split; [simpl; auto | reflexivity].
Qed.

(** C6, amended. For every body of the expected shape, and whatever
    sorting algorithm stands behind [sort_values] as long as it sorts,
    the parser succeeds and returns the entries of the body as records,
    all of them and nothing else, in ascending order of timestamp; the
    order among records of one timestamp is the algorithm's.  A body
    whose list of periods is empty gives the frame without rows. *)
Theorem parser_output_is_sorted (quicksort : sort_algorithm) (data : Payload) :
  sorts quicksort ->
  well_formed data = true ->
  exists (out : DataFrame) (recs : list GenerationRecord),
    _parse_response quicksort data = ok out
    /\ records_of out = Some recs
    /\ Permutation (payload_records data) recs
    /\ StronglySorted (fun a b => timestamp a <= timestamp b) recs
    /\ (get_or_empty (payload_data data) = [] -> out = mkDF [] [] /\ recs = []).
Proof.
  intros Hsorts Hwf. unfold well_formed in Hwf.
  unfold _parse_response.
  rewrite parse_periods_well_formed by exact Hwf.
  change (payload_records (mkPayload (Some (get_or_empty (payload_data data)))))
    with (payload_records data).
  cbn [app rbind ok].
  destruct (payload_records data) as [| r0 recs0] eqn:E.
  - exists (mkDF [] []), []. repeat split; constructor.
  - rewrite <- E.
    assert (Hdf : DataFrame_of_records (payload_records data)
                  = mkDF record_columns (map row_of_record (payload_records data)))
      by now rewrite E.
    rewrite Hdf.
    assert (Hne : empty (mkDF record_columns
                           (map row_of_record (payload_records data))) = false)
      by now rewrite E.
    rewrite Hne. cbn [negb]. unfold sort_values. cbn [columns col_pos record_columns].
    change (String.eqb "timestamp" "timestamp") with true. cbv iota. cbn [rows].
    set (key := fun r : row => sort_key (cell_at 0 r)).
    destruct (Hsorts row key (map row_of_record (payload_records data)))
      as [Hperm Hsorted].
    apply Permutation_sym, Permutation_map_inv in Hperm as [recs [Hrows Hp]].
    exists (mkDF record_columns (quicksort row key
                                   (map row_of_record (payload_records data)))),
           recs.
    split; [reflexivity |].
    split; [rewrite Hrows; apply records_of_rows; now intros [t f g] |].
    split; [exact Hp |].
    split.
    + rewrite Hrows in Hsorted. apply StronglySorted_map in Hsorted.
      exact Hsorted.
    + intros Hnil. exfalso. unfold payload_records in E. now rewrite Hnil in E.
Qed.

Lemma parser_output_is_sorted_witness :
  exists (out : DataFrame) (recs : list GenerationRecord),
    _parse_response numpy_quicksort two_period_payload = ok out
    /\ records_of out = Some recs
    /\ Permutation
         [mkRecord half_past_midnight "Nuclear" 5000;
          mkRecord half_past_midnight "Wind Onshore" 3000;
          mkRecord new_year_2024 "Nuclear" 20000;
          mkRecord new_year_2024 "Fossil Gas" 10000;
          mkRecord new_year_2024 "Solar" 100] recs
    /\ StronglySorted (fun a b => timestamp a <= timestamp b) recs.
Proof.
  destruct (parser_output_is_sorted numpy_quicksort two_period_payload)
    as [out [recs [H1 [H2 [H3 [H4 _]]]]]].
  - exact numpy_quicksort_sorts.
  - reflexivity.
  - exists out, recs. repeat split; assumption.
Defined.

(** C6, as stated, fails.  With NumPy's quicksort behind [sort_values],
    the eighteen entries of one period, which all carry the timestamp
    of the period, do not come out in the order they have in the
    body. *)
Lemma parser_tie_order_not_kept :
  let entries := payload_records tied_payload in
  well_formed tied_payload = true
  /\ List.length entries = 18%nat
  /\ Forall (fun r => timestamp r = new_year_2024) entries
  /\ exists (out : DataFrame) (recs : list GenerationRecord),
       _parse_response numpy_quicksort tied_payload = ok out
       /\ records_of out = Some recs
       /\ List.length recs = 18%nat
       /\ StronglySorted (fun a b => timestamp a <= timestamp b) recs
       /\ recs <> entries.
Proof.
  split; [reflexivity |]. split; [reflexivity |].
  split; [repeat constructor |].
  eexists. eexists.
  split; [vm_compute; reflexivity |].
  split; [vm_compute; reflexivity |].
  split; [reflexivity |].
  split; [| discriminate].
  repeat (constructor; [| repeat (constructor; [vm_compute; discriminate |]);
                          constructor]).
  constructor.
Qed.

Lemma parse_response_records (quicksort : sort_algorithm) (data : Payload) :
  sorts quicksort ->
  well_formed data = true ->
  exists recs : list GenerationRecord,
    _parse_response quicksort data = ok (DataFrame_of_records recs)
    /\ Permutation (payload_records data) recs
    /\ StronglySorted (fun a b => timestamp a <= timestamp b) recs.
Proof.
  intros Hsorts Hwf. unfold well_formed in Hwf. unfold _parse_response.
  rewrite parse_periods_well_formed by exact Hwf.
  change (payload_records (mkPayload (Some (get_or_empty (payload_data data)))))
    with (payload_records data).
  cbn [app rbind ok].
  destruct (payload_records data) as [| r0 recs0] eqn:E.
  - exists []. repeat split; constructor.
  - rewrite <- E.
    assert (Hdf : DataFrame_of_records (payload_records data)
                  = mkDF record_columns (map row_of_record (payload_records data)))
      by now rewrite E.
    rewrite Hdf.
    assert (Hne : empty (mkDF record_columns
                           (map row_of_record (payload_records data))) = false)
      by now rewrite E.
    rewrite Hne. cbn [negb]. unfold sort_values.
    cbn [columns col_pos record_columns].
    change (String.eqb "timestamp" "timestamp") with true. cbv iota. cbn [rows].
    set (key := fun r : row => sort_key (cell_at 0 r)).
    destruct (Hsorts row key (map row_of_record (payload_records data)))
      as [Hperm Hsorted].
    apply Permutation_sym, Permutation_map_inv in Hperm as [recs [Hrows Hp]].
    exists recs. rewrite Hrows.
    assert (Hrecs : recs <> []).
    { intros ->. apply Permutation_sym, Permutation_nil in Hp. congruence. }
    split; [| split; [exact Hp |]].
    + destruct recs; [contradiction | reflexivity].
    + rewrite Hrows in Hsorted. now apply StronglySorted_map in Hsorted.
Qed.

(** ** The frames a fetch returns, and their concatenation *)

Lemma quality_checks_fetched (recs : list GenerationRecord) (out : DataFrame) :
  _apply_quality_checks (DataFrame_of_records recs) = ok out ->
  fetched_frame out.
Proof.
  destruct recs as [| r0 recs0] eqn:E.
  - intros H. injection H as <-. now left.
  - rewrite <- E. rewrite quality_checks_records by now rewrite E.
    intros H. injection H as <-. right. split; [reflexivity |].
    simpl rows. apply Forall_forall. intros r Hr.
    apply in_map_iff in Hr as [x [<- _]]. reflexivity.
Qed.

Lemma parse_response_frame (quicksort : sort_algorithm) (data : Payload)
    (df : DataFrame) :
  sorts quicksort ->
  _parse_response quicksort data = ok df ->
  exists recs, df = DataFrame_of_records recs.
Proof.
  intros Hsorts Hparse.
  destruct (well_formed data) eqn:Hwf.
  - destruct (parse_response_records quicksort data Hsorts Hwf)
      as [recs [Hrecs _]].
    exists recs. rewrite Hrecs in Hparse. now injection Hparse.
  - unfold well_formed in Hwf.
    destruct (parse_periods_malformed _ [] Hwf) as [k [_ Hk]].
    unfold _parse_response in Hparse. rewrite Hk in Hparse. discriminate.
Qed.

Section FetchedFrames.

Variable quicksort : sort_algorithm.
Variable upstream : Upstream.
Hypothesis quicksort_sorts : sorts quicksort.

Lemma attempt_body_returns (rq : Request) (w w' : World) (df : DataFrame) :
  attempt_body quicksort upstream rq w = (inr (Some df), w') ->
  fetched_frame df.
Proof.
  unfold attempt_body, mbind, _make_request, lift, mret.
  destruct (upstream (requests_made w) rq) as [e | r]; [discriminate |].
  unfold ok. cbn beta iota.
  destruct (status_code r =? 200); [| discriminate].
  destruct (response_json r) as [e | data]; [discriminate |].
  destruct (_parse_response quicksort data) as [e | df0] eqn:Ep; [discriminate |].
  destruct (_apply_quality_checks df0) as [e | df1] eqn:Eq; [discriminate |].
  intros H. injection H as <- _.
  destruct (parse_response_frame quicksort data df0 quicksort_sorts Ep)
    as [recs ->].
  now apply (quality_checks_fetched recs).
Qed.

Lemma retry_loop_returns (n : Z) (rq : Request) (k : nat) :
  forall (a : Z) (w w' : World) (df : DataFrame),
    retry_loop quicksort upstream n rq k a w = (inr df, w') ->
    fetched_frame df.
Proof.
  induction k as [| k IH]; intros a w w' df; cbn [retry_loop]; [discriminate |].
  destruct (attempt_body quicksort upstream rq w) as [[e | [df1 |]] w1] eqn:E.
  - destruct (a <? n - 1); [apply IH | discriminate].
  - intros H. injection H as <- _. now apply (attempt_body_returns rq w w1).
  - apply IH.
Qed.

Lemma fetch_windows_frames (ws : list (datetime * datetime)) :
  forall (all_data result : list DataFrame) (w w' : World),
    fetch_windows quicksort upstream ws all_data w = (inr result, w') ->
    exists frames,
      result = all_data ++ frames
      /\ List.length frames = List.length ws
      /\ Forall fetched_frame frames.
Proof.
  induction ws as [| [a b] ws IH]; intros all_data result w w';
    cbn [fetch_windows].
  - intros H. injection H as <- _. exists []. rewrite app_nil_r.
    repeat split. constructor.
  - destruct (fetch_generation_data quicksort upstream a b 3 w)
      as [[e | df] w1] eqn:E; [discriminate |].
    intros H. destruct (IH _ _ _ _ H) as [frames [-> [Hlen Hall]]].
    exists (df :: frames). rewrite <- app_assoc. split; [reflexivity |].
    split; [simpl; now rewrite Hlen |].
    constructor; [| exact Hall].
    unfold fetch_generation_data in E. now apply retry_loop_returns in E.
Qed.

End FetchedFrames.

Lemma union_output_columns (df : DataFrame) :
  fetched_frame df ->
  union_columns output_columns (columns df) = output_columns.
Proof.
  intros [-> | [-> _]]; reflexivity.
Qed.

Lemma fold_union_output (l : list DataFrame) :
  Forall fetched_frame l ->
  fold_left union_columns (map columns l) output_columns = output_columns.
Proof.
  induction 1 as [| df l Hdf _ IH]; simpl; [reflexivity |].
  now rewrite union_output_columns.
Qed.

Lemma fold_union_fetched (l : list DataFrame) :
  Forall fetched_frame l ->
  fold_left union_columns (map columns l) [] = output_columns
  \/ Forall (fun df => df = mkDF [] []) l.
Proof.
  induction 1 as [| df l Hdf Hl IH]; [right; constructor |].
  destruct Hdf as [-> | [Hc Hr]].
  - simpl. destruct IH as [IH | IH]; [now left | right; now constructor].
  - left. simpl. rewrite Hc.
    change (union_columns [] output_columns) with output_columns.
    now apply fold_union_output.
Qed.

Lemma reindex_fetched (df : DataFrame) :
  fetched_frame df -> reindex output_columns df = rows df.
Proof.
  intros [-> | [Hc Hr]]; [reflexivity |].
  apply reindex_same; [| exact Hc |].
  - repeat constructor; simpl; intuition discriminate.
  - rewrite Forall_forall in Hr. exact Hr.
Qed.

Lemma concat_fetched_frames (frames : list DataFrame) :
  frames <> [] ->
  Forall fetched_frame frames ->
  exists combined_df,
    concat frames = ok combined_df
    /\ rows combined_df = flat_map rows frames
    /\ (combined_df = mkDF [] [] \/ columns combined_df = output_columns).
Proof.
  intros Hne Hall.
  destruct (fold_union_fetched frames Hall) as [Hcols | Hempty].
  - exists (mkDF output_columns (flat_map rows frames)).
    split; [| split; [reflexivity | now right]].
    destruct frames as [| df0 rest]; [contradiction |].
    unfold concat. rewrite Hcols. do 2 f_equal.
    clear Hne Hcols. induction Hall as [| df l Hdf _ IH]; [reflexivity |].
    simpl. now rewrite reindex_fetched, IH.
  - exists (mkDF [] []). split; [now apply concat_empty_frames |].
    split; [| now left].
    clear Hne Hall. induction Hempty as [| df l -> _ IH]; [reflexivity |].
    simpl. exact IH.
Qed.

(** ** The chunked historical fetch *)

Lemma chunk_length : timedelta_days chunk_size = 604800000000.
Proof. reflexivity. Qed.

Lemma windows_done (end_date current_start : datetime) :
  end_date <= current_start -> windows end_date current_start = [].
Proof.
  intros H. simp windows.
  destruct (Z_lt_dec current_start end_date); [lia | reflexivity].
Qed.

Lemma windows_step (end_date current_start : datetime) :
  current_start < end_date ->
  windows end_date current_start
  = (current_start, Z.min (current_start + timedelta_days chunk_size) end_date)
    :: windows end_date
         (Z.min (current_start + timedelta_days chunk_size) end_date).
Proof.
  intros H. rewrite windows_equation_1.
  destruct (Z_lt_dec current_start end_date); [reflexivity | lia].
Qed.

Lemma windows_tiles (end_date start_date : datetime) :
  start_date <= end_date ->
  tiles start_date (windows end_date start_date) end_date.
Proof.
  funelim (windows end_date start_date); intros Hle.
  - pose proof chunk_length as Hc.
    simpl. split; [reflexivity |]. split; [lia |]. split; [lia |]. split.
    + intros Hne.
      destruct (Z_lt_dec (current_start + timedelta_days chunk_size) end_date)
        as [Hlt | Hge]; [lia |].
      exfalso. apply Hne. apply windows_done. lia.
    + apply H. lia.
  - simpl. lia.
Qed.

Section Historical.

Variable quicksort : sort_algorithm.
Variable upstream : Upstream.

Lemma chunk_loop_windows (end_date start_date : datetime)
    (all_data : list DataFrame) (w : World) :
  chunk_loop quicksort upstream end_date start_date all_data w
  = fetch_windows quicksort upstream (windows end_date start_date) all_data w.
Proof.
  funelim (chunk_loop quicksort upstream end_date start_date all_data w).
  - rewrite windows_done by lia. reflexivity.
  - rewrite windows_step by assumption. cbn [fetch_windows].
    match goal with
    | E : fetch_generation_data _ _ _ _ _ _ = _ |- _ => rewrite E
    end.
    reflexivity.
  - rewrite windows_step by assumption. cbn [fetch_windows].
    match goal with
    | E : fetch_generation_data _ _ _ _ _ _ = _ |- _ => rewrite E
    end.
    match goal with
    | IH : forall _ _, _ = _ -> chunk_loop _ _ _ _ _ _ = _ |- _ => eapply IH
    | IH : chunk_loop _ _ _ _ _ _ = fetch_windows _ _ _ _ _ |- _ => exact IH
    end.
Qed.

Lemma fetch_historical_data_windows (utcnow : datetime) (days : Z) (w : World) :
  fetch_historical_data quicksort upstream utcnow days w
  = match fetch_windows quicksort upstream
            (windows utcnow (utcnow - timedelta_days days)) [] w with
    | (inl e, w') => (inl e, w')
    | (inr all_data, w') => (concat all_data, w')
    end.
Proof.
  unfold fetch_historical_data, mbind. rewrite chunk_loop_windows.
  destruct (fetch_windows quicksort upstream
              (windows utcnow (utcnow - timedelta_days days)) [] w)
    as [[e | all_data] w']; [reflexivity |].
  unfold lift, mret. destruct (concat all_data); reflexivity.
Qed.

(** C5. For a range longer than one chunk, with the datetimes the loop
    computes in the range of [datetime], the sub-windows fetched tile
    it: the first starts at the start, each one starts where the one
    before ended, each is at most seven days long and only the last may
    be shorter, and the last ends at the end; for ten days they are the
    first seven days and the last three.  The loop fetches them in that
    order, one frame for each, and when all fetches return, the frame
    returned by the historical fetch holds the rows of these frames,
    all of them and in that order. *)
Theorem historical_fetch_tiles_the_range (start_date end_date : datetime)
    (w : World) :
  sorts quicksort ->
  valid_datetime start_date ->
  valid_datetime (end_date + timedelta_days chunk_size) ->
  timedelta_days chunk_size < end_date - start_date ->
  let ws := windows end_date start_date in
  tiles start_date ws end_date
  /\ (2 <= List.length ws)%nat
  /\ (end_date - start_date = timedelta_days 10 ->
      ws = [(start_date, start_date + timedelta_days 7);
            (start_date + timedelta_days 7, start_date + timedelta_days 10)])
  /\ chunk_loop quicksort upstream end_date start_date [] w
     = fetch_windows quicksort upstream ws [] w
  /\ (forall days : Z,
        start_date = end_date - timedelta_days days ->
        match fetch_windows quicksort upstream ws [] w with
        | (inl e, w') =>
            fetch_historical_data quicksort upstream end_date days w
            = (inl e, w')
        | (inr all_data, w') =>
            List.length all_data = List.length ws
            /\ exists combined_df : DataFrame,
                 concat all_data = ok combined_df
                 /\ fetch_historical_data quicksort upstream end_date days w
                    = (ok combined_df, w')
                 /\ rows combined_df = flat_map rows all_data
        end).
Proof.
  intros Hsorts _ _ Hspan ws. pose proof chunk_length as Hc.
  assert (Hlen : (2 <= List.length ws)%nat).
  { unfold ws. rewrite windows_step by lia.
    rewrite (windows_step end_date) by lia. simpl. lia. }
  split; [apply windows_tiles; lia |].
  split; [exact Hlen |].
  split.
  { intros Hten. unfold ws.
    assert (H7 : timedelta_days 7 = 604800000000) by reflexivity.
    assert (H10 : timedelta_days 10 = 864000000000) by reflexivity.
    rewrite windows_step by lia.
    replace (Z.min (start_date + timedelta_days chunk_size) end_date)
      with (start_date + timedelta_days 7) by lia.
    rewrite windows_step by lia.
    replace (Z.min (start_date + timedelta_days 7 + timedelta_days chunk_size)
                   end_date)
      with (start_date + timedelta_days 10) by lia.
    rewrite windows_done by lia. reflexivity. }
  split; [apply chunk_loop_windows |].
  intros days ->. rewrite fetch_historical_data_windows. fold ws.
  destruct (fetch_windows quicksort upstream ws [] w)
    as [[e | all_data] w'] eqn:E; [reflexivity |].
  destruct (fetch_windows_frames quicksort upstream Hsorts ws [] all_data w w' E)
    as [frames [-> [Hframes Hall]]].
  cbn [app]. split; [exact Hframes |].
  destruct (concat_fetched_frames frames) as [df [Hdf [Hrows _]]].
  - intros ->. simpl in Hframes. lia.
  - exact Hall.
  - exists df. split; [exact Hdf |]. split; [now rewrite Hdf | exact Hrows].
Qed.

(** C10. With a number of days at or below zero (and the start it
    gives in the range of [datetime]) nothing is fetched and the
    historical fetch raises the error of [pd.concat] on an empty list;
    it returns no frame. *)
Theorem historical_fetch_of_no_days_raises (utcnow : datetime) (days : Z)
    (w : World) :
  historical_range utcnow days ->
  days <= 0 ->
  fetch_historical_data quicksort upstream utcnow days w
  = (raise (ValueError "No objects to concatenate"), w).
Proof.
  intros _ Hd. rewrite fetch_historical_data_windows.
  rewrite windows_done; [reflexivity |].
  unfold timedelta_days, US_PER_DAY, US_PER_SECOND. lia.
Qed.

End Historical.

Lemma historical_fetch_tiles_the_range_witness :
  let upstream : Upstream :=
    fun n _ => match n with
               | O => Returns (mkResponse 200 (Some sample_payload))
               | _ => Returns (mkResponse 200 (Some two_period_payload))
               end in
  windows (new_year_2024 + timedelta_days 10) new_year_2024
  = [(new_year_2024, new_year_2024 + timedelta_days 7);
     (new_year_2024 + timedelta_days 7, new_year_2024 + timedelta_days 10)]
  /\ exists (combined_df : DataFrame) (w' : World),
       fetch_historical_data numpy_quicksort upstream
         (new_year_2024 + timedelta_days 10) 10 []
       = (ok combined_df, w')
       /\ rows combined_df
          = [[CTime new_year_2024; CStr "Nuclear"; CNum 30000; CNum 30000];
             [CTime new_year_2024; CStr "Nuclear"; CNum 20000; CNum 30100];
             [CTime new_year_2024; CStr "Fossil Gas"; CNum 10000; CNum 30100];
             [CTime new_year_2024; CStr "Solar"; CNum 100; CNum 30100]].
Proof.
  intros upstream.
  destruct (historical_fetch_tiles_the_range numpy_quicksort upstream
              new_year_2024 (new_year_2024 + timedelta_days 10) [])
    as [_ [_ [Hten [_ Hrun]]]].
  - exact numpy_quicksort_sorts.
  - vm_compute. split; [discriminate | reflexivity].
  - vm_compute. split; [discriminate | reflexivity].
  - vm_compute. reflexivity.
  - split; [apply Hten; vm_compute; reflexivity |].
    specialize (Hrun 10 eq_refl).
    destruct (fetch_windows numpy_quicksort upstream
                (windows (new_year_2024 + timedelta_days 10) new_year_2024) [] [])
      as [[e | all_data] w'] eqn:E; [vm_compute in E; discriminate |].
    destruct Hrun as [_ [df [_ [Hf Hr]]]].
    exists df, w'. split; [exact Hf |].
    rewrite Hr. vm_compute in E. injection E as <- _. reflexivity.
Defined.

Lemma historical_fetch_of_no_days_raises_witness :
  fetch_historical_data stable_sort
    (fun _ _ => Returns (mkResponse 200 (Some sample_payload)))
    new_year_2024 0 []
  = (raise (ValueError "No objects to concatenate"), []).
Proof.
  apply historical_fetch_of_no_days_raises.
  - vm_compute. repeat split; discriminate || reflexivity.
  - lia.
Defined.

(** * Further properties of the fetcher *)

(** ** The quality filter and its warnings *)

Lemma at_timestamp_filter (P : Z -> bool) (recs : list GenerationRecord) (t : Z) :
  at_timestamp t (filter (fun r => P (timestamp r)) recs)
  = if P t then at_timestamp t recs else [].
Proof.
  unfold at_timestamp.
  induction recs as [| r recs IH]; simpl; [now destruct (P t) |].
  destruct (P (timestamp r)) eqn:EP, (timestamp r =? t) eqn:Et; simpl;
    rewrite ?Et; rewrite IH;
    try (apply Z.eqb_eq in Et; subst t; rewrite EP); reflexivity.
Qed.

(** X1. The filter keeps or drops whole periods: for quantities that
    [int64] arithmetic adds up exactly and for every timestamp, the
    output holds all the input records of that timestamp, in their
    order, when their quantities sum to at least 25000, and none of
    them otherwise. *)
Theorem quality_filter_keeps_whole_periods (recs : list GenerationRecord) :
  int64_safe recs ->
  exists (out : DataFrame) (kept : list GenerationRecord),
    _apply_quality_checks (DataFrame_of_records recs) = ok out
    /\ records_of out = Some kept
    /\ forall t : Z,
         at_timestamp t kept
         = if 25000 <=? exact_total recs t then at_timestamp t recs else [].
Proof.
  intros Hsafe.
  destruct (quality_filter_records recs) as [out [H1 H2]].
  exists out, (filter (is_valid recs) recs).
  split; [exact H1 |]. split; [exact H2 |].
  intros t.
  rewrite (filter_ext (is_valid recs)
             (fun r => 25000 <=? exact_total recs (timestamp r)))
    by (intros r; now apply is_valid_safe).
  apply (at_timestamp_filter (fun t => 25000 <=? exact_total recs t)).
Qed.

Lemma quality_filter_keeps_whole_periods_witness :
  exists (out : DataFrame) (kept : list GenerationRecord),
    _apply_quality_checks
      (DataFrame_of_records
         [mkRecord 10 "Nuclear" 20000; mkRecord 20 "Solar" 4000;
          mkRecord 10 "Wind Onshore" 10000; mkRecord 20 "Fossil Gas" 6000])
    = ok out
    /\ records_of out = Some kept
    /\ at_timestamp 10 kept
       = [mkRecord 10 "Nuclear" 20000; mkRecord 10 "Wind Onshore" 10000]
    /\ at_timestamp 20 kept = [].
Proof.
  destruct (quality_filter_keeps_whole_periods
              [mkRecord 10 "Nuclear" 20000; mkRecord 20 "Solar" 4000;
               mkRecord 10 "Wind Onshore" 10000; mkRecord 20 "Fossil Gas" 6000])
    as [out [kept [Hout [Hrec Hat]]]].
  - vm_compute. reflexivity.
  - exists out, kept. split; [exact Hout |]. split; [exact Hrec |].
    split; rewrite Hat; reflexivity.
Defined.

(** X2. When no period reaches the threshold (the quantities being such
    that [int64] arithmetic adds them up exactly) the filter does not
    fail: it returns the frame with the four output columns and no
    row. *)
Theorem quality_filter_of_invalid_periods (recs : list GenerationRecord) :
  int64_safe recs ->
  recs <> [] ->
  (forall r, In r recs -> exact_total recs (timestamp r) < 25000) ->
  _apply_quality_checks (DataFrame_of_records recs)
  = ok (mkDF ["timestamp"; "fuel_type"; "generation_mw"; "total_generation"] []).
Proof.
  intros Hsafe Hne Hbad. rewrite quality_checks_records by exact Hne.
  rewrite (filter_none (is_valid recs) recs); [reflexivity |].
  intros r Hr. rewrite is_valid_safe by exact Hsafe.
  apply Z.leb_gt. now apply Hbad.
Qed.

Lemma quality_filter_of_invalid_periods_witness :
  _apply_quality_checks
    (DataFrame_of_records
       [mkRecord new_year_2024 "Solar" 4000; mkRecord new_year_2024 "Wind Onshore" 6000])
  = ok (mkDF ["timestamp"; "fuel_type"; "generation_mw"; "total_generation"] []).
Proof.
  apply quality_filter_of_invalid_periods.
  - vm_compute. reflexivity.
  - discriminate.
  - intros r [<- | [<- | []]]; vm_compute; reflexivity.
Defined.

Section QualityLog.

Variable cols : list string.
Variable rw : GenerationRecord -> row.
Hypothesis cols_ts : col_pos "timestamp" cols = Some 0%nat.
Hypothesis cols_mw : col_pos "generation_mw" cols = Some 2%nat.
Hypothesis rw_ts : forall r, nth 0 (rw r) CNaN = CTime (timestamp r).
Hypothesis rw_mw : forall r, nth 2 (rw r) CNaN = CNum (generation_mw r).
Hypothesis rw_len : forall r, List.length (rw r) = List.length cols.

Let merged : list string :=
  merge_columns cols ["timestamp"; "total_generation"; "quality_flag"] "timestamp" 0.

Hypothesis flag_pos : col_pos "quality_flag" merged = Some (S (List.length cols)).
Hypothesis ts_pos : col_pos "timestamp" merged = Some 0%nat.

Lemma nth_0_app (r : GenerationRecord) (l : list cell) :
  nth 0 (rw r ++ l) CNaN = CTime (timestamp r).
Proof.
  pose proof (rw_ts r) as H. pose proof (rw_len r) as Hl.
  destruct (rw r) as [| c t]; simpl in *.
  - destruct cols; [discriminate | discriminate].
  - exact H.
Qed.

Lemma logged_shape (recs : list GenerationRecord) :
  recs <> [] ->
  _apply_quality_checks_logged (mkDF cols (map rw recs))
  = ok (mkDF (remove_at (S (List.length cols)) merged)
             (map (fun r => rw r ++ [CNum (group_total recs (timestamp r))])
                  (filter (is_valid recs) recs)),
        let bad := Z.of_nat (List.length
                               (filter (fun r => negb (is_valid recs r)) recs)) in
        if bad >? 0 then
          [FoundBadRecords bad;
           FilteringOutPeriods
             (nunique (map (fun r => CTime (timestamp r)) recs)
              - nunique (map (fun r => CTime (timestamp r))
                             (filter (is_valid recs) recs)))]
        else []).
Proof.
  intros Hne.
  unfold _apply_quality_checks_logged.
  assert (Hemp : empty (mkDF cols (map rw recs)) = false).
  { unfold empty; simpl. destruct cols; [discriminate |].
    destruct recs; [contradiction | reflexivity]. }
  rewrite Hemp.
  unfold groupby_sum; simpl columns; rewrite cols_ts, cols_mw.
  simpl.
  set (keys := group_keys (map (cell_at 0) (map rw recs))).
  rewrite (map_map (cell_at 1)).
  rewrite (map_combine_map (fun a b => a ++ [b])).
  rewrite !map_map. simpl.
  unfold merge; simpl columns; rewrite cols_ts; simpl.
  fold merged.
  rewrite flat_map_of_map.
  rewrite (flat_map_singleton _
    (fun r => rw r ++ [CNum (group_total recs (timestamp r));
                       CBool (is_valid recs r)])).
  2:{ intros r Hr.
      rewrite filter_map_comm. simpl. rewrite (rw_ts r).
      rewrite filter_key_unique.
      - simpl. unfold remove_at. simpl.
        rewrite (group_sum_records rw rw_ts rw_mw). reflexivity.
      - apply group_keys_NoDup.
      - apply group_keys_In. split; [| reflexivity].
        rewrite map_map. apply in_map_iff. exists r.
        split; [apply rw_ts | exact Hr]. }
  unfold getitem; simpl columns; rewrite flag_pos, ts_pos. simpl.
  unfold loc; simpl columns; simpl rows.
  rewrite !(filter_combine_map is_true), !filter_map_comm.
  assert (Hflag : forall r,
             is_true (nth (S (List.length cols))
                          (rw r ++ [CNum (group_total recs (timestamp r));
                                    CBool (is_valid recs r)]) CNaN)
             = is_valid recs r).
  { intros r. rewrite <- (rw_len r), nth_past_prefix.
    simpl. now destruct (is_valid recs r). }
  rewrite !(filter_ext _ _ Hflag).
  rewrite !map_map. unfold cell_at.
  rewrite (map_ext _ (fun r => CBool (is_valid recs r)))
    by (intros r; rewrite <- (rw_len r); apply nth_past_prefix).
  rewrite !(map_ext (fun r => nth 0 (rw r ++ _) CNaN)
                    (fun r => CTime (timestamp r)))
    by (intros r; apply nth_0_app).
  assert (Hcount : count_true
                     (invert (map (fun r => CBool (is_valid recs r)) recs))
                   = Z.of_nat (List.length
                                 (filter (fun r => negb (is_valid recs r)) recs))).
  { unfold count_true, invert. rewrite map_map, filter_map_comm, length_map.
    do 2 f_equal. apply filter_ext. intros r. now destruct (is_valid recs r). }
  rewrite Hcount.
  unfold drop; simpl columns; rewrite flag_pos; simpl rows.
  rewrite map_map.
  rewrite (map_ext _ (fun r => rw r ++ [CNum (group_total recs (timestamp r))]))
    by (intros r; rewrite <- (rw_len r); apply remove_at_past_prefix).
  destruct (Z.of_nat (List.length
                        (filter (fun r => negb (is_valid recs r)) recs)) >? 0);
    reflexivity.
Qed.

End QualityLog.

Lemma NoDup_map_CTime (l : list Z) : NoDup l -> NoDup (map CTime l).
Proof.
  induction 1 as [| t l Hnot Hnd IH]; simpl; constructor; [| exact IH].
  intros Hin. apply in_map_iff in Hin as [x [Hx Hin]].
  injection Hx as ->. contradiction.
Qed.

Lemma nunique_timestamps (l : list GenerationRecord) :
  nunique (map (fun r => CTime (timestamp r)) l) = distinct_timestamps l.
Proof.
  unfold nunique, distinct_timestamps. f_equal.
  rewrite (forallb_filter_id notna)
    by (apply forallb_forall; intros c Hc;
        apply in_map_iff in Hc as [r [<- _]]; reflexivity).
  rewrite <- (map_map timestamp CTime).
  rewrite <- (length_map CTime (nodup Z.eq_dec (map timestamp l))).
  apply Permutation_length, NoDup_Permutation.
  - apply dedup_NoDup.
  - apply NoDup_map_CTime, NoDup_nodup.
  - intros c. rewrite dedup_In, !in_map_iff. split; intros [t [Ht Hin]];
      exists t; (split; [exact Ht |]).
    + apply nodup_In. exact Hin.
    + apply nodup_In in Hin. exact Hin.
Qed.

Lemma distinct_timestamps_split (P : Z -> bool) (l : list GenerationRecord) :
  distinct_timestamps l
  = distinct_timestamps (filter (fun r => P (timestamp r)) l)
    + distinct_timestamps (filter (fun r => negb (P (timestamp r))) l).
Proof.
  unfold distinct_timestamps. rewrite <- Nat2Z.inj_add, <- length_app. f_equal.
  apply Permutation_length, NoDup_Permutation.
  - apply NoDup_nodup.
  - apply NoDup_app; try apply NoDup_nodup.
    intros t H1 H2. rewrite nodup_In, in_map_iff in H1, H2.
    destruct H1 as [r1 [E1 H1]], H2 as [r2 [E2 H2]].
    apply filter_In in H1 as [_ H1]. apply filter_In in H2 as [_ H2].
    rewrite E1 in H1. rewrite E2, H1 in H2. discriminate.
  - intros t. rewrite in_app_iff, !nodup_In, !in_map_iff. split.
    + intros [r [Et Hr]]. destruct (P (timestamp r)) eqn:EP.
      * left. exists r. split; [exact Et |]. apply filter_In. now split.
      * right. exists r. split; [exact Et |]. apply filter_In.
        split; [exact Hr |]. now rewrite EP.
    + intros [[r [Et Hr]] | [r [Et Hr]]]; exists r; (split; [exact Et |]);
        now apply filter_In in Hr.
Qed.

(** X3. The two warnings the filter logs report what it drops: none is
    logged when every record is kept; otherwise the first gives the
    number of dropped records and the second the number of distinct
    timestamps among them.  The frame returned is the filter's. *)
Theorem quality_filter_warnings (recs : list GenerationRecord) :
  let dropped :=
    filter (fun r => negb (25000 <=? group_total recs (timestamp r))) recs in
  exists out : DataFrame,
    _apply_quality_checks (DataFrame_of_records recs) = ok out
    /\ _apply_quality_checks_logged (DataFrame_of_records recs)
       = ok (out,
             match dropped with
             | [] => []
             | _ => [FoundBadRecords (Z.of_nat (List.length dropped));
                     FilteringOutPeriods (distinct_timestamps dropped)]
             end).
Proof.
  intros dropped.
  assert (Hcase : recs = [] \/ recs <> [])
    by (destruct recs; [left | right]; congruence).
  destruct Hcase as [-> | Hne].
  { exists (mkDF [] []). split; reflexivity. }
  eexists. split; [now apply quality_checks_records |].
  assert (Hdf : DataFrame_of_records recs
                = mkDF record_columns (map row_of_record recs))
    by (destruct recs; [contradiction | reflexivity]).
  rewrite Hdf.
  rewrite (logged_shape record_columns row_of_record) by auto.
  f_equal. f_equal.
  change (filter (fun r => negb (is_valid recs r)) recs) with dropped.
  rewrite !nunique_timestamps.
  rewrite (distinct_timestamps_split
             (fun t => MIN_TOTAL_GENERATION <=? group_total recs t) recs).
  change (filter (fun r => MIN_TOTAL_GENERATION <=? group_total recs (timestamp r))
                 recs) with (filter (is_valid recs) recs).
  change (filter (fun r => negb (MIN_TOTAL_GENERATION
                                 <=? group_total recs (timestamp r))) recs)
    with dropped.
  replace (distinct_timestamps (filter (is_valid recs) recs)
           + distinct_timestamps dropped
           - distinct_timestamps (filter (is_valid recs) recs))
    with (distinct_timestamps dropped) by lia.
  cbv zeta.
  destruct dropped as [| d ds]; [reflexivity |].
  destruct (Z.of_nat (List.length (d :: ds)) >? 0) eqn:Ez; [reflexivity |].
  rewrite Z.gtb_ltb, Z.ltb_ge in Ez. simpl List.length in Ez. lia.
Qed.

(** ** The response parser *)

(** X4. A body in which some period lacks its [startTime], or some
    entry its [psrType] or its [quantity], is rejected as a whole: the
    parser raises the [KeyError] of one of these three keys, whatever
    the sorting algorithm, and returns no table of the entries read so
    far. *)
Theorem parser_rejects_missing_key (quicksort : sort_algorithm)
    (data : Payload) :
  well_formed data = false ->
  exists k, In k ["startTime"; "psrType"; "quantity"]
            /\ _parse_response quicksort data = raise (KeyError k).
Proof.
  unfold well_formed, _parse_response. intros Hwf.
  destruct (parse_periods_malformed _ [] Hwf) as [k [Hk ->]].
  now exists k.
Qed.

Lemma parser_rejects_missing_key_witness :
  exists k,
    In k ["startTime"; "psrType"; "quantity"]
    /\ _parse_response numpy_quicksort
         (mkPayload
            (Some [mkPeriod (Some new_year_2024)
                     (Some [mkEntry (Some "Nuclear") (Some 30000);
                            mkEntry (Some "Solar") None])]))
       = raise (KeyError k).
Proof.
  apply parser_rejects_missing_key. reflexivity.
Defined.

(** X17. With NumPy's quicksort behind [sort_values], the parser turns
    every body of the expected shape into the table of its entries, all
    of them and nothing else, in ascending order of timestamp. *)
Theorem parser_sorts_with_numpy_quicksort (data : Payload) :
  well_formed data = true ->
  exists recs : list GenerationRecord,
    _parse_response numpy_quicksort data = ok (DataFrame_of_records recs)
    /\ Permutation (payload_records data) recs
    /\ StronglySorted (fun a b => timestamp a <= timestamp b) recs.
Proof.
  intros Hwf. apply parse_response_records; [| exact Hwf].
  exact numpy_quicksort_sorts.
Qed.

Lemma parser_sorts_with_numpy_quicksort_witness :
  exists recs : list GenerationRecord,
    _parse_response numpy_quicksort tied_payload
    = ok (DataFrame_of_records recs)
    /\ Permutation (payload_records tied_payload) recs
    /\ StronglySorted (fun a b => timestamp a <= timestamp b) recs.
Proof.
  apply parser_sorts_with_numpy_quicksort. reflexivity.
Defined.

(** ** One fetch: attempts, pauses, results *)

Section FetchFacts.

Variable quicksort : sort_algorithm.
Variable upstream : Upstream.

Lemma sleeps_get (w : World) (rq : Request) :
  sleeps (w ++ [Get rq]) = sleeps w.
Proof. unfold sleeps. rewrite flat_map_app. simpl. apply app_nil_r. Qed.

Lemma sleeps_sleep (w : World) (s : Z) :
  sleeps (w ++ [Sleep s]) = sleeps w ++ [s].
Proof. unfold sleeps. rewrite flat_map_app. reflexivity. Qed.

Lemma retry_loop_events (n : Z) (rq : Request) (k : nat) :
  forall (a : Z) (w : World),
    exists tail,
      snd (retry_loop quicksort upstream n rq k a w) = w ++ tail
      /\ Forall (fetch_event rq) tail
      /\ (requests_made tail <= k)%nat.
Proof.
  induction k as [| k IH]; intros a w; cbn [retry_loop].
  - exists []. simpl. rewrite app_nil_r.
    split; [reflexivity |]. split; [constructor | unfold requests_made; simpl; lia].
  - pose proof (attempt_body_world quicksort upstream rq w) as Hw.
    assert (Hget : fetch_event rq (Get rq)) by now left.
    destruct (attempt_body quicksort upstream rq w) as [[e | [df |]] w1];
      simpl in Hw; subst w1.
    + destruct (a <? n - 1).
      * destruct (IH (a + 1) ((w ++ [Get rq]) ++ [Sleep (2 ^ a)]))
          as [t [Ht [Hev Hn]]].
        rewrite Ht. exists (Get rq :: Sleep (2 ^ a) :: t).
        rewrite <- !app_assoc. split; [reflexivity |]. split.
        -- constructor; [exact Hget |]. constructor; [| exact Hev].
           right. now eexists.
        -- unfold requests_made in *. simpl. lia.
      * exists [Get rq]. split; [reflexivity |]. split; [now constructor |].
        unfold requests_made. simpl. lia.
    + exists [Get rq]. split; [reflexivity |]. split; [now constructor |].
      unfold requests_made. simpl. lia.
    + destruct (IH (a + 1) (w ++ [Get rq])) as [t [Ht [Hev Hn]]].
      rewrite Ht. exists (Get rq :: t). rewrite <- app_assoc.
      split; [reflexivity |]. split; [now constructor |].
      unfold requests_made in *. simpl. lia.
Qed.

(** X5. Whatever the upstream does, one call of [fetch_generation_data]
    only adds GETs of its one request, carrying the two formatted
    bounds, and sleeps to the effects so far, and it issues at most
    [retry_attempts] GETs. *)
Theorem fetch_issues_at_most_retry_attempts (start_date end_date : datetime)
    (retry_attempts : Z) (w : World) :
  exists tail,
    snd (fetch_generation_data quicksort upstream start_date end_date
           retry_attempts w) = w ++ tail
    /\ Forall (fetch_event (build_request start_date end_date)) tail
    /\ Z.of_nat (requests_made tail) <= Z.max 0 retry_attempts.
Proof.
  unfold fetch_generation_data.
  destruct (retry_loop_events retry_attempts
              (build_request start_date end_date) (Z.to_nat retry_attempts) 0 w)
    as [t [Ht [Hev Hn]]].
  exists t. split; [exact Ht |]. split; [exact Hev | lia].
Qed.

(** X6. With a number of attempts at or below zero the loop body never
    runs: no request is made and the fetch raises the exception that
    follows the loop. *)
Theorem fetch_without_attempts_raises (start_date end_date : datetime)
    (retry_attempts : Z) (w : World) :
  retry_attempts <= 0 ->
  fetch_generation_data quicksort upstream start_date end_date retry_attempts w
  = (raise (Exception "Failed to fetch data after all retry attempts"), w).
Proof.
  intros Hn. unfold fetch_generation_data.
  replace (Z.to_nat retry_attempts) with 0%nat by lia. reflexivity.
Qed.

Lemma retry_loop_sleeps (n : Z) (rq : Request) (k : nat) :
  forall (a : Z) (w : World),
    0 <= a ->
    exists l,
      sleeps (snd (retry_loop quicksort upstream n rq k a w)) = sleeps w ++ l
      /\ StronglySorted Z.lt l
      /\ Forall (fun s => exists i, a <= i < n - 1 /\ s = 2 ^ i) l
      /\ zsum l <= 2 ^ (Z.max a (n - 1)) - 2 ^ a.
Proof.
  induction k as [| k IH]; intros a w Ha; cbn [retry_loop].
  - exists []. simpl. rewrite app_nil_r.
    repeat split; try constructor.
    assert (2 ^ a <= 2 ^ Z.max a (n - 1)) by (apply Z.pow_le_mono_r; lia). lia.
  - pose proof (attempt_body_world quicksort upstream rq w) as Hw.
    assert (Hmono : 2 ^ a <= 2 ^ Z.max a (n - 1))
      by (apply Z.pow_le_mono_r; lia).
    destruct (attempt_body quicksort upstream rq w) as [[e | [df |]] w1];
      simpl in Hw; subst w1.
    + destruct (a <? n - 1) eqn:Ea.
      * apply Z.ltb_lt in Ea.
        destruct (IH (a + 1) ((w ++ [Get rq]) ++ [Sleep (2 ^ a)]) ltac:(lia))
          as [l [Hl [Hs [Hf Hsum]]]].
        rewrite Hl, sleeps_sleep, sleeps_get, <- app_assoc.
        exists (2 ^ a :: l). split; [reflexivity |]. split; [| split].
        -- constructor; [exact Hs |].
           eapply Forall_impl; [| exact Hf]. intros s [i [Hi ->]].
           apply Z.pow_lt_mono_r; lia.
        -- constructor; [exists a; split; [lia | reflexivity] |].
           eapply Forall_impl; [| exact Hf]. intros s [i [Hi ->]].
           exists i. split; [lia | reflexivity].
        -- simpl. replace (Z.max (a + 1) (n - 1)) with (n - 1) in Hsum by lia.
           replace (Z.max a (n - 1)) with (n - 1) by lia.
           rewrite Z.pow_add_r in Hsum by lia. lia.
      * simpl. rewrite sleeps_get. exists []. rewrite app_nil_r.
        repeat split; try constructor. simpl. lia.
    + simpl. rewrite sleeps_get. exists []. rewrite app_nil_r.
      repeat split; try constructor. simpl. lia.
    + destruct (IH (a + 1) (w ++ [Get rq]) ltac:(lia))
        as [l [Hl [Hs [Hf Hsum]]]].
      rewrite Hl, sleeps_get. exists l. split; [reflexivity |].
      split; [exact Hs |]. split.
      * eapply Forall_impl; [| exact Hf]. intros s [i [Hi ->]].
        exists i. split; [lia | reflexivity].
      * assert (H1 : 2 ^ a <= 2 ^ (a + 1)) by (apply Z.pow_le_mono_r; lia).
        destruct (Z_lt_dec a (n - 1)).
        -- replace (Z.max (a + 1) (n - 1)) with (n - 1) in Hsum by lia.
           replace (Z.max a (n - 1)) with (n - 1) by lia. lia.
        -- replace (Z.max (a + 1) (n - 1)) with (a + 1) in Hsum by lia.
           replace (Z.max a (n - 1)) with a by lia. lia.
Qed.

(** X7. The pauses of one fetch follow the exponential schedule: they
    are powers of two [2 ^ i] with [0 <= i < retry_attempts - 1], each
    longer than the one before, and together they last at most
    [2 ^ (retry_attempts - 1) - 1] seconds. *)
Theorem fetch_backoff_schedule (start_date end_date : datetime)
    (retry_attempts : Z) (w : World) :
  1 <= retry_attempts ->
  exists pauses : list Z,
    sleeps (snd (fetch_generation_data quicksort upstream start_date end_date
                   retry_attempts w))
    = sleeps w ++ pauses
    /\ StronglySorted Z.lt pauses
    /\ Forall (fun s => exists i, 0 <= i < retry_attempts - 1 /\ s = 2 ^ i) pauses
    /\ zsum pauses <= 2 ^ (retry_attempts - 1) - 1.
Proof.
  intros Hn. unfold fetch_generation_data.
  destruct (retry_loop_sleeps retry_attempts
              (build_request start_date end_date) (Z.to_nat retry_attempts)
              0 w ltac:(lia)) as [l [Hl [Hs [Hf Hsum]]]].
  exists l. repeat split; try assumption.
  replace (Z.max 0 (retry_attempts - 1)) with (retry_attempts - 1) in Hsum by lia.
  simpl in Hsum. exact Hsum.
Qed.

End FetchFacts.

Lemma fetch_without_attempts_raises_witness :
  fetch_generation_data stable_sort
    (fun _ _ => Returns (mkResponse 200 (Some sample_payload)))
    new_year_2024 (new_year_2024 + timedelta_days 1) 0 []
  = (raise (Exception "Failed to fetch data after all retry attempts"), []).
Proof. apply fetch_without_attempts_raises. lia. Defined.

Lemma fetch_backoff_schedule_witness :
  exists pauses : list Z,
    sleeps (snd (fetch_generation_data stable_sort
                   (fun _ _ => Raises (RequestException "timed out"))
                   new_year_2024 (new_year_2024 + timedelta_days 1) 4 []))
    = sleeps [] ++ pauses
    /\ zsum pauses <= 2 ^ (4 - 1) - 1.
Proof.
  destruct (fetch_backoff_schedule stable_sort
              (fun _ _ => Raises (RequestException "timed out"))
              new_year_2024 (new_year_2024 + timedelta_days 1) 4 [])
    as [l [H1 [_ [_ H2]]]]; [lia |].
  exists l. split; assumption.
Defined.

Section FetchSuccess.

Variable quicksort : sort_algorithm.
Variable upstream : Upstream.

Lemma retry_loop_succeeds_after (n : Z) (rq : Request) (r : Response)
    (df0 df : DataFrame) (k : nat) :
  status_code r = 200 ->
  decode quicksort r = inr df0 ->
  _apply_quality_checks df0 = inr df ->
  forall (m : nat) (a : Z) (w : World),
    (k < m)%nat ->
    a + Z.of_nat m = n ->
    (forall i, (i < k)%nat -> failed (upstream (requests_made w + i)%nat rq)) ->
    upstream (requests_made w + k)%nat rq = Returns r ->
    exists w',
      retry_loop quicksort upstream n rq m a w = (inr df, w')
      /\ requests_made w' = (requests_made w + k + 1)%nat.
Proof.
  intros Hs Hd Hq.
  induction k as [| k IH]; intros m a w Hkm Ham Hfail Hok;
    (destruct m as [| m]; [lia |]); cbn [retry_loop].
  - rewrite Nat.add_0_r in Hok.
    rewrite (attempt_body_ok quicksort upstream rq w r Hok Hs), Hd, Hq.
    exists (w ++ [Get rq]). split; [reflexivity |].
    rewrite requests_made_get. lia.
  - pose proof (Hfail 0%nat ltac:(lia)) as H0. rewrite Nat.add_0_r in H0.
    assert (Hnext : forall w1, requests_made w1 = S (requests_made w) ->
              exists w',
                retry_loop quicksort upstream n rq m (a + 1) w1 = (inr df, w')
                /\ requests_made w' = (requests_made w + S k + 1)%nat).
    { intros w1 Hw1.
      destruct (IH m (a + 1) w1) as [w' [Hrun Hcnt]]; try lia.
      - intros i Hi. rewrite Hw1.
        replace (S (requests_made w) + i)%nat
          with (requests_made w + S i)%nat by lia.
        apply Hfail. lia.
      - rewrite Hw1.
        replace (S (requests_made w) + k)%nat
          with (requests_made w + S k)%nat by lia.
        exact Hok.
      - exists w'. split; [exact Hrun | lia]. }
    destruct (upstream (requests_made w) rq) as [e | r'] eqn:E; simpl in H0.
    + rewrite (attempt_body_raises quicksort upstream rq w e E).
      replace (a <? n - 1) with true by (symmetry; apply Z.ltb_lt; lia).
      apply Hnext. now rewrite requests_made_sleep, requests_made_get.
    + rewrite (attempt_body_status quicksort upstream rq w r' E H0).
      apply Hnext. now rewrite requests_made_get.
Qed.

(** X8. A fetch stops retrying at the first good answer: when the
    first [k] calls fail (they raise or answer with another status) and
    call [k], with [k] below the number of attempts, answers 200 with a
    body that parses, the fetch returns the filtered frame of that body
    after exactly [k + 1] requests. *)
Theorem fetch_returns_first_good_answer (start_date end_date : datetime)
    (retry_attempts : Z) (w : World) (k : nat) (r : Response)
    (df0 df : DataFrame) :
  Z.of_nat k < retry_attempts ->
  (forall i, (i < k)%nat ->
     failed (upstream (requests_made w + i)%nat
               (build_request start_date end_date))) ->
  upstream (requests_made w + k)%nat (build_request start_date end_date)
  = Returns r ->
  status_code r = 200 ->
  decode quicksort r = inr df0 ->
  _apply_quality_checks df0 = inr df ->
  exists w',
    fetch_generation_data quicksort upstream start_date end_date
      retry_attempts w = (inr df, w')
    /\ requests_made w' = (requests_made w + k + 1)%nat.
Proof.
  intros Hk Hfail Hok Hs Hd Hq. unfold fetch_generation_data.
  apply (retry_loop_succeeds_after retry_attempts _ r df0 df k Hs Hd Hq);
    try assumption; lia.
Qed.

End FetchSuccess.

Lemma fetch_returns_first_good_answer_witness :
  exists w',
    fetch_generation_data stable_sort
      (fun n _ => match n with
                  | O => Raises (RequestException "timed out")
                  | 1%nat => Returns (mkResponse 503 None)
                  | _ => Returns (mkResponse 200 (Some sample_payload))
                  end)
      new_year_2024 (new_year_2024 + timedelta_days 1) 3 []
    = (inr (mkDF ["timestamp"; "fuel_type"; "generation_mw"; "total_generation"]
                 [[CTime new_year_2024; CStr "Nuclear"; CNum 30000; CNum 30000]]),
       w')
    /\ requests_made w' = 3%nat.
Proof.
  apply (fetch_returns_first_good_answer stable_sort _ _ _ 3 [] 2
           (mkResponse 200 (Some sample_payload))
           (mkDF record_columns
                 [[CTime new_year_2024; CStr "Nuclear"; CNum 30000]])).
  - lia.
  - intros [| [| i]] Hi; simpl; [exact I | discriminate | lia].
  - reflexivity.
  - reflexivity.
  - vm_compute. reflexivity.
  - vm_compute. reflexivity.
Defined.

(** ** From the body to the cleaned frame *)

Lemma exact_total_perm (l l' : list GenerationRecord) (t : Z) :
  Permutation l l' -> exact_total l t = exact_total l' t.
Proof.
  unfold exact_total, at_timestamp.
  induction 1 as [| x l l' _ IH | x y l | l l' l'' _ IH1 _ IH2].
  - reflexivity.
  - simpl. destruct (timestamp x =? t); simpl; now rewrite IH.
  - simpl. destruct (timestamp x =? t), (timestamp y =? t); simpl; lia.
  - now rewrite IH1.
Qed.

(** Wrapped or not, a total does not depend on the order of the rows. *)
Lemma group_total_perm (l l' : list GenerationRecord) (t : Z) :
  Permutation l l' -> group_total l t = group_total l' t.
Proof.
  intros H. rewrite !group_total_exact. f_equal. now apply exact_total_perm.
Qed.

Lemma int64_safe_perm (l l' : list GenerationRecord) :
  Permutation l l' -> int64_safe l -> int64_safe l'.
Proof.
  unfold int64_safe. intros H.
  assert (E : zsum (map (fun r => Z.abs (generation_mw r)) l)
              = zsum (map (fun r => Z.abs (generation_mw r)) l')).
  { induction H as [| x l l' _ IH | x y l | l l' l'' _ IH1 _ IH2]; simpl;
      try lia. }
  now rewrite E.
Qed.

Lemma filter_perm {A : Type} (P : A -> bool) (l l' : list A) :
  Permutation l l' -> Permutation (filter P l) (filter P l').
Proof.
  induction 1 as [| x l l' _ IH | x y l | l l' l'' _ IH1 _ IH2].
  - constructor.
  - simpl. destruct (P x); [now constructor | exact IH].
  - simpl. destruct (P x), (P y); try apply Permutation_refl. apply perm_swap.
  - eapply Permutation_trans; eassumption.
Qed.

Lemma filter_sorted {A : Type} (R : A -> A -> Prop) (P : A -> bool) (l : list A) :
  StronglySorted R l -> StronglySorted R (filter P l).
Proof.
  induction 1 as [| x l Hs IH Hall]; simpl; [constructor |].
  destruct (P x); [| exact IH].
  constructor; [exact IH |].
  apply Forall_forall. intros y Hy. apply filter_In in Hy as [Hy _].
  rewrite Forall_forall in Hall. now apply Hall.
Qed.

Section FetchContent.

Variable quicksort : sort_algorithm.
Variable upstream : Upstream.
Hypothesis quicksort_sorts : sorts quicksort.

(** X9. When the first answer has status 200 and a body of the expected
    shape, whose quantities [int64] arithmetic adds up exactly, the
    fetch returns after that single request, without pause, and the
    frame it returns holds exactly the entries of the body that belong
    to periods summing to at least 25000, in ascending order of
    timestamp; every period present in it sums to at least 25000. *)
Theorem fetch_returns_clean_sorted_records (start_date end_date : datetime)
    (retry_attempts : Z) (w : World) (r : Response) (data : Payload) :
  1 <= retry_attempts ->
  upstream (requests_made w) (build_request start_date end_date) = Returns r ->
  status_code r = 200 ->
  body r = Some data ->
  well_formed data = true ->
  int64_safe (payload_records data) ->
  let entries := payload_records data in
  exists (df : DataFrame) (recs : list GenerationRecord),
    fetch_generation_data quicksort upstream start_date end_date
      retry_attempts w
    = (inr df, w ++ [Get (build_request start_date end_date)])
    /\ records_of df = Some recs
    /\ Permutation
         (filter (fun x => 25000 <=? exact_total entries (timestamp x)) entries)
         recs
    /\ StronglySorted (fun a b => timestamp a <= timestamp b) recs
    /\ (forall x, In x recs -> 25000 <= exact_total recs (timestamp x)).
Proof.
  intros Hn Hup Hs Hb Hwf Hsafe entries.
  destruct (parse_response_records quicksort data quicksort_sorts Hwf)
    as [parsed [Hparse [Hperm Hsorted]]].
  assert (Hsafe' : int64_safe parsed) by now apply (int64_safe_perm entries).
  destruct (quality_filter_records parsed) as [df [Hq Hrec]].
  exists df, (filter (is_valid parsed) parsed).
  split; [| split; [exact Hrec | split; [| split]]].
  - unfold fetch_generation_data.
    destruct (Z.to_nat retry_attempts) as [| m] eqn:Em; [lia |].
    cbn [retry_loop].
    rewrite (attempt_body_ok quicksort upstream _ w r Hup Hs).
    unfold decode, response_json. rewrite Hb. cbn [rbind ok].
    rewrite Hparse. unfold ok in *. cbv beta iota. rewrite Hq. reflexivity.
  - rewrite (filter_ext (is_valid parsed)
               (fun x => 25000 <=? exact_total entries (timestamp x))).
    + now apply filter_perm.
    + intros x. rewrite is_valid_safe by exact Hsafe'.
      now rewrite (exact_total_perm entries parsed).
  - now apply filter_sorted.
  - intros x Hx.
    destruct (kept_groups_exact parsed x Hsafe' Hx) as [-> H]. exact H.
Qed.

End FetchContent.

Lemma fetch_returns_clean_sorted_records_witness :
  exists (df : DataFrame) (recs : list GenerationRecord),
    fetch_generation_data numpy_quicksort
      (fun _ _ => Returns (mkResponse 200 (Some two_period_payload)))
      new_year_2024 (new_year_2024 + timedelta_days 1) 3 []
    = (inr df, [] ++ [Get (build_request new_year_2024
                             (new_year_2024 + timedelta_days 1))])
    /\ records_of df = Some recs
    /\ Permutation [mkRecord new_year_2024 "Nuclear" 20000;
                    mkRecord new_year_2024 "Fossil Gas" 10000;
                    mkRecord new_year_2024 "Solar" 100] recs.
Proof.
  destruct (fetch_returns_clean_sorted_records numpy_quicksort
              (fun _ _ => Returns (mkResponse 200 (Some two_period_payload)))
              numpy_quicksort_sorts
              new_year_2024 (new_year_2024 + timedelta_days 1) 3 []
              (mkResponse 200 (Some two_period_payload)) two_period_payload)
    as [df [recs [H1 [H2 [H3 _]]]]]; try reflexivity; [lia |].
  exists df, recs. split; [exact H1 |]. split; [exact H2 | exact H3].
Defined.

(** ** The bounds of a request *)

Lemma fields_of_truncate (t : datetime) :
  0 <= t ->
  let f := fields_of t in
  let g := fields_of (truncate_to_second t) in
  year g = year f /\ month g = month f /\ day g = day f
  /\ hour g = hour f /\ minute g = minute f /\ second g = second f.
Proof.
  intros Ht.
  assert (E : t - t mod 1000000 = 1000000 * (t / 1000000))
    by (pose proof (Z.div_mod t 1000000 ltac:(lia)); lia).
  assert (Hd : (t - t mod US_PER_SECOND) / US_PER_DAY = t / US_PER_DAY).
  { unfold US_PER_DAY, US_PER_SECOND. rewrite E.
    rewrite (Z.mul_comm 86400 1000000).
    rewrite Z.div_mul_cancel_l by lia.
    rewrite <- Z.div_div by lia. reflexivity. }
  assert (Hs : (t - t mod US_PER_SECOND) mod US_PER_DAY / US_PER_SECOND
               = t mod US_PER_DAY / US_PER_SECOND).
  { unfold US_PER_DAY, US_PER_SECOND. rewrite E.
    rewrite (Z.mul_comm 86400 1000000).
    rewrite Z.mul_mod_distr_l by lia.
    rewrite (Z.mul_comm 1000000 (_ mod _)), Z.div_mul by lia.
    rewrite Z.rem_mul_r by lia.
    rewrite (Z.mul_comm 1000000 (_ mod _)), Z.div_add by lia.
    rewrite (Z.div_small (t mod 1000000) 1000000)
      by (apply Z.mod_pos_bound; lia).
    reflexivity. }
  cbv zeta. unfold fields_of, truncate_to_second.
  cbn [year month day hour minute second].
  rewrite Hd, Hs. repeat split; reflexivity.
Qed.

Lemma strftime_truncate (t : datetime) :
  0 <= t ->
  strftime (truncate_to_second t) TIMESTAMP_FORMAT = strftime t TIMESTAMP_FORMAT.
Proof.
  intros Ht.
  destruct (fields_of_truncate t Ht) as [Hy [Hm [Hd [Hh [Hmi Hs]]]]].
  change (strftime t TIMESTAMP_FORMAT)
    with (let f := fields_of t in
          (pad4 (year f) ++ "-" ++ pad2 (month f) ++ "-" ++ pad2 (day f) ++ "T"
           ++ pad2 (hour f) ++ ":" ++ pad2 (minute f) ++ ":" ++ pad2 (second f)
           ++ "Z")%string).
  change (strftime (truncate_to_second t) TIMESTAMP_FORMAT)
    with (let f := fields_of (truncate_to_second t) in
          (pad4 (year f) ++ "-" ++ pad2 (month f) ++ "-" ++ pad2 (day f) ++ "T"
           ++ pad2 (hour f) ++ ":" ++ pad2 (minute f) ++ ":" ++ pad2 (second f)
           ++ "Z")%string).
  cbv zeta. now rewrite Hy, Hm, Hd, Hh, Hmi, Hs.
Qed.

(** X10. The timestamp a request carries names the second and nothing
    else: two datetimes in range are formatted to the same string
    exactly when they are equal up to their microseconds. *)
Theorem timestamp_string_names_the_second (t1 t2 : datetime) :
  valid_datetime t1 -> valid_datetime t2 ->
  (strftime t1 TIMESTAMP_FORMAT = strftime t2 TIMESTAMP_FORMAT
   <-> truncate_to_second t1 = truncate_to_second t2).
Proof.
  intros H1 H2. split; intros H.
  - pose proof (timestamp_round_trip t1 H1) as R1.
    pose proof (timestamp_round_trip t2 H2) as R2.
    rewrite H, R2 in R1. now injection R1.
  - rewrite <- (strftime_truncate t1), <- (strftime_truncate t2), H
      by (unfold valid_datetime in *; lia).
    reflexivity.
Qed.

Lemma timestamp_string_names_the_second_witness :
  strftime (new_year_2024 + 250000) TIMESTAMP_FORMAT
  = strftime (new_year_2024 + 750000) TIMESTAMP_FORMAT.
Proof.
  apply timestamp_string_names_the_second.
  - vm_compute. split; [discriminate | reflexivity].
  - vm_compute. split; [discriminate | reflexivity].
  - vm_compute. reflexivity.
Defined.

Section CurrentGeneration.

Variable quicksort : sort_algorithm.
Variable upstream : Upstream.

Lemma fetch_starts_with_request (start_date end_date : datetime)
    (retry_attempts : Z) (w : World) :
  1 <= retry_attempts ->
  exists tail,
    snd (fetch_generation_data quicksort upstream start_date end_date
           retry_attempts w)
    = w ++ Get (build_request start_date end_date) :: tail.
Proof.
  intros Hn. unfold fetch_generation_data.
  destruct (Z.to_nat retry_attempts) as [| k] eqn:Ek; [lia |].
  set (rq := build_request start_date end_date).
  cbn [retry_loop].
  pose proof (attempt_body_world quicksort upstream rq w) as Hw.
  destruct (attempt_body quicksort upstream rq w) as [[e | [df |]] w1];
    simpl in Hw; subst w1.
  - destruct (0 <? retry_attempts - 1).
    + destruct (retry_loop_extends quicksort upstream retry_attempts rq k
                  (0 + 1) ((w ++ [Get rq]) ++ [Sleep (2 ^ 0)])) as [t Ht].
      rewrite Ht. exists (Sleep (2 ^ 0) :: t). now rewrite <- !app_assoc.
    + now exists [].
  - now exists [].
  - destruct (retry_loop_extends quicksort upstream retry_attempts rq k
                (0 + 1) (w ++ [Get rq])) as [t Ht].
    rewrite Ht. exists t. now rewrite <- app_assoc.
Qed.

(** X11. [fetch_current_generation] asks for the last 24 hours: its
    first effect is a GET whose two bounds name instants exactly 24
    hours apart, the later one being the current time cut to the
    second. *)
Theorem current_generation_asks_for_24_hours (utcnow : datetime) (w : World) :
  valid_datetime utcnow ->
  timedelta_hours 24 <= utcnow ->
  let rq := build_request (utcnow - timedelta_hours 24) utcnow in
  exists (a b : datetime) (tail : World),
    snd (fetch_current_generation quicksort upstream utcnow w)
    = w ++ Get rq :: tail
    /\ parse_timestamp (param_from rq) = Some a
    /\ parse_timestamp (param_to rq) = Some b
    /\ b = truncate_to_second utcnow
    /\ b - a = timedelta_hours 24.
Proof.
  intros Hv Hday rq.
  assert (Hv' : valid_datetime (utcnow - timedelta_hours 24)).
  { unfold valid_datetime, timedelta_hours, US_PER_SECOND in *. lia. }
  destruct (fetch_starts_with_request (utcnow - timedelta_hours 24) utcnow 3 w
              ltac:(lia)) as [tail Ht].
  exists (truncate_to_second (utcnow - timedelta_hours 24)),
         (truncate_to_second utcnow), tail.
  split; [exact Ht |].
  unfold rq, build_request. cbn [param_from param_to].
  rewrite !timestamp_round_trip by assumption.
  repeat split.
  unfold truncate_to_second, timedelta_hours, US_PER_SECOND.
  Z.to_euclidean_division_equations. lia.
Qed.

End CurrentGeneration.

Lemma current_generation_asks_for_24_hours_witness :
  exists (a b : datetime) (tail : World),
    snd (fetch_current_generation stable_sort
           (fun _ _ => Returns (mkResponse 200 (Some sample_payload)))
           (new_year_2024 + 123456) [])
    = [] ++ Get (build_request (new_year_2024 + 123456 - timedelta_hours 24)
                               (new_year_2024 + 123456)) :: tail
    /\ parse_timestamp "2023-12-31T00:00:00Z" = Some a
    /\ parse_timestamp "2024-01-01T00:00:00Z" = Some b
    /\ b = truncate_to_second (new_year_2024 + 123456)
    /\ b - a = timedelta_hours 24.
Proof.
  apply (current_generation_asks_for_24_hours stable_sort
           (fun _ _ => Returns (mkResponse 200 (Some sample_payload)))
           (new_year_2024 + 123456) []).
  - vm_compute. split; [discriminate | reflexivity].
  - vm_compute. discriminate.
Defined.

(** ** The historical fetch as a whole *)

Lemma chunks_left_step (end_date current_start : datetime) :
  current_start < end_date ->
  chunks_left end_date current_start
  = S (chunks_left end_date
         (Z.min (current_start + timedelta_days chunk_size) end_date)).
Proof.
  intros Hlt. unfold chunks_left. rewrite chunk_length.
  rewrite <- Z2Nat.inj_succ by (apply Z.div_pos; lia).
  f_equal.
  destruct (Z_le_dec (current_start + 604800000000) end_date).
  - replace (Z.min (current_start + 604800000000) end_date)
      with (current_start + 604800000000) by lia.
    Z.to_euclidean_division_equations. lia.
  - replace (Z.min (current_start + 604800000000) end_date) with end_date by lia.
    Z.to_euclidean_division_equations. lia.
Qed.

Lemma windows_length (end_date start_date : datetime) :
  List.length (windows end_date start_date) = chunks_left end_date start_date.
Proof.
  funelim (windows end_date start_date).
  - rewrite chunks_left_step by assumption. simpl. now f_equal.
  - unfold chunks_left. rewrite chunk_length.
    assert (H : (end_date - current_start + 604800000000 - 1) / 604800000000 <= 0)
      by (Z.to_euclidean_division_equations; lia).
    simpl. lia.
Qed.

Lemma chunks_of_days (utcnow : datetime) (days : Z) :
  0 <= days ->
  Z.of_nat (chunks_left utcnow (utcnow - timedelta_days days)) = (days + 6) / 7.
Proof.
  intros Hd. unfold chunks_left. rewrite chunk_length.
  unfold timedelta_days, US_PER_DAY, US_PER_SECOND.
  rewrite Z2Nat.id by (apply Z.div_pos; lia).
  Z.to_euclidean_division_equations. lia.
Qed.

Lemma requests_made_app (w tail : World) :
  requests_made (w ++ tail) = (requests_made w + requests_made tail)%nat.
Proof. unfold requests_made. now rewrite filter_app, length_app. Qed.

Section HistoricalFacts.

Variable quicksort : sort_algorithm.
Variable upstream : Upstream.

Lemma fetch_windows_app (ws1 ws2 : list (datetime * datetime))
    (all_data : list DataFrame) (w : World) :
  fetch_windows quicksort upstream (ws1 ++ ws2) all_data w
  = match fetch_windows quicksort upstream ws1 all_data w with
    | (inl e, w') => (inl e, w')
    | (inr all_data', w') => fetch_windows quicksort upstream ws2 all_data' w'
    end.
Proof.
  revert all_data w. induction ws1 as [| [a b] ws1 IH]; intros all_data w;
    [reflexivity |].
  cbn [app fetch_windows].
  destruct (fetch_generation_data quicksort upstream a b 3 w) as [[e | df] w1];
    [reflexivity | apply IH].
Qed.

(** X12. The historical fetch is all or nothing: when the fetch of one
    sub-window raises after the sub-windows before it were fetched, the
    whole call raises that exception, returns no frame, and does
    nothing after the failed fetch: no later sub-window is requested. *)
Theorem historical_fetch_aborts_on_failure (utcnow : datetime) (days : Z)
    (w w1 w2 : World) (ws1 ws2 : list (datetime * datetime))
    (a b : datetime) (all_data : list DataFrame) (e : exn) :
  windows utcnow (utcnow - timedelta_days days) = ws1 ++ (a, b) :: ws2 ->
  fetch_windows quicksort upstream ws1 [] w = (inr all_data, w1) ->
  fetch_generation_data quicksort upstream a b 3 w1 = (inl e, w2) ->
  fetch_historical_data quicksort upstream utcnow days w = (inl e, w2).
Proof.
  intros Hws H1 H2.
  rewrite (fetch_historical_data_windows quicksort upstream).
  rewrite Hws, fetch_windows_app, H1. cbn [fetch_windows]. now rewrite H2.
Qed.

Lemma fetch_windows_requests (ws : list (datetime * datetime))
    (all_data : list DataFrame) (w : World) :
  (requests_made (snd (fetch_windows quicksort upstream ws all_data w))
   <= requests_made w + 3 * List.length ws)%nat.
Proof.
  revert all_data w. induction ws as [| [a b] ws IH]; intros all_data w;
    cbn [fetch_windows]; [simpl; lia |].
  destruct (retry_loop_events quicksort upstream 3 (build_request a b) 3 0 w)
    as [tail [Ht [_ Hn]]].
  change (retry_loop quicksort upstream 3 (build_request a b) 3 0 w)
    with (fetch_generation_data quicksort upstream a b 3 w) in Ht.
  destruct (fetch_generation_data quicksort upstream a b 3 w) as [[e | df] w1];
    simpl in Ht; subst w1.
  - simpl. rewrite requests_made_app. lia.
  - specialize (IH (all_data ++ [df]) ((w ++ tail) ++ [Sleep 1])).
    rewrite requests_made_sleep, requests_made_app in IH. simpl List.length. lia.
Qed.

(** X13. A historical fetch of [days >= 0] days, with the datetimes it
    computes in the range of [datetime], is cut into [ceil(days / 7)]
    sub-windows and, with three attempts for each, issues at most three
    times as many requests. *)
Theorem historical_fetch_request_budget (utcnow : datetime) (days : Z)
    (w : World) :
  historical_range utcnow days ->
  0 <= days ->
  Z.of_nat (List.length (windows utcnow (utcnow - timedelta_days days)))
  = (days + 6) / 7
  /\ Z.of_nat (requests_made
                 (snd (fetch_historical_data quicksort upstream utcnow days w)))
     <= Z.of_nat (requests_made w) + 3 * ((days + 6) / 7).
Proof.
  intros _ Hd.
  assert (Hlen : Z.of_nat (List.length
                             (windows utcnow (utcnow - timedelta_days days)))
                 = (days + 6) / 7)
    by (rewrite windows_length; now apply chunks_of_days).
  split; [exact Hlen |].
  rewrite (fetch_historical_data_windows quicksort upstream).
  pose proof (fetch_windows_requests
                (windows utcnow (utcnow - timedelta_days days)) [] w) as Hreq.
  destruct (fetch_windows quicksort upstream
              (windows utcnow (utcnow - timedelta_days days)) [] w)
    as [[e | all_data] w']; cbn [snd] in *; lia.
Qed.

Lemma fetch_windows_ends_with_pause (ws : list (datetime * datetime)) :
  ws <> [] ->
  forall (all_data result : list DataFrame) (w w' : World),
    fetch_windows quicksort upstream ws all_data w = (inr result, w') ->
    exists w0, w' = w0 ++ [Sleep 1].
Proof.
  induction ws as [| [a b] ws IH]; intros Hne all_data result w w' Hrun;
    [contradiction |].
  cbn [fetch_windows] in Hrun.
  destruct (fetch_generation_data quicksort upstream a b 3 w) as [[e | df] w1];
    [discriminate |].
  destruct ws as [| p ws'].
  - cbn [fetch_windows] in Hrun. injection Hrun as _ <-. now exists w1.
  - eapply IH; [discriminate | exact Hrun].
Qed.

(** X14. The one-second pause is taken after every sub-window, the last
    one included: a historical fetch of a positive number of days that
    returns a frame has slept one second as its last effect. *)
Theorem historical_fetch_ends_with_pause (utcnow : datetime) (days : Z)
    (w w' : World) (df : DataFrame) :
  0 < days ->
  fetch_historical_data quicksort upstream utcnow days w = (inr df, w') ->
  exists w0, w' = w0 ++ [Sleep 1].
Proof.
  intros Hd Hrun.
  rewrite (fetch_historical_data_windows quicksort upstream) in Hrun.
  destruct (fetch_windows quicksort upstream
              (windows utcnow (utcnow - timedelta_days days)) [] w)
    as [[e | all_data] w1] eqn:E; [discriminate |].
  assert (Hw : w1 = w') by (destruct (concat all_data); congruence).
  subst w1.
  eapply fetch_windows_ends_with_pause; [| exact E].
  rewrite windows_step; [discriminate |].
  unfold timedelta_days, US_PER_DAY, US_PER_SECOND. lia.
Qed.

End HistoricalFacts.

Lemma historical_fetch_aborts_on_failure_witness :
  exists w2,
    fetch_historical_data stable_sort
      (fun n _ => match n with
                  | O => Returns (mkResponse 200 (Some sample_payload))
                  | S _ => Raises (RequestException "timed out")
                  end)
      new_year_2024 10 []
    = (inl (RequestException "timed out"), w2).
Proof.
  eexists.
  eapply (historical_fetch_aborts_on_failure stable_sort _ new_year_2024 10 []
            _ _ [(new_year_2024 - timedelta_days 10,
                  new_year_2024 - timedelta_days 3)]
            [] (new_year_2024 - timedelta_days 3) new_year_2024).
  - vm_compute. reflexivity.
  - vm_compute. reflexivity.
  - vm_compute. reflexivity.
Defined.

Lemma historical_fetch_request_budget_witness :
  Z.of_nat (List.length (windows new_year_2024
                           (new_year_2024 - timedelta_days 30)))
  = (30 + 6) / 7
  /\ Z.of_nat (requests_made
                 (snd (fetch_historical_data stable_sort
                         (fun _ _ => Returns (mkResponse 503 None))
                         new_year_2024 30 [])))
     <= Z.of_nat (requests_made []) + 3 * ((30 + 6) / 7).
Proof.
  apply historical_fetch_request_budget.
  - vm_compute. repeat split; discriminate || reflexivity.
  - lia.
Defined.

Lemma historical_fetch_ends_with_pause_witness :
  exists w0,
    snd (fetch_historical_data stable_sort
           (fun _ _ => Returns (mkResponse 200 (Some sample_payload)))
           new_year_2024 10 [])
    = w0 ++ [Sleep 1].
Proof.
  eapply (historical_fetch_ends_with_pause stable_sort
            (fun _ _ => Returns (mkResponse 200 (Some sample_payload)))
            new_year_2024 10 []).
  - lia.
  - vm_compute. reflexivity.
Defined.

(** ** A range without data *)

Section NoData.

Variable quicksort : sort_algorithm.
Variable upstream : Upstream.

(** Every answer has status 200 and a body of the expected shape
    without any entry. *)
Hypothesis no_data :
  forall n rq, exists data,
    upstream n rq = Returns (mkResponse 200 (Some data))
    /\ well_formed data = true
    /\ payload_records data = [].

Lemma fetch_no_data (start_date end_date : datetime) (w : World) :
  fetch_generation_data quicksort upstream start_date end_date 3 w
  = (ok (mkDF [] []), w ++ [Get (build_request start_date end_date)]).
Proof.
  destruct (no_data (requests_made w) (build_request start_date end_date))
    as [data [Hup [Hwf Hrec]]].
  unfold fetch_generation_data. change (Z.to_nat 3) with 3%nat.
  cbn [retry_loop].
  rewrite (attempt_body_ok quicksort upstream _ w _ Hup eq_refl).
  unfold decode, response_json. cbn [body rbind ok].
  unfold _parse_response. unfold well_formed in Hwf.
  rewrite parse_periods_well_formed by exact Hwf.
  change (payload_records (mkPayload (Some (get_or_empty (payload_data data)))))
    with (payload_records data).
  rewrite Hrec. reflexivity.
Qed.

Lemma fetch_windows_no_data (ws : list (datetime * datetime)) :
  forall (all_data : list DataFrame) (w : World),
    exists w',
      fetch_windows quicksort upstream ws all_data w
      = (inr (all_data ++ repeat (mkDF [] []) (List.length ws)), w').
Proof.
  induction ws as [| [a b] ws IH]; intros all_data w; cbn [fetch_windows].
  - exists w. simpl. now rewrite app_nil_r.
  - rewrite fetch_no_data. unfold ok.
    destruct (IH (all_data ++ [mkDF [] []])
                 ((w ++ [Get (build_request a b)]) ++ [Sleep 1])) as [w' Hw'].
    exists w'. rewrite Hw'. simpl. now rewrite <- app_assoc.
Qed.

(** X15. When the API has no data for the range, so that every answer
    is a body of the expected shape without entries, a historical fetch
    of a positive number of days, with the datetimes it computes in the
    range of [datetime], does not fail: it returns the frame without
    rows and without columns. *)
Theorem historical_fetch_without_data (utcnow : datetime) (days : Z)
    (w : World) :
  historical_range utcnow days ->
  0 < days ->
  exists w',
    fetch_historical_data quicksort upstream utcnow days w
    = (ok (mkDF [] []), w').
Proof.
  intros _ Hd. rewrite (fetch_historical_data_windows quicksort upstream).
  destruct (fetch_windows_no_data
              (windows utcnow (utcnow - timedelta_days days)) [] w)
    as [w' Hw'].
  rewrite Hw'. exists w'. cbn [app].
  rewrite concat_empty_frames; [reflexivity | |].
  - rewrite windows_step; [discriminate |].
    unfold timedelta_days, US_PER_DAY, US_PER_SECOND. lia.
  - apply Forall_forall. intros df Hdf. now apply repeat_spec in Hdf.
Qed.

End NoData.

Lemma historical_fetch_without_data_witness :
  exists w',
    fetch_historical_data stable_sort
      (fun _ _ => Returns (mkResponse 200 (Some (mkPayload (Some [])))))
      new_year_2024 10 []
    = (ok (mkDF [] []), w').
Proof.
  apply historical_fetch_without_data.
  - intros n rq. exists (mkPayload (Some [])). repeat split.
  - vm_compute. repeat split; discriminate || reflexivity.
  - lia.
Defined.

(** ** A fetch against a failing upstream *)

Section AllAttempts.

Variable quicksort : sort_algorithm.
Variable upstream : Upstream.
Hypothesis upstream_fails : always_fails upstream.

Lemma retry_loop_uses_all_attempts (n : Z) (rq : Request) (k : nat) :
  forall (a : Z) (w : World),
    a + Z.of_nat k = n ->
    exists (e : exn) (w' : World),
      retry_loop quicksort upstream n rq k a w = (inl e, w')
      /\ requests_made w' = (requests_made w + k)%nat.
Proof.
  induction k as [| k IH]; intros a w Hak.
  - exists exhausted, w. split; [reflexivity | lia].
  - rewrite (retry_loop_failing_step quicksort upstream n rq k a w upstream_fails).
    destruct (upstream (requests_made w) rq) as [e | r].
    + destruct (a <? n - 1) eqn:Ea.
      * destruct (IH (a + 1) ((w ++ [Get rq]) ++ [Sleep (2 ^ a)]) ltac:(lia))
          as [e' [w' [Hrun Hcnt]]].
        exists e', w'. split; [exact Hrun |].
        rewrite Hcnt, requests_made_sleep, requests_made_get. lia.
      * apply Z.ltb_ge in Ea. exists e, (w ++ [Get rq]).
        split; [reflexivity |]. rewrite requests_made_get. lia.
    + destruct (IH (a + 1) (w ++ [Get rq]) ltac:(lia)) as [e' [w' [Hrun Hcnt]]].
      exists e', w'. split; [exact Hrun |].
      rewrite Hcnt, requests_made_get. lia.
Qed.

(** X16. Against an upstream whose every call fails, a fetch with
    [retry_attempts >= 0] attempts uses them all: it issues exactly
    [retry_attempts] requests and then raises, returning no frame. *)
Theorem failing_fetch_uses_all_attempts (start_date end_date : datetime)
    (retry_attempts : Z) (w : World) :
  0 <= retry_attempts ->
  exists (e : exn) (w' : World),
    fetch_generation_data quicksort upstream start_date end_date
      retry_attempts w = (inl e, w')
    /\ Z.of_nat (requests_made w')
       = Z.of_nat (requests_made w) + retry_attempts.
Proof.
  intros Hn. unfold fetch_generation_data.
  destruct (retry_loop_uses_all_attempts retry_attempts
              (build_request start_date end_date) (Z.to_nat retry_attempts)
              0 w ltac:(lia)) as [e [w' [Hrun Hcnt]]].
  exists e, w'. split; [exact Hrun | lia].
Qed.

End AllAttempts.

Lemma failing_fetch_uses_all_attempts_witness :
  exists (e : exn) (w' : World),
    fetch_generation_data stable_sort
      (fun _ _ => Returns (mkResponse 503 None))
      new_year_2024 (new_year_2024 + timedelta_days 1) 5 []
    = (inl e, w')
    /\ Z.of_nat (requests_made w') = Z.of_nat (requests_made []) + 5.
Proof.
  apply failing_fetch_uses_all_attempts.
  - intros n rq. simpl. discriminate.
  - lia.
Defined.

(** ** The parser on bodies of few entries *)

(** NumPy's quicksort leaves a range of at most [SMALL_QUICKSORT]
    entries to its insertion sort, which moves an entry down only past
    entries of greater key.  So the rows of equal key of a short table
    keep their order.  The proof runs the insertion sort on keys that
    are made distinct by the position of the entry, and shows that it
    takes the same steps. *)

Lemma sorted_lt_unique (l1 l2 : list nat) :
  StronglySorted lt l1 -> StronglySorted lt l2 -> Permutation l1 l2 ->
  l1 = l2.
Proof.
  revert l2. induction l1 as [| x l1 IH]; intros l2 H1 H2 Hp.
  - apply Permutation_nil in Hp. now subst.
  - destruct l2 as [| y l2];
      [apply Permutation_sym, Permutation_nil in Hp; discriminate |].
    apply StronglySorted_inv in H1 as [H1 F1].
    apply StronglySorted_inv in H2 as [H2 F2].
    rewrite Forall_forall in F1, F2.
    assert (Hxy : x = y).
    { assert (Hx : In x (y :: l2))
        by (apply (Permutation_in _ Hp); now left).
      assert (Hy : In y (x :: l1))
        by (apply (Permutation_in _ (Permutation_sym Hp)); now left).
      destruct Hx as [Hx | Hx]; [now subst |].
      destruct Hy as [Hy | Hy]; [now subst |].
      specialize (F1 y Hy). specialize (F2 x Hx). lia. }
    subst y. f_equal. apply IH; [exact H1 | exact H2 |].
    now apply Permutation_cons_inv in Hp.
Qed.

Lemma sorted_filter_lt (R : nat -> nat -> Prop) (P : nat -> bool) (l : list nat) :
  StronglySorted R l ->
  (forall i j, P i = true -> P j = true -> R i j -> (i < j)%nat) ->
  StronglySorted lt (filter P l).
Proof.
  intros Hs HR. induction Hs as [| x l Hs IH F]; cbn [filter]; [constructor |].
  destruct (P x) eqn:Ex; [| exact IH].
  constructor; [exact IH |].
  apply Forall_forall. intros y Hy. apply filter_In in Hy as [Hy Py].
  rewrite Forall_forall in F. apply HR; auto.
Qed.

Section Ties.

Variable v : list Z.

(** The keys with the position as a second key. *)
Definition tie_keys : list Z :=
  map (fun i => nth i v 0 * Z.of_nat (List.length v) + Z.of_nat i)
      (seq 0 (List.length v)).

Lemma tie_keys_length : List.length tie_keys = List.length v.
Proof. unfold tie_keys. now rewrite length_map, length_seq. Qed.

Lemma tie_keys_nth (i : nat) :
  (i < List.length v)%nat ->
  nth i tie_keys 0 = nth i v 0 * Z.of_nat (List.length v) + Z.of_nat i.
Proof.
  intros Hi. unfold tie_keys.
  set (f := fun i => nth i v 0 * Z.of_nat (List.length v) + Z.of_nat i).
  rewrite (nth_indep _ 0 (f 0%nat)) by now rewrite length_map, length_seq.
  rewrite map_nth, seq_nth by exact Hi. reflexivity.
Qed.

Lemma tie_keys_ltb (i j : nat) :
  (j < i)%nat -> (i < List.length v)%nat ->
  (nth i tie_keys 0 <? nth j tie_keys 0) = (nth i v 0 <? nth j v 0).
Proof.
  intros Hji Hi. rewrite !tie_keys_nth by lia.
  destruct (Z.ltb_spec (nth i v 0) (nth j v 0)) as [H | H].
  - apply Z.ltb_lt. nia.
  - apply Z.ltb_ge. nia.
Qed.

Lemma shift_up_ties (pl vi : nat) :
  (vi < List.length v)%nat ->
  forall (steps pj : nat) (a : list nat),
    (forall p, (pl <= p < pj)%nat -> (nth p a 0 < vi)%nat) ->
    Numpy.shift_up tie_keys steps pl vi pj a = Numpy.shift_up v steps pl vi pj a.
Proof.
  intros Hvi. induction steps as [| steps IH]; intros pj a Hlow;
    cbn [Numpy.shift_up]; [reflexivity |].
  destruct (Nat.ltb_spec pl pj) as [Hlt | Hge]; cbn [andb]; [| reflexivity].
  unfold Numpy.key_at.
  rewrite tie_keys_ltb by (try exact Hvi; apply Hlow; lia).
  destruct (nth vi v 0 <? nth (nth (pj - 1) a 0%nat) v 0); [| reflexivity].
  apply IH. intros p Hp. rewrite nth_set_nth_neq by lia. apply Hlow. lia.
Qed.

Lemma insertion_loop_ties (pr : nat) :
  forall (count pi : nat) (a : list nat),
    (pi + count = S pr)%nat -> (0 < pi)%nat -> (pr < List.length a)%nat ->
    List.length a = List.length v ->
    (forall p q, (0 <= p)%nat -> (p <= q)%nat -> (q < pi)%nat ->
                 Numpy.key_at v a p <= Numpy.key_at v a q) ->
    (forall p, (p < pi)%nat -> (nth p a 0 < pi)%nat) ->
    (forall p, (pi <= p)%nat -> (p < List.length a)%nat -> nth p a 0%nat = p) ->
    Numpy.insertion_loop tie_keys count 0 pi a
    = Numpy.insertion_loop v count 0 pi a.
Proof.
  induction count as [| count IH]; intros pi a Hcount Hpi Hpr Hlen Hpre Hlow Hid;
    cbn [Numpy.insertion_loop]; [reflexivity |].
  assert (Hvi : nth pi a 0%nat = pi) by (apply Hid; lia).
  rewrite Hvi.
  rewrite shift_up_ties by (try lia; intros p Hp; apply Hlow; lia).
  destruct (shift_up_spec v 0 pi a pi pi pi a) as [Hw1 Hs1].
  - lia.
  - lia.
  - lia.
  - pose proof (set_nth_same pi a 0%nat) as Hsame. rewrite Hvi in Hsame.
    rewrite Hsame. apply within_refl.
  - exact Hpre.
  - intros p q Hp Hpq Hq. lia.
  - intros p q Hp Hq. lia.
  - intros q Hq. lia.
  - destruct Hw1 as [L1 [O1 [I1 _]]].
    apply IH.
    + lia.
    + lia.
    + now rewrite L1.
    + now rewrite L1.
    + intros p q Hp Hpq Hq. apply Hs1; lia.
    + intros p Hp. destruct (I1 p ltac:(lia)) as [q [Hq ->]].
      destruct (Nat.eq_dec q pi) as [-> | Hne]; [lia |].
      specialize (Hlow q ltac:(lia)). lia.
    + intros p Hp Hp'. rewrite O1 by lia. apply Hid; [lia |].
      now rewrite <- L1.
Qed.

Lemma insertion_sort_ties :
  Numpy.insertion_sort tie_keys 0 (List.length v - 1) (seq 0 (List.length v))
  = Numpy.insertion_sort v 0 (List.length v - 1) (seq 0 (List.length v)).
Proof.
  unfold Numpy.insertion_sort.
  destruct (List.length v) as [| m] eqn:E; [reflexivity |].
  rewrite <- E. apply (insertion_loop_ties (List.length v - 1)).
  - lia.
  - lia.
  - rewrite length_seq. lia.
  - apply length_seq.
  - intros p q Hp Hpq Hq. assert (p = q) by lia. subst. lia.
  - intros p Hp. assert (p = 0)%nat by lia. subst.
    rewrite seq_nth by lia. lia.
  - intros p Hp Hp'. rewrite length_seq in Hp'. now rewrite seq_nth.
Qed.

Lemma aquicksort_small :
  (List.length v <= Numpy.SMALL_QUICKSORT)%nat ->
  Numpy.aquicksort v
  = Numpy.insertion_sort v 0 (List.length v - 1) (seq 0 (List.length v)).
Proof.
  intros Hsmall. unfold Numpy.aquicksort. cbn [Numpy.sort_range].
  assert (H0 : 0 <= Z.log2 (Z.of_nat (List.length v)) * 2)
    by (pose proof (Z.log2_nonneg (Z.of_nat (List.length v))); lia).
  apply Z.ltb_ge in H0. rewrite H0. cbn [andb].
  destruct (Nat.ltb_spec Numpy.SMALL_QUICKSORT
              (List.length v - 1 + 1 - 0)) as [H | H]; [| reflexivity].
  unfold Numpy.SMALL_QUICKSORT in *. lia.
Qed.

(** The positions of the entries of one key come out in ascending
    order. *)
Lemma aquicksort_small_ties (t : Z) :
  (List.length v <= Numpy.SMALL_QUICKSORT)%nat ->
  filter (fun i => nth i v 0 =? t) (Numpy.aquicksort v)
  = filter (fun i => nth i v 0 =? t) (seq 0 (List.length v)).
Proof.
  intros Hsmall.
  destruct (aquicksort_spec v) as [Hperm _].
  rewrite aquicksort_small in * by exact Hsmall.
  set (idx := Numpy.insertion_sort v 0 (List.length v - 1)
                (seq 0 (List.length v))) in *.
  assert (Hsorted : sorted_range tie_keys idx 0 (List.length v - 1)).
  { destruct (List.length v) as [| m] eqn:E.
    - intros p q Hp Hpq Hq. assert (p = q) by lia. subst. lia.
    - unfold idx. rewrite <- E, <- insertion_sort_ties.
      apply insertion_sort_spec; [lia |]. rewrite length_seq. lia. }
  assert (Hin : forall i, In i idx -> (i < List.length v)%nat).
  { intros i Hi. apply (Permutation_in _ Hperm) in Hi.
    apply in_seq in Hi. lia. }
  assert (Hlen : List.length idx = List.length v)
    by (rewrite (Permutation_length Hperm); apply length_seq).
  assert (Hnodup : NoDup idx)
    by (apply (Permutation_NoDup (Permutation_sym Hperm)), seq_NoDup).
  apply sorted_lt_unique.
  - apply (sorted_filter_lt
             (fun i j => (i < List.length v)%nat /\ (j < List.length v)%nat
                         /\ i <> j /\ nth i tie_keys 0 <= nth j tie_keys 0)).
    + apply (sorted_positions _ 0%nat).
      intros p q Hpq Hq.
      split; [apply Hin, nth_In; lia |].
      split; [apply Hin, nth_In; lia |].
      split.
      * intros Heq. apply (proj1 (NoDup_nth idx 0%nat) Hnodup) in Heq; lia.
      * apply Hsorted; lia.
    + intros i j Hi Hj [Hi' [Hj' [Hne Hle]]].
      apply Z.eqb_eq in Hi, Hj. rewrite !tie_keys_nth in Hle by assumption.
      rewrite Hi, Hj in Hle. lia.
  - apply (sorted_filter_lt lt).
    + apply (sorted_positions _ 0%nat). intros p q Hpq Hq.
      rewrite length_seq in Hq. rewrite !seq_nth by lia. lia.
    + intros i j _ _ H. exact H.
  - apply filter_perm. exact Hperm.
Qed.

End Ties.

Lemma take_map_commute {A B : Type} (f : A -> B) (l : list A) (indexer : list nat) :
  take (map f l) indexer = map f (take l indexer).
Proof.
  unfold take. induction indexer as [| i t IH]; [reflexivity |].
  cbn [flat_map]. rewrite map_app, IH. f_equal.
  rewrite nth_error_map. now destruct (nth_error l i).
Qed.

Lemma numpy_quicksort_map {A B : Type} (f : A -> B) (key : B -> Z) (l : list A) :
  numpy_quicksort B key (map f l)
  = map f (numpy_quicksort A (fun x => key (f x)) l).
Proof.
  unfold numpy_quicksort. rewrite map_map. apply take_map_commute.
Qed.

(** The elements of one key of a short list keep their order. *)
Lemma numpy_quicksort_small_ties {A : Type} (key : A -> Z) (l : list A) (t : Z) :
  (List.length l <= Numpy.SMALL_QUICKSORT)%nat ->
  filter (fun x => key x =? t) (numpy_quicksort A key l)
  = filter (fun x => key x =? t) l.
Proof.
  intros Hsmall. unfold numpy_quicksort.
  destruct (aquicksort_spec (map key l)) as [Hperm _].
  pose proof (aquicksort_small_ties (map key l) t) as Hties.
  rewrite length_map in Hperm, Hties. specialize (Hties Hsmall).
  set (indexer := Numpy.aquicksort (map key l)) in *.
  destruct l as [| d l'] eqn:El.
  { cbn [List.length seq] in Hperm.
    apply Permutation_sym, Permutation_nil in Hperm.
    now rewrite Hperm. }
  rewrite <- El in *.
  assert (Hin : forall i, In i indexer -> (i < List.length l)%nat).
  { intros i Hi. apply (Permutation_in _ Hperm) in Hi.
    apply in_seq in Hi. lia. }
  assert (Hkey : forall i, (i < List.length l)%nat ->
            nth i (map key l) 0 = key (nth i l d)).
  { intros i Hi.
    rewrite (nth_indep _ 0 (key d)) by now rewrite length_map.
    apply map_nth. }
  pose proof (take_seq l []) as Hl. cbn [app List.length] in Hl.
  rewrite <- Hl at 2.
  rewrite !(take_map l d)
    by (try exact Hin; intros i Hi; apply in_seq in Hi; lia).
  rewrite !filter_map_swap. f_equal.
  rewrite (filter_ext_in (fun i => key (nth i l d) =? t)
             (fun i => nth i (map key l) 0 =? t) indexer)
    by (intros i Hi; now rewrite Hkey by (apply Hin; exact Hi)).
  rewrite (filter_ext_in (fun i => key (nth i l d) =? t)
             (fun i => nth i (map key l) 0 =? t) (seq 0 (List.length l)))
    by (intros i Hi; apply in_seq in Hi; now rewrite Hkey by lia).
  exact Hties.
Qed.

Lemma parse_response_numpy (data : Payload) :
  well_formed data = true ->
  _parse_response numpy_quicksort data
  = ok (DataFrame_of_records
          (numpy_quicksort GenerationRecord timestamp (payload_records data))).
Proof.
  intros Hwf. unfold well_formed in Hwf. unfold _parse_response.
  rewrite parse_periods_well_formed by exact Hwf.
  change (payload_records (mkPayload (Some (get_or_empty (payload_data data)))))
    with (payload_records data).
  cbn [app rbind ok].
  destruct (payload_records data) as [| r0 recs0] eqn:E; [reflexivity |].
  rewrite <- E.
  assert (Hdf : DataFrame_of_records (payload_records data)
                = mkDF record_columns (map row_of_record (payload_records data)))
    by now rewrite E.
  rewrite Hdf.
  assert (Hne : empty (mkDF record_columns
                         (map row_of_record (payload_records data))) = false)
    by now rewrite E.
  rewrite Hne. cbn [negb]. unfold sort_values.
  cbn [columns col_pos record_columns].
  change (String.eqb "timestamp" "timestamp") with true. cbv iota. cbn [rows].
  rewrite numpy_quicksort_map.
  change (fun x : GenerationRecord => sort_key (cell_at 0 (row_of_record x)))
    with timestamp.
  destruct (numpy_quicksort GenerationRecord timestamp (payload_records data))
    as [| r recs] eqn:Es; [| reflexivity].
  destruct (numpy_quicksort_sorts GenerationRecord timestamp (payload_records data))
    as [Hperm _].
  rewrite Es, E in Hperm. apply Permutation_sym, Permutation_nil in Hperm.
  discriminate.
Qed.

(** X18. Short bodies keep their ties in order: with NumPy's quicksort
    behind [sort_values], the parser turns a body of the expected shape
    with at most 16 entries into the table of its entries in ascending
    order of timestamp, and for every timestamp the records of that
    timestamp are in the table in the order they have in the body. *)
Theorem parser_keeps_ties_of_short_bodies (data : Payload) :
  well_formed data = true ->
  (List.length (payload_records data) <= 16)%nat ->
  exists recs : list GenerationRecord,
    _parse_response numpy_quicksort data = ok (DataFrame_of_records recs)
    /\ StronglySorted (fun a b => timestamp a <= timestamp b) recs
    /\ forall t, at_timestamp t recs = at_timestamp t (payload_records data).
Proof.
  intros Hwf Hshort.
  exists (numpy_quicksort GenerationRecord timestamp (payload_records data)).
  split; [now apply parse_response_numpy |].
  split; [apply numpy_quicksort_sorts |].
  intros t. unfold at_timestamp. now apply numpy_quicksort_small_ties.
Qed.

Lemma parser_keeps_ties_of_short_bodies_witness :
  exists recs : list GenerationRecord,
    _parse_response numpy_quicksort two_period_payload
    = ok (DataFrame_of_records recs)
    /\ StronglySorted (fun a b => timestamp a <= timestamp b) recs
    /\ forall t, at_timestamp t recs
                 = at_timestamp t (payload_records two_period_payload).
Proof.
  apply parser_keeps_ties_of_short_bodies; [reflexivity | vm_compute; lia].
Defined.
